(** * perlschool-covers: the text-fitting and layout engine of [js/script.js]

    A shallow embedding of the cover compositor: the colour helper
    [colorLuminance], the tracked-width measurement, the fit loop, the
    compositor [renderToContext] and the native-resolution export.

    Conventions of the model.
    - A JavaScript number is a rational ([Q]); integers that the source
      obtains from the DOM ([canvas.width], [img.width]) are [Z].  The
      operations of binary64 are the exact ones followed by [round64]
      ([fadd], [fsub], [fmul], [fdiv]).  They are used where the rounding
      decides a result: in the channel arithmetic of [colorLuminance], in
      the size cap of title line 2, which goes through [Math.round], and
      in the fit solver taken on its own ([fitTextForContext64], whose
      [size -= 2] can leave a large size unchanged).  The positions and
      sizes the compositor lays out, and [setCanvasSize], are kept exact:
      what is proved of them is stated so that a last-place error does
      not matter.  [NaN] is modelled only where the source can produce
      it ([parseInt] in [colorLuminance]), as [None]; the infinities of
      binary64 are outside the model.
    - A JavaScript string is a [string]; one [ascii] stands for one UTF-16
      code unit below 256.
    - The 2D context is explicit state ([Ctx]): its drawing properties, the
      [save]/[restore] stack and the list of calls it has received.
    - The browser is a parameter: the width [measureText] reports, whether
      [drawImage] rejects an image, and what [toDataURL] answers.  The
      other context calls do not throw, and an assignment to a drawing
      property is taken to be accepted by the context. *)

From Stdlib Require Import QArith ZArith Qround Qabs Qpower Lia Lqa Bool String
  Ascii List.
From Stdlib Require PrimFloat FloatOps SpecFloat.
From Equations Require Import Equations.
Import ListNotations.

Open Scope Q_scope.

(* ------------------------------------------------------------------ *)
(** ** Numbers *)

(** [a > b] on numbers. *)
Definition Qgtb (a b : Q) : bool := negb (Qle_bool a b).

(** [a <= b] on numbers. *)
Definition Qleb (a b : Q) : bool := Qle_bool a b.

(** [Math.round]: the nearest integer, halves towards plus infinity. *)
Definition Math_round (x : Q) : Z := Qfloor (x + (1 # 2)).

(** [Math.max(a, b)] and [Math.min(a, b)]. *)
Definition Math_max (a b : Q) : Q := if Qle_bool a b then b else a.
Definition Math_min (a b : Q) : Q := if Qle_bool a b then a else b.

(** [!x] for a number: true exactly for zero. *)
Definition falsy (x : Q) : bool := Qeq_bool x 0.

(** The number of steps of 2 that lead from [size] to [minSize] or below:
    the variant of the fit loop. *)
Definition fit_steps (size minSize : Q) : nat :=
  Z.to_nat (Qceiling ((size - minSize) / 2)).

(* ------------------------------------------------------------------ *)
(** ** Binary64 *)

(** [2^e], for an exponent of either sign. *)
Definition pow2 (e : Z) : Q := 2 ^ e.

(** The binary exponent of a number other than zero: the [l] with
    [2^l <= |q| < 2^(l+1)]. *)
Definition ilog2 (q : Q) : Z :=
  let l := (Z.log2 (Z.abs (Qnum q)) - Z.log2 (Zpos (Qden q)))%Z in
  if Qle_bool (pow2 l) (Qabs q) then l else (l - 1)%Z.

(** The nearest integer, a half going to the even neighbour. *)
Definition rne (r : Q) : Z :=
  let f := Qfloor r in
  match Qcompare (r - inject_Z f) (1 # 2) with
  | Lt => f
  | Gt => (f + 1)%Z
  | Eq => if Z.even f then f else (f + 1)%Z
  end.

(** The exponent of the unit in the last place of the double nearest to
    [q]: 53 significant bits, and no exponent below that of the
    subnormal numbers. *)
Definition ulp_exp (q : Q) : Z := Z.max (-1074) (ilog2 q - 52).

(** The double nearest to [q], a tie going to the even significand, as a
    fraction in lowest terms: the rounding every arithmetic operation of
    the source ends with.  A result beyond the largest double is Infinity
    in the source and stays a rational here. *)
Definition round64 (q : Q) : Q :=
  if Qeq_bool q 0 then 0
  else Qred (inject_Z (rne (q / pow2 (ulp_exp q))) * pow2 (ulp_exp q)).

(** [a + b], [a - b], [a * b] and [a / b] on doubles. *)
Definition fadd (a b : Q) : Q := round64 (a + b).
Definition fsub (a b : Q) : Q := round64 (a - b).
Definition fmul (a b : Q) : Q := round64 (a * b).
Definition fdiv (a b : Q) : Q := round64 (a / b).

(** A number that is a double. *)
Definition is_double (q : Q) : Prop := round64 q == q.

(** The value of a primitive binary64 number of the prover, when it is
    finite. *)
Definition float_value (f : PrimFloat.float) : option Q :=
  match FloatOps.Prim2SF f with
  | SpecFloat.S754_zero _ => Some 0
  | SpecFloat.S754_finite s m e =>
      Some ((if s then - (1) else 1) * inject_Z (Zpos m) * pow2 e)
  | _ => None
  end.

Definition same_value (f : PrimFloat.float) (q : Q) : bool :=
  match float_value f with
  | Some v => Qeq_bool v q
  | None => false
  end.

(* ------------------------------------------------------------------ *)
(** ** Facts about numbers *)

Lemma Qgtb_true (a b : Q) : Qgtb a b = true <-> b < a.
Proof.
  unfold Qgtb. rewrite negb_true_iff. split; intro H.
  - destruct (Qlt_le_dec b a) as [L | L]; [exact L |].
    apply Qle_bool_iff in L. congruence.
  - destruct (Qle_bool a b) eqn:E; [| reflexivity].
    apply Qle_bool_iff in E. lra.
Qed.

Lemma Qgtb_false (a b : Q) : Qgtb a b = false <-> a <= b.
Proof.
  unfold Qgtb. rewrite negb_false_iff. apply Qle_bool_iff.
Qed.

Lemma Qleb_true (a b : Q) : Qleb a b = true <-> a <= b.
Proof. apply Qle_bool_iff. Qed.

Lemma Qleb_false (a b : Q) : Qleb a b = false <-> b < a.
Proof.
  unfold Qleb. split; intro H.
  - destruct (Qlt_le_dec b a) as [L | L]; [exact L |].
    apply Qle_bool_iff in L. congruence.
  - destruct (Qle_bool a b) eqn:E; [| reflexivity].
    apply Qle_bool_iff in E. lra.
Qed.

Lemma falsy_true (x : Q) : falsy x = true <-> x == 0.
Proof. apply Qeq_bool_iff. Qed.

Lemma falsy_false (x : Q) : falsy x = false <-> ~ x == 0.
Proof.
  unfold falsy. split; intro H.
  - intro E. apply Qeq_bool_iff in E. congruence.
  - destruct (Qeq_bool x 0) eqn:E; [| reflexivity].
    apply Qeq_bool_iff in E. contradiction.
Qed.

Lemma Math_max_spec (a b : Q) :
  (a <= b /\ Math_max a b = b) \/ (b < a /\ Math_max a b = a).
Proof.
  unfold Math_max. destruct (Qle_bool a b) eqn:E.
  - left. split; [apply Qle_bool_iff; exact E | reflexivity].
  - right. split; [apply Qleb_false; exact E | reflexivity].
Qed.

Lemma Math_min_spec (a b : Q) :
  (a <= b /\ Math_min a b = a) \/ (b < a /\ Math_min a b = b).
Proof.
  unfold Math_min. destruct (Qle_bool a b) eqn:E.
  - left. split; [apply Qle_bool_iff; exact E | reflexivity].
  - right. split; [apply Qleb_false; exact E | reflexivity].
Qed.

Lemma inject_Z_lt_inv (a b : Z) : inject_Z a < inject_Z b -> (a < b)%Z.
Proof. intro H. rewrite Zlt_Qlt. exact H. Qed.

Lemma inject_Z_le_inv (a b : Z) : inject_Z a <= inject_Z b -> (a <= b)%Z.
Proof. intro H. rewrite Zle_Qle. exact H. Qed.

Lemma inject_Z_pred (a : Z) : inject_Z (a - 1) == inject_Z a - 1.
Proof.
  unfold Z.sub. rewrite inject_Z_plus.
  change (inject_Z (Z.opp 1)) with (Qopp 1). ring.
Qed.

Lemma inject_Z_succ (a : Z) : inject_Z (a + 1) == inject_Z a + 1.
Proof. rewrite inject_Z_plus. reflexivity. Qed.

(** The variant of the fit loop is positive and decreases while the size
    is above the floor. *)
Lemma fit_steps_decrease (size0 minSize : Q) :
  minSize < size0 ->
  (fit_steps (size0 - 2) minSize < fit_steps size0 minSize)%nat.
Proof.
  intro G. unfold fit_steps.
  assert (E : (size0 - 2 - minSize) / 2 == (size0 - minSize) / 2 - 1) by field.
  rewrite E. clear E.
  assert (P : 0 < (size0 - minSize) / 2) by (apply Qlt_shift_div_l; lra).
  revert P. generalize ((size0 - minSize) / 2). intros x P.
  pose proof (Qle_ceiling x) as U. pose proof (Qceiling_lt (x - 1)) as L.
  rewrite inject_Z_pred in L.
  assert (A : (Qceiling (x - 1) < Qceiling x)%Z)
    by (apply inject_Z_lt_inv; lra).
  assert (B : (0 < Qceiling x)%Z)
    by (apply inject_Z_lt_inv; change (inject_Z 0) with 0; lra).
  lia.
Qed.

Lemma fit_steps_floor (size0 minSize : Q) :
  size0 <= minSize -> fit_steps size0 minSize = 0%nat.
Proof.
  intro L. unfold fit_steps.
  assert (N : (size0 - minSize) / 2 <= 0).
  { apply Qle_shift_div_r; lra. }
  apply Qceiling_resp_le in N. change (Qceiling 0) with 0%Z in N. lia.
Qed.

(** A size reached by steps of 2 downwards is not above the start. *)
Lemma steps_down_le (s m : Q) (k : nat) :
  s == m - 2 * inject_Z (Z.of_nat k) -> s <= m.
Proof.
  intro E. rewrite E. pose proof (Zle_0_nat k) as P. rewrite Zle_Qle in P.
  change (inject_Z 0) with 0 in P. lra.
Qed.

(** Powers of two. *)
Lemma pow2_pos (e : Z) : 0 < pow2 e.
Proof. apply Qpower_0_lt. reflexivity. Qed.

Lemma pow2_add (a b : Z) : pow2 (a + b) == pow2 a * pow2 b.
Proof. apply Qpower_plus. discriminate. Qed.

Lemma pow2_le (a b : Z) : (a <= b)%Z -> pow2 a <= pow2 b.
Proof. intro H. apply Qpower_le_compat_l; [exact H | discriminate]. Qed.

Lemma pow2_lt (a b : Z) : (a < b)%Z -> pow2 a < pow2 b.
Proof. intro H. apply Qpower_lt_compat_l; [exact H | reflexivity]. Qed.

Lemma pow2_lt_inv (a b : Z) : pow2 a < pow2 b -> (a < b)%Z.
Proof. intro H. apply (Qpower_lt_compat_l_inv 2); [exact H | reflexivity]. Qed.

Lemma pow2_Z (e : Z) : (0 <= e)%Z -> pow2 e == inject_Z (2 ^ e).
Proof. intro H. unfold pow2. rewrite Zpower_Qpower by exact H. reflexivity. Qed.

Lemma pow2_sub (a b : Z) : pow2 (a - b) == pow2 a / pow2 b.
Proof.
  pose proof (pow2_pos b) as P.
  assert (E : pow2 a == pow2 (a - b) * pow2 b).
  { rewrite <- pow2_add. replace (a - b + b)%Z with a by ring. reflexivity. }
  rewrite E. field. lra.
Qed.

Lemma Qabs_frac (q : Q) :
  Qabs q == inject_Z (Z.abs (Qnum q)) / inject_Z (Zpos (Qden q)).
Proof.
  destruct q as [n d]. unfold Qabs. cbn [Qnum Qden].
  rewrite (Qmake_Qdiv (Z.abs n) d). reflexivity.
Qed.

Lemma Qabs_zero_iff (q : Q) : Qabs q == 0 <-> q == 0.
Proof.
  split; intro H.
  - revert H. apply Qabs_case; intros; lra.
  - rewrite H. reflexivity.
Qed.

Lemma Qabs_gt0 (q : Q) : ~ q == 0 -> 0 < Qabs q.
Proof.
  intro H. pose proof (Qabs_nonneg q) as P.
  destruct (Qlt_le_dec 0 (Qabs q)) as [L | L]; [exact L |].
  exfalso. apply H. apply Qabs_zero_iff. lra.
Qed.

Lemma ilog2_spec (q : Q) :
  ~ q == 0 -> pow2 (ilog2 q) <= Qabs q /\ Qabs q < pow2 (ilog2 q + 1).
Proof.
  intro NZ. unfold ilog2.
  set (n := Z.abs (Qnum q)). set (d := Zpos (Qden q)).
  set (ln := Z.log2 n). set (ld := Z.log2 d).
  assert (Hn : (0 < n)%Z).
  { unfold n. destruct q as [qn qd]. cbn [Qnum].
    assert (qn <> 0)%Z.
    { intro E. apply NZ. subst qn. reflexivity. }
    lia. }
  assert (Hd : (0 < d)%Z) by (unfold d; lia).
  destruct (Z.log2_spec n Hn) as [N1 N2]. fold ln in N1, N2.
  destruct (Z.log2_spec d Hd) as [D1 D2]. fold ld in D1, D2.
  assert (Ln : (0 <= ln)%Z) by apply Z.log2_nonneg.
  assert (Ld : (0 <= ld)%Z) by apply Z.log2_nonneg.
  assert (E : Qabs q == inject_Z n / inject_Z d) by apply Qabs_frac.
  assert (Pd : 0 < inject_Z d).
  { change 0 with (inject_Z 0). rewrite <- Zlt_Qlt. exact Hd. }
  assert (Pn : 0 < inject_Z n).
  { change 0 with (inject_Z 0). rewrite <- Zlt_Qlt. exact Hn. }
  assert (Lo : pow2 (ln - ld - 1) < Qabs q).
  { rewrite E. replace (ln - ld - 1)%Z with (ln - (ld + 1))%Z by ring.
    rewrite pow2_sub, !pow2_Z by lia.
    apply Qlt_shift_div_l; [exact Pd |].
    assert (F : inject_Z (2 ^ ln) / inject_Z (2 ^ (ld + 1)) * inject_Z d
                == inject_Z (2 ^ ln) * (inject_Z d / inject_Z (2 ^ (ld + 1)))).
    { field. intro Z0. rewrite <- pow2_Z in Z0 by lia.
      pose proof (pow2_pos (ld + 1)). lra. }
    rewrite F. clear F.
    assert (G : inject_Z d / inject_Z (2 ^ (ld + 1)) < 1).
    { apply Qlt_shift_div_r.
      - rewrite <- pow2_Z by lia. apply pow2_pos.
      - rewrite Qmult_1_l. rewrite <- Zlt_Qlt. exact D2. }
    assert (H1 : inject_Z (2 ^ ln) <= inject_Z n) by (rewrite <- Zle_Qle; exact N1).
    assert (H0 : 0 < inject_Z (2 ^ ln)).
    { rewrite <- pow2_Z by lia. apply pow2_pos. }
    nra. }
  assert (Hi : Qabs q < pow2 (ln - ld + 1)).
  { rewrite E. replace (ln - ld + 1)%Z with (ln + 1 - ld)%Z by ring.
    rewrite pow2_sub, !pow2_Z by lia.
    apply Qlt_shift_div_r; [exact Pd |].
    assert (H0 : 0 < inject_Z (2 ^ ld)).
    { rewrite <- pow2_Z by lia. apply pow2_pos. }
    assert (F : inject_Z (2 ^ (ln + 1)) / inject_Z (2 ^ ld) * inject_Z d
                == inject_Z (2 ^ (ln + 1)) * (inject_Z d / inject_Z (2 ^ ld))).
    { field. lra. }
    rewrite F. clear F.
    assert (G : 1 <= inject_Z d / inject_Z (2 ^ ld)).
    { apply Qle_shift_div_l; [exact H0 |].
      rewrite Qmult_1_l. rewrite <- Zle_Qle. exact D1. }
    assert (H1 : inject_Z n < inject_Z (2 ^ (ln + 1))) by (rewrite <- Zlt_Qlt; exact N2).
    nra. }
  destruct (Qle_bool (pow2 (ln - ld)) (Qabs q)) eqn:T.
  - apply Qle_bool_iff in T. split; [exact T | exact Hi].
  - assert (T' : Qabs q < pow2 (ln - ld)).
    { destruct (Qlt_le_dec (Qabs q) (pow2 (ln - ld))) as [L | L]; [exact L |].
      apply Qle_bool_iff in L. congruence. }
    replace (ln - ld - 1 + 1)%Z with (ln - ld)%Z by ring.
    split; [apply Qlt_le_weak; exact Lo | exact T'].
Qed.

Lemma ilog2_unique (q : Q) (k : Z) :
  pow2 k <= Qabs q -> Qabs q < pow2 (k + 1) -> ilog2 q = k.
Proof.
  intros L U.
  assert (NZ : ~ q == 0).
  { intro E. rewrite E in L. pose proof (pow2_pos k). change (Qabs 0) with 0 in L. lra. }
  destruct (ilog2_spec q NZ) as [L' U'].
  assert (A : (ilog2 q < k + 1)%Z) by (apply pow2_lt_inv; lra).
  assert (B : (k < ilog2 q + 1)%Z) by (apply pow2_lt_inv; lra).
  lia.
Qed.

Lemma ilog2_mono (x y : Q) :
  ~ x == 0 -> Qabs x <= Qabs y -> (ilog2 x <= ilog2 y)%Z.
Proof.
  intros NZ L.
  assert (NZy : ~ y == 0).
  { intro E. rewrite E in L. change (Qabs 0) with 0 in L.
    pose proof (Qabs_gt0 x NZ). lra. }
  destruct (ilog2_spec x NZ) as [Lx Ux].
  destruct (ilog2_spec y NZy) as [Ly Uy].
  assert (A : (ilog2 x < ilog2 y + 1)%Z) by (apply pow2_lt_inv; lra).
  lia.
Qed.

(** Rounding to the nearest integer, halves to the even one. *)
Lemma rne_cases (r : Q) :
  let f := Qfloor r in
  (r - inject_Z f < 1 # 2 /\ rne r = f)
  \/ (1 # 2 < r - inject_Z f /\ rne r = (f + 1)%Z)
  \/ (r - inject_Z f == 1 # 2 /\ rne r = if Z.even f then f else (f + 1)%Z).
Proof.
  intro f. unfold rne. fold f.
  destruct (Qcompare (r - inject_Z f) (1 # 2)) eqn:C.
  - right. right. split; [apply Qeq_alt; exact C | reflexivity].
  - left. split; [apply Qlt_alt; exact C | reflexivity].
  - right. left. split; [apply Qgt_alt; exact C | reflexivity].
Qed.

Lemma Qfloor_frac (r : Q) :
  0 <= r - inject_Z (Qfloor r) /\ r - inject_Z (Qfloor r) < 1.
Proof.
  pose proof (Qfloor_le r) as L. pose proof (Qlt_floor r) as U.
  rewrite inject_Z_plus in U. change (inject_Z 1) with 1 in U. lra.
Qed.

Lemma rne_error (r : Q) :
  inject_Z (rne r) - r <= 1 # 2 /\ r - inject_Z (rne r) <= 1 # 2.
Proof.
  pose proof (Qfloor_frac r) as [F0 F1].
  destruct (rne_cases r) as [[C E] | [[C E] | [C E]]]; rewrite E.
  - lra.
  - rewrite inject_Z_plus. change (inject_Z 1) with 1. lra.
  - destruct (Z.even (Qfloor r)).
    + lra.
    + rewrite inject_Z_plus. change (inject_Z 1) with 1. lra.
Qed.

Lemma rne_Z (z : Z) : rne (inject_Z z) = z.
Proof.
  destruct (rne_cases (inject_Z z)) as [[C E] | [[C E] | [C E]]];
    rewrite Qfloor_Z in *.
  - exact E.
  - exfalso. lra.
  - exfalso. lra.
Qed.

Lemma rne_comp (r s : Q) : r == s -> rne r = rne s.
Proof.
  intro E. unfold rne. rewrite (Qfloor_comp r s E).
  assert (C : Qcompare (r - inject_Z (Qfloor s)) (1 # 2)
              = Qcompare (s - inject_Z (Qfloor s)) (1 # 2)).
  { apply Qcompare_comp; [rewrite E; reflexivity | reflexivity]. }
  rewrite C. reflexivity.
Qed.

Lemma rne_mono (r s : Q) : r <= s -> (rne r <= rne s)%Z.
Proof.
  intro L.
  pose proof (Qfloor_resp_le r s L) as FL.
  pose proof (Qfloor_frac r) as [R0 R1]. pose proof (Qfloor_frac s) as [S0 S1].
  assert (Br : (Qfloor r <= rne r <= Qfloor r + 1)%Z).
  { destruct (rne_cases r) as [[_ E] | [[_ E] | [_ E]]]; rewrite E;
      try destruct (Z.even (Qfloor r)); lia. }
  assert (Bs : (Qfloor s <= rne s <= Qfloor s + 1)%Z).
  { destruct (rne_cases s) as [[_ E] | [[_ E] | [_ E]]]; rewrite E;
      try destruct (Z.even (Qfloor s)); lia. }
  destruct (Z.eq_dec (Qfloor r) (Qfloor s)) as [EQ | NE]; [| lia].
  destruct (rne_cases r) as [[Cr Er] | [[Cr Er] | [Cr Er]]];
    destruct (rne_cases s) as [[Cs Es] | [[Cs Es] | [Cs Es]]];
    rewrite Er, Es; rewrite EQ in *;
    try destruct (Z.even (Qfloor s)); try lia; exfalso; lra.
Qed.

Lemma Qfloor_opp_frac (r : Q) :
  (r == inject_Z (Qfloor r) /\ Qfloor (- r) = (- Qfloor r)%Z)
  \/ (inject_Z (Qfloor r) < r /\ Qfloor (- r) = (- Qfloor r - 1)%Z).
Proof.
  pose proof (Qfloor_frac r) as [R0 R1].
  destruct (Qeq_dec r (inject_Z (Qfloor r))) as [E | NE].
  - left. split; [exact E |].
    rewrite (Qfloor_comp (- r) (inject_Z (- Qfloor r))).
    + apply Qfloor_Z.
    + rewrite inject_Z_opp. rewrite <- E. reflexivity.
  - right. assert (L : inject_Z (Qfloor r) < r).
    { destruct (Qlt_le_dec (inject_Z (Qfloor r)) r) as [L | L]; [exact L |].
      exfalso. apply NE. lra. }
    split; [exact L |].
    pose proof (Qfloor_le (- r)) as A. pose proof (Qlt_floor (- r)) as B.
    rewrite inject_Z_plus in B. change (inject_Z 1) with 1 in B.
    assert (X : (Qfloor (- r) < - Qfloor r)%Z).
    { apply inject_Z_lt_inv. rewrite inject_Z_opp. lra. }
    assert (Y : (- Qfloor r - 2 < Qfloor (- r))%Z).
    { apply inject_Z_lt_inv. unfold Z.sub. rewrite !inject_Z_plus, !inject_Z_opp.
      change (inject_Z 2) with 2. lra. }
    lia.
Qed.

Lemma rne_opp (r : Q) : rne (- r) = (- rne r)%Z.
Proof.
  destruct (Qfloor_opp_frac r) as [[E F] | [L F]].
  - rewrite (rne_comp (- r) (inject_Z (- Qfloor r))).
    + rewrite (rne_comp r (inject_Z (Qfloor r)) E). rewrite !rne_Z. reflexivity.
    + rewrite inject_Z_opp. rewrite <- E. reflexivity.
  - assert (G : - r - inject_Z (Qfloor (- r)) == 1 - (r - inject_Z (Qfloor r))).
    { rewrite F. unfold Z.sub. rewrite inject_Z_plus, !inject_Z_opp.
      change (inject_Z 1) with 1. ring. }
    assert (Ev : Z.even (- Qfloor r - 1) = negb (Z.even (Qfloor r))).
    { replace (- Qfloor r - 1)%Z with (- (Qfloor r + 1))%Z by ring.
      rewrite Z.even_opp. rewrite Z.even_add. cbn.
      destruct (Z.even (Qfloor r)); reflexivity. }
    destruct (rne_cases r) as [[Cr Er] | [[Cr Er] | [Cr Er]]];
      destruct (rne_cases (- r)) as [[Cs Es] | [[Cs Es] | [Cs Es]]];
      rewrite Er, Es; rewrite ?F in *; rewrite ?Ev;
      try (exfalso; lra); try lia.
    destruct (Z.even (Qfloor r)); cbn; lia.
Qed.

(** Rounding to binary64. *)
Lemma ilog2_comp (x y : Q) : ~ x == 0 -> x == y -> ilog2 x = ilog2 y.
Proof.
  intros NZ E. destruct (ilog2_spec x NZ) as [L U].
  symmetry. apply ilog2_unique; rewrite <- E; assumption.
Qed.

Lemma ilog2_opp (q : Q) : ilog2 (- q) = ilog2 q.
Proof.
  destruct q as [n d]. unfold ilog2, Qabs, Qopp. cbn [Qnum Qden].
  rewrite Z.abs_opp. reflexivity.
Qed.

Lemma ulp_exp_opp (q : Q) : ulp_exp (- q) = ulp_exp q.
Proof. unfold ulp_exp. rewrite ilog2_opp. reflexivity. Qed.

Lemma round64_zero (q : Q) : q == 0 -> round64 q = 0.
Proof.
  intro E. unfold round64. apply Qeq_bool_iff in E. rewrite E. reflexivity.
Qed.

Lemma round64_nonzero (q : Q) :
  ~ q == 0 ->
  round64 q == inject_Z (rne (q / pow2 (ulp_exp q))) * pow2 (ulp_exp q).
Proof.
  intro NZ. unfold round64. destruct (Qeq_bool q 0) eqn:E.
  - apply Qeq_bool_iff in E. contradiction.
  - apply Qred_correct.
Qed.

Lemma round64_comp (x y : Q) : x == y -> round64 x == round64 y.
Proof.
  intro E. destruct (Qeq_dec x 0) as [Z0 | NZ].
  - rewrite (round64_zero x Z0), (round64_zero y); [reflexivity |].
    rewrite <- E. exact Z0.
  - assert (NZy : ~ y == 0) by (rewrite <- E; exact NZ).
    rewrite (round64_nonzero x NZ), (round64_nonzero y NZy).
    unfold ulp_exp. rewrite (ilog2_comp x y NZ E).
    rewrite (rne_comp (x / pow2 (Z.max (-1074) (ilog2 y - 52)))
                      (y / pow2 (Z.max (-1074) (ilog2 y - 52)))).
    + reflexivity.
    + rewrite E. reflexivity.
Qed.

Lemma round64_opp (q : Q) : round64 (- q) == - round64 q.
Proof.
  destruct (Qeq_dec q 0) as [Z0 | NZ].
  - rewrite (round64_zero q Z0), (round64_zero (- q)); [reflexivity |].
    rewrite Z0. reflexivity.
  - assert (NZ' : ~ - q == 0) by (intro E; apply NZ; lra).
    rewrite (round64_nonzero q NZ), (round64_nonzero (- q) NZ').
    rewrite ulp_exp_opp.
    pose proof (pow2_pos (ulp_exp q)) as P.
    rewrite (rne_comp (- q / pow2 (ulp_exp q)) (- (q / pow2 (ulp_exp q)))).
    + rewrite rne_opp, inject_Z_opp. ring.
    + field. lra.
Qed.

Lemma round64_nonneg (q : Q) : 0 <= q -> 0 <= round64 q.
Proof.
  intro P. destruct (Qeq_dec q 0) as [Z0 | NZ].
  - rewrite (round64_zero q Z0). lra.
  - rewrite (round64_nonzero q NZ).
    pose proof (pow2_pos (ulp_exp q)) as Pp.
    assert (R : (0 <= rne (q / pow2 (ulp_exp q)))%Z).
    { rewrite <- (rne_Z 0). apply rne_mono. change (inject_Z 0) with 0.
      apply Qle_shift_div_l; [exact Pp | lra]. }
    rewrite Zle_Qle in R. change (inject_Z 0) with 0 in R. nra.
Qed.

(** A number [m * 2^e] with [|m| <= 2^53] and [e >= -1074] is a double. *)
Lemma round64_dyadic (q : Q) (m e : Z) :
  q == inject_Z m * pow2 e -> (Z.abs m < 2 ^ 53)%Z -> (-1074 <= e)%Z ->
  round64 q == q.
Proof.
  intros E Bm Be. destruct (Qeq_dec q 0) as [Z0 | NZ].
  - rewrite (round64_zero q Z0). symmetry. exact Z0.
  - rewrite (round64_nonzero q NZ).
    set (u := ulp_exp q).
    pose proof (pow2_pos u) as Pu. pose proof (pow2_pos e) as Pe.
    assert (Le : (u <= e)%Z).
    { unfold u, ulp_exp. apply Z.max_lub; [exact Be |].
      destruct (ilog2_spec q NZ) as [L _].
      assert (A : Qabs q < pow2 (53 + e)).
      { rewrite E, Qabs_Qmult. rewrite (Qabs_pos (pow2 e)) by lra.
        rewrite pow2_add.
        assert (B : Qabs (inject_Z m) < pow2 53).
        { rewrite pow2_Z by lia.
          change (Qabs (inject_Z m)) with (inject_Z (Z.abs m)).
          rewrite <- Zlt_Qlt. exact Bm. }
        nra. }
      assert (C : (ilog2 q < 53 + e)%Z) by (apply pow2_lt_inv; lra).
      lia. }
    assert (F : q / pow2 u == inject_Z (m * 2 ^ (e - u))).
    { rewrite inject_Z_mult, <- pow2_Z by lia. rewrite pow2_sub, E. field. lra. }
    rewrite (rne_comp _ _ F), rne_Z. rewrite <- F. field. lra.
Qed.

Lemma round64_Z (q : Q) (z : Z) :
  q == inject_Z z -> (Z.abs z <= 2 ^ 53)%Z -> round64 q == inject_Z z.
Proof.
  intros E B. rewrite <- E.
  destruct (Z.eq_dec (Z.abs z) (2 ^ 53)) as [T | T].
  - assert (D : (z = 2 ^ 53 \/ z = - 2 ^ 53)%Z) by lia.
    destruct D as [D | D]; subst z.
    + apply (round64_dyadic q (2 ^ 52) 1); [| reflexivity | lia].
      rewrite E. reflexivity.
    + apply (round64_dyadic q (- 2 ^ 52) 1); [| reflexivity | lia].
      rewrite E. reflexivity.
  - apply (round64_dyadic q z 0); [| lia | lia].
    rewrite E. change (pow2 0) with 1. ring.
Qed.

Lemma round64_le_pow2 (x : Q) (k : Z) :
  0 < x -> x <= pow2 k -> (ulp_exp x <= k)%Z -> round64 x <= pow2 k.
Proof.
  intros P L U. assert (NZ : ~ x == 0) by lra.
  rewrite (round64_nonzero x NZ). set (u := ulp_exp x) in *.
  pose proof (pow2_pos u) as Pu.
  assert (F : pow2 k == inject_Z (2 ^ (k - u)) * pow2 u).
  { rewrite <- pow2_Z by lia. rewrite <- pow2_add.
    replace (k - u + u)%Z with k by ring. reflexivity. }
  assert (R : (rne (x / pow2 u) <= 2 ^ (k - u))%Z).
  { rewrite <- (rne_Z (2 ^ (k - u))). apply rne_mono.
    apply Qle_shift_div_r; [exact Pu |]. rewrite <- F. exact L. }
  rewrite Zle_Qle in R. rewrite F. nra.
Qed.

Lemma round64_ge_pow2 (y : Q) (k : Z) :
  0 < y -> pow2 k <= y -> (ulp_exp y <= k)%Z -> pow2 k <= round64 y.
Proof.
  intros P L U. assert (NZ : ~ y == 0) by lra.
  rewrite (round64_nonzero y NZ). set (u := ulp_exp y) in *.
  pose proof (pow2_pos u) as Pu.
  assert (F : pow2 k == inject_Z (2 ^ (k - u)) * pow2 u).
  { rewrite <- pow2_Z by lia. rewrite <- pow2_add.
    replace (k - u + u)%Z with k by ring. reflexivity. }
  assert (R : (2 ^ (k - u) <= rne (y / pow2 u))%Z).
  { rewrite <- (rne_Z (2 ^ (k - u))) at 1. apply rne_mono.
    apply Qle_shift_div_l; [exact Pu |]. rewrite <- F. exact L. }
  rewrite Zle_Qle in R. rewrite F. nra.
Qed.

Lemma round64_mono_pos (x y : Q) :
  0 < x -> x <= y -> round64 x <= round64 y.
Proof.
  intros P L.
  assert (NZx : ~ x == 0) by lra. assert (NZy : ~ y == 0) by lra.
  assert (Ax : Qabs x == x) by (apply Qabs_pos; lra).
  assert (Ay : Qabs y == y) by (apply Qabs_pos; lra).
  assert (IL : (ilog2 x <= ilog2 y)%Z).
  { apply ilog2_mono; [exact NZx |]. rewrite Ax, Ay. exact L. }
  destruct (ilog2_spec x NZx) as [Lx Ux]. rewrite Ax in Lx, Ux.
  destruct (ilog2_spec y NZy) as [Ly Uy]. rewrite Ay in Ly, Uy.
  destruct (Z.eq_dec (ulp_exp x) (ulp_exp y)) as [EQ | NE].
  - rewrite (round64_nonzero x NZx), (round64_nonzero y NZy), EQ.
    pose proof (pow2_pos (ulp_exp y)) as Pu.
    assert (R : (rne (x / pow2 (ulp_exp y)) <= rne (y / pow2 (ulp_exp y)))%Z).
    { apply rne_mono. apply Qle_shift_div_l; [exact Pu |].
      assert (G : x / pow2 (ulp_exp y) * pow2 (ulp_exp y) == x) by (field; lra).
      rewrite G. exact L. }
    rewrite Zle_Qle in R. nra.
  - assert (LT : (ulp_exp x < ulp_exp y)%Z) by (unfold ulp_exp in *; lia).
    assert (Ey : ulp_exp y = (ilog2 y - 52)%Z) by (unfold ulp_exp in *; lia).
    apply Qle_trans with (pow2 (Z.max (ilog2 x + 1) (ulp_exp x))).
    + apply round64_le_pow2; [exact P | | lia].
      apply Qle_trans with (pow2 (ilog2 x + 1)); [lra |].
      apply pow2_le. lia.
    + apply Qle_trans with (pow2 (ilog2 y)).
      * apply pow2_le. unfold ulp_exp in *. lia.
      * apply round64_ge_pow2; [lra | exact Ly | lia].
Qed.

Lemma round64_mono (x y : Q) : x <= y -> round64 x <= round64 y.
Proof.
  intro L.
  destruct (Qlt_le_dec 0 x) as [Px | Nx].
  - apply round64_mono_pos; assumption.
  - destruct (Qlt_le_dec 0 y) as [Py | Ny].
    + apply Qle_trans with 0.
      * assert (A : 0 <= round64 (- x)) by (apply round64_nonneg; lra).
        rewrite round64_opp in A. lra.
      * apply round64_nonneg. lra.
    + destruct (Qeq_dec y 0) as [Zy | NZy].
      * rewrite (round64_zero y Zy).
        assert (A : 0 <= round64 (- x)) by (apply round64_nonneg; lra).
        rewrite round64_opp in A. lra.
      * assert (A : round64 (- y) <= round64 (- x)).
        { apply round64_mono_pos; lra. }
        rewrite !round64_opp in A. lra.
Qed.

(** The step of the fit loop really goes down while the size is in the
    range where every whole number is a double. *)
Lemma fsub2_decreases (s : Q) :
  - inject_Z (2 ^ 53) + 1 < s -> s <= inject_Z (2 ^ 53) ->
  fsub s 2 < s - 1.
Proof.
  intros L U. unfold fsub.
  pose proof (Qle_ceiling s) as C1. pose proof (Qceiling_lt s) as C2.
  set (c := Qceiling s) in *.
  unfold Z.sub in C2. rewrite inject_Z_plus in C2.
  change (inject_Z (- (1))) with (- (1)) in C2.
  assert (Bc : (- 2 ^ 53 + 2 <= c <= 2 ^ 53)%Z).
  { split.
    - assert (X : inject_Z (- 2 ^ 53 + 1) < inject_Z c).
      { rewrite inject_Z_plus, inject_Z_opp. change (inject_Z 1) with 1. lra. }
      apply inject_Z_lt_inv in X. lia.
    - assert (X : inject_Z (c - 1) < inject_Z (2 ^ 53)).
      { unfold Z.sub. rewrite inject_Z_plus.
        change (inject_Z (- (1))) with (- (1)). lra. }
      apply inject_Z_lt_inv in X. lia. }
  assert (R : round64 (inject_Z c - 2) == inject_Z (c - 2)).
  { apply round64_Z; [| lia].
    unfold Z.sub. rewrite inject_Z_plus. reflexivity. }
  assert (M : round64 (s - 2) <= round64 (inject_Z c - 2))
    by (apply round64_mono; lra).
  rewrite R in M. unfold Z.sub in M. rewrite inject_Z_plus in M.
  change (inject_Z (- (2))) with (- (2)) in M. lra.
Qed.

(** [round64] against the binary64 arithmetic of the machine, on the
    values the examples below turn on and on subnormal numbers. *)
Module Binary64.
Import PrimFloat.

Example absorbed_step :
  same_value (0x1p55 - 2)%float (fsub (inject_Z (2 ^ 55)) 2) = true.
Proof. vm_compute. reflexivity. Qed.

Example channel_tie :
  same_value (50 + 50 * - (93 / 100))%float
             (fadd 50 (fmul 50 (- fdiv 93 100))) = true.
Proof. vm_compute. reflexivity. Qed.

Example title_cap_tie :
  same_value (260 * (280 / 1600) * 3)%float
             (fmul (fmul 260 (fdiv 280 1600)) 3) = true.
Proof. vm_compute. reflexivity. Qed.

Example below_half :
  same_value (49 * (350 / 34300))%float (fmul 49 (fdiv 350 34300)) = true.
Proof. vm_compute. reflexivity. Qed.

Example quotient_times_divisor :
  same_value (251 / 1600 * 1600)%float (fmul (fdiv 251 1600) 1600) = true.
Proof. vm_compute. reflexivity. Qed.

Example subnormal_sum :
  same_value (0x1p-1074 / 2 + 1 / 3)%float
             (fadd (fdiv (pow2 (-1074)) 2) (fdiv 1 3)) = true.
Proof. vm_compute. reflexivity. Qed.

Example subnormal_product :
  same_value (0x1p-1073 * (3 / 4))%float
             (fmul (pow2 (-1073)) (fdiv 3 4)) = true.
Proof. vm_compute. reflexivity. Qed.

End Binary64.

(* ------------------------------------------------------------------ *)
(** ** Strings *)

Open Scope string_scope.

(** The class [[0-9a-f]] with the [i] flag. *)
Definition is_hex_digit (c : ascii) : bool :=
  let n := nat_of_ascii c in
  ((48 <=? n) && (n <=? 57) || (65 <=? n) && (n <=? 70)
   || (97 <=? n) && (n <=? 102))%nat.

(** The value of a hexadecimal digit. *)
Definition hex_value (c : ascii) : Z :=
  let n := Z.of_nat (nat_of_ascii c) in
  if (n <=? 57)%Z then (n - 48)%Z
  else if (n <=? 70)%Z then (n - 55)%Z
  else (n - 87)%Z.

(** [s.replace(/[^0-9a-f]/gi, '')]. *)
Fixpoint strip_non_hex (s : string) : string :=
  match s with
  | EmptyString => EmptyString
  | String c r =>
      if is_hex_digit c then String c (strip_non_hex r) else strip_non_hex r
  end.

(** A JavaScript value that is either a string or [undefined], or the
    number [NaN] that [undefined + undefined] evaluates to. *)
Inductive jsval : Type :=
| JStr (s : string)
| JUndefined
| JNaN.

(** [s[i]]: the one-character string at index [i], or [undefined]. *)
Definition char_at (s : string) (i : nat) : jsval :=
  match String.get i s with
  | Some c => JStr (String c EmptyString)
  | None => JUndefined
  end.

(** [String(v)] as string concatenation applies it. *)
Definition to_js_string (v : jsval) : string :=
  match v with
  | JStr s => s
  | JUndefined => "undefined"
  | JNaN => "NaN"
  end.

(** The binary [+]: concatenation as soon as one operand is a string,
    numeric addition (here always [NaN]) otherwise. *)
Definition js_plus (a b : jsval) : jsval :=
  match a, b with
  | JStr _, _ | _, JStr _ => JStr (to_js_string a ++ to_js_string b)
  | _, _ => JNaN
  end.

(** [parseInt(s, 16)] on the strings [colorLuminance] hands to it, which
    hold hexadecimal digits and letters of the word [undefined] only: the
    value of the longest prefix of digits, [NaN] ([None]) when that prefix
    is empty. *)
Fixpoint parseInt16_from (acc : Z) (s : string) : Z :=
  match s with
  | String c r =>
      if is_hex_digit c then parseInt16_from (acc * 16 + hex_value c) r
      else acc
  | EmptyString => acc
  end.

Definition parseInt16 (s : string) : option Z :=
  match s with
  | String c r =>
      if is_hex_digit c then Some (parseInt16_from (hex_value c) r) else None
  | EmptyString => None
  end.

(** The digit characters of [Number.prototype.toString(16)]. *)
Definition hex_char (d : Z) : ascii :=
  match String.get (Z.to_nat d) "0123456789abcdef" with
  | Some c => c
  | None => "0"%char
  end.

Fixpoint toString16_digits (fuel : nat) (n : Z) (acc : string) : string :=
  match fuel with
  | O => acc
  | S fuel' =>
      let acc' := String (hex_char (n mod 16)) acc in
      if (n / 16 =? 0)%Z then acc' else toString16_digits fuel' (n / 16) acc'
  end.

(** [n.toString(16)] for an integer [n >= 0]. *)
Definition toString16 (n : Z) : string :=
  toString16_digits (S (Z.to_nat (Z.log2 n))) n "".

(** [s.slice(-2)]: the last two characters (all of [s] when shorter). *)
Definition slice_last2 (s : string) : string :=
  substring (String.length s - 2) 2 s.

(** [s.substr(start, len)]. *)
Definition substr (s : string) (start len : nat) : string :=
  substring start len s.

(** Whitespace that [String.prototype.trim] removes, among the code units
    below 256: tab, line feed, vertical tab, form feed, carriage return,
    space and no-break space. *)
Definition is_js_space (c : ascii) : bool :=
  let n := nat_of_ascii c in
  ((9 <=? n) && (n <=? 13) || (n =? 32) || (n =? 160))%nat.

Fixpoint trim_start (s : string) : string :=
  match s with
  | String c r => if is_js_space c then trim_start r else s
  | EmptyString => EmptyString
  end.

Fixpoint trim_end (s : string) : string :=
  match s with
  | String c r =>
      match trim_end r with
      | EmptyString => if is_js_space c then EmptyString else String c EmptyString
      | r' => String c r'
      end
  | EmptyString => EmptyString
  end.

(** [s.trim()]. *)
Definition trim (s : string) : string := trim_end (trim_start s).

(** Truthiness of a string: non-empty. *)
Definition truthy (s : string) : bool :=
  match s with EmptyString => false | String _ _ => true end.

(* ------------------------------------------------------------------ *)
(** ** Outcomes and the state monad of the script *)

(** A call either returns a value or throws. *)
Inductive Outcome (A : Type) : Type :=
| Returned (a : A)
| Thrown (e : string).
Arguments Returned {A} a.
Arguments Thrown {A} e.

(** A computation over a mutable store [S]. *)
Definition M (S A : Type) : Type := S -> Outcome A * S.

Definition ret {S A} (a : A) : M S A := fun s => (Returned a, s).

Definition bind {S A B} (m : M S A) (k : A -> M S B) : M S B :=
  fun s =>
    match m s with
    | (Returned a, s') => k a s'
    | (Thrown e, s') => (Thrown e, s')
    end.

Definition throw {S A} (e : string) : M S A := fun s => (Thrown e, s).

(** [try { body } finally { cleanup }]: the cleanup runs on both exits and
    the outcome of the body is kept. *)
Definition try_finally {S A} (body : M S A) (cleanup : S -> S) : M S A :=
  fun s => let (o, s') := body s in (o, cleanup s').

Declare Scope js_scope.
Delimit Scope js_scope with js.
Notation "x <- m ;; k" := (bind m (fun x => k))
  (at level 61, m at next level, right associativity) : js_scope.
Notation "m ;; k" := (bind m (fun _ => k))
  (at level 61, right associativity) : js_scope.
Open Scope js_scope.

(* ------------------------------------------------------------------ *)
(** ** [colorLuminance] *)

(** One channel: [parseInt], the adjustment, the clamp and the rounding,
    then two hexadecimal digits.  The product [c * lum] and the sum are
    binary64 operations: their rounding decides the integer that
    [Math.round] returns when the exact sum is close to a half.  A [NaN]
    channel stays [NaN] through [Math.max], [Math.min] and [Math.round]
    and prints as ["NaN"]. *)
Definition luminance_channel (c : Z) (lum : Q) : Z :=
  Math_round
    (Math_min (Math_max 0 (fadd (inject_Z c) (fmul (inject_Z c) lum))) 255).

Definition channel_digits (c : option Z) (lum : Q) : string :=
  match c with
  | Some c => slice_last2 ("00" ++ toString16 (luminance_channel c lum))
  | None => slice_last2 ("00" ++ "NaN")
  end.

(** [colorLuminance(hex, lum)].  A [hex] with no hexadecimal digit at all
    makes the expansion evaluate to the number [NaN], on which [substr] is
    not a function: the call throws. *)
Definition colorLuminance (hex : string) (lum : Q) : Outcome string :=
  let hex := strip_non_hex hex in
  let hex :=
    if (String.length hex <? 6)%nat then
      js_plus (js_plus (js_plus (js_plus (js_plus
        (char_at hex 0) (char_at hex 0)) (char_at hex 1)) (char_at hex 1))
        (char_at hex 2)) (char_at hex 2)
    else JStr hex in
  match hex with
  | JStr hex =>
      let rgb := "#" in
      let rgb := rgb ++ channel_digits (parseInt16 (substr hex 0 2)) lum in
      let rgb := rgb ++ channel_digits (parseInt16 (substr hex 2 2)) lum in
      let rgb := rgb ++ channel_digits (parseInt16 (substr hex 4 2)) lum in
      Returned rgb
  | _ => Thrown "TypeError: hex.substr is not a function"
  end.

(* ------------------------------------------------------------------ *)
(** ** The 2D drawing context *)

(** The value of [ctx.font] as the script composes it,
    [`${weight} ${size}px '${family}', system-ui`], kept as its parts. *)
Record Font : Type := mkFont {
  font_weight : string;
  font_size : Q;
  font_family : string
}.

(** An image element with its intrinsic size. *)
Record Image : Type := mkImage {
  image_src : string;
  image_width : Z;
  image_height : Z
}.

(** The drawing properties the script assigns. *)
Record DrawState : Type := mkDrawState {
  fillStyle : string;
  font : Font;
  globalAlpha : Q;
  globalCompositeOperation : string;
  textBaseline : string
}.

(** A call received by a context, with the drawing properties in force. *)
Inductive Call : Type :=
| Save
| Restore
| FillRect (x y w h : Q) (ds : DrawState)
| DrawImage (im : Image) (x y w h : Q) (ds : DrawState)
| FillText (text : string) (x y : Q) (ds : DrawState)
| MeasureText (text : string) (f : Font).

Record Ctx : Type := mkCtx {
  props : DrawState;
  saved : list DrawState;
  calls : list Call
}.

(** A context as [getContext('2d')] hands it out. *)
Definition initial_props : DrawState :=
  mkDrawState "#000000" (mkFont "normal" 10 "sans-serif") 1 "source-over"
              "alphabetic".

Definition new_context : Ctx := mkCtx initial_props [] [].

Definition record_call (c : Call) (ctx : Ctx) : Ctx :=
  mkCtx (props ctx) (saved ctx) (calls ctx ++ [c]).

Definition with_props (f : DrawState -> DrawState) : M Ctx unit :=
  fun ctx => (Returned tt, mkCtx (f (props ctx)) (saved ctx) (calls ctx)).

Definition upd_fillStyle (v : string) (d : DrawState) : DrawState :=
  mkDrawState v (font d) (globalAlpha d) (globalCompositeOperation d)
              (textBaseline d).

Definition upd_font (v : Font) (d : DrawState) : DrawState :=
  mkDrawState (fillStyle d) v (globalAlpha d) (globalCompositeOperation d)
              (textBaseline d).

Definition upd_globalAlpha (v : Q) (d : DrawState) : DrawState :=
  mkDrawState (fillStyle d) (font d) v (globalCompositeOperation d)
              (textBaseline d).

Definition upd_globalCompositeOperation (v : string) (d : DrawState)
  : DrawState :=
  mkDrawState (fillStyle d) (font d) (globalAlpha d) v (textBaseline d).

Definition upd_textBaseline (v : string) (d : DrawState) : DrawState :=
  mkDrawState (fillStyle d) (font d) (globalAlpha d)
              (globalCompositeOperation d) v.

(** The property assignments [ctx.fillStyle = v], [ctx.font = v], ... *)
Definition set_fillStyle (v : string) : M Ctx unit :=
  with_props (upd_fillStyle v).

Definition set_font (v : Font) : M Ctx unit := with_props (upd_font v).

Definition set_globalAlpha (v : Q) : M Ctx unit :=
  with_props (upd_globalAlpha v).

Definition set_globalCompositeOperation (v : string) : M Ctx unit :=
  with_props (upd_globalCompositeOperation v).

Definition set_textBaseline (v : string) : M Ctx unit :=
  with_props (upd_textBaseline v).

Definition save : M Ctx unit :=
  fun ctx =>
    (Returned tt, mkCtx (props ctx) (props ctx :: saved ctx) (calls ctx ++ [Save])).

Definition restore : M Ctx unit :=
  fun ctx =>
    match saved ctx with
    | d :: rest => (Returned tt, mkCtx d rest (calls ctx ++ [Restore]))
    | [] => (Returned tt, record_call Restore ctx)
    end.

Definition fillRect (x y w h : Q) : M Ctx unit :=
  fun ctx => (Returned tt, record_call (FillRect x y w h (props ctx)) ctx).

Definition fillText (text : string) (x y : Q) : M Ctx unit :=
  fun ctx => (Returned tt, record_call (FillText text x y (props ctx)) ctx).

(** The browser. *)
Record Host : Type := mkHost {
  (** [measureText(text).width] under a given font. *)
  text_width : Font -> string -> Q;
  (** The exception [drawImage] raises for an image it cannot use. *)
  image_error : Image -> option string;
  (** [canvas.toDataURL('image/png')] for what has been drawn. *)
  data_url : list Call -> Outcome string
}.

Section Canvas.

Variable host : Host.

Definition drawImage (im : Image) (x y w h : Q) : M Ctx unit :=
  fun ctx =>
    match image_error host im with
    | Some e => (Thrown e, ctx)
    | None => (Returned tt, record_call (DrawImage im x y w h (props ctx)) ctx)
    end.

(** [ctx.measureText(text).width]. *)
Definition measureText (text : string) : M Ctx Q :=
  fun ctx =>
    (Returned (text_width host (font (props ctx)) text),
     record_call (MeasureText text (font (props ctx))) ctx).

(* ------------------------------------------------------------------ *)
(** ** Tracking engine *)

(** [measureWithTrackingForContext(renderCtx, text, letter)]. *)
Definition measureWithTrackingForContext (text : string) (letter : Q)
  : M Ctx Q :=
  if falsy letter then measureText text
  else
    m <- measureText text ;;
    ret (m + letter
             * Math_max 0 (inject_Z (Z.of_nat (String.length text)) - 1)).

(** The loop of [drawTrackedTextForContext] over the characters of the
    text still to draw. *)
Fixpoint drawTracked_chars (text : string) (x y letter : Q) : M Ctx unit :=
  match text with
  | EmptyString => ret tt
  | String ch rest =>
      fillText (String ch EmptyString) x y ;;
      m <- measureText (String ch EmptyString) ;;
      drawTracked_chars rest (x + (m + letter)) y letter
  end.

(** [drawTrackedTextForContext(renderCtx, text, x, y, letter)]. *)
Definition drawTrackedTextForContext (text : string) (x y letter : Q)
  : M Ctx unit :=
  if falsy letter then fillText text x y
  else drawTracked_chars text x y letter.

(* ------------------------------------------------------------------ *)
(** ** Fit solver *)

(** The object argument of [fitTextForContext]; the properties with a
    default in the parameter list may be left out. *)
Record FitArgs : Type := mkFitArgs {
  fit_text : string;
  fit_maxWidth : Q;
  fit_maxSize : Q;
  fit_minSize : option Q;
  fit_family : string;
  fit_weight : option string;
  fit_letter : option Q
}.

Record FitResult : Type := mkFitResult {
  size : Q;
  width : Q
}.

Definition default {A} (d : A) (o : option A) : A :=
  match o with Some a => a | None => d end.

(** The [while] loop of [fitTextForContext], entered with the current
    [size] and the width [w] measured at it, in exact arithmetic, as
    the blocks of the compositor run it.  [fit_loop64] below is the loop
    on doubles, which need not end. *)
Equations fit_loop (text : string) (maxWidth minSize : Q) (family weight : string)
    (letter : Q) (size w : Q) : M Ctx FitResult
    by wf (fit_steps size minSize) lt :=
  fit_loop text maxWidth minSize family weight letter size w
    with Sumbool.sumbool_of_bool (Qgtb w maxWidth && Qgtb size minSize) := {
    | left _ :=
        set_font (mkFont weight (size - 2) family) ;;
        w' <- measureWithTrackingForContext text letter ;;
        fit_loop text maxWidth minSize family weight letter (size - 2) w'
    | right _ := ret (mkFitResult size w) }.
Next Obligation.
  apply fit_steps_decrease. apply Qgtb_true.
  match goal with e : (_ && _)%bool = true |- _ => apply andb_prop in e; apply e end.
Qed.

(** [fitTextForContext(renderCtx, {text, maxWidth, maxSize, minSize=24,
    family, weight='900', letter=0})]. *)
Definition fitTextForContext (a : FitArgs) : M Ctx FitResult :=
  let minSize := default 24 (fit_minSize a) in
  let weight := default "900" (fit_weight a) in
  let letter := default 0 (fit_letter a) in
  let size := fit_maxSize a in
  set_font (mkFont weight size (fit_family a)) ;;
  w <- measureWithTrackingForContext (fit_text a) letter ;;
  fit_loop (fit_text a) (fit_maxWidth a) minSize (fit_family a) weight letter
           size w.

(** [fitText]: the same code on the live context [ctx]. *)
Definition fitText (a : FitArgs) : M Ctx FitResult := fitTextForContext a.

(** [measureWithTracking]: the same code on the live context [ctx]. *)
Definition measureWithTracking (text : string) (letter : Q) : M Ctx Q :=
  measureWithTrackingForContext text letter.

(* ------------------------------------------------------------------ *)
(** ** Fit solver in binary64 arithmetic *)

(** [measureWithTrackingForContext] with the operations of the source
    rounded to binary64. *)
Definition measureWithTrackingForContext64 (text : string) (letter : Q)
  : M Ctx Q :=
  if falsy letter then measureText text
  else
    m <- measureText text ;;
    ret (fadd m
           (fmul letter
              (Math_max 0
                 (fsub (inject_Z (Z.of_nat (String.length text))) 1)))).

(** The [while] loop of [fitTextForContext] with [size -= 2] in binary64.
    The subtraction can leave a large [size] as it is, so the loop need
    not end: [fuel] bounds the number of turns, and [None] is a run that
    needs more. *)
Fixpoint fit_loop64 (fuel : nat) (text : string) (maxWidth minSize : Q)
    (family weight : string) (letter : Q) (size w : Q) (ctx : Ctx)
  : option (Outcome FitResult * Ctx) :=
  if Qgtb w maxWidth && Qgtb size minSize then
    match fuel with
    | O => None
    | S fuel =>
        let size := fsub size 2 in
        match (set_font (mkFont weight size family) ;;
               measureWithTrackingForContext64 text letter) ctx with
        | (Returned w, ctx) =>
            fit_loop64 fuel text maxWidth minSize family weight letter
                       size w ctx
        | (Thrown e, ctx) => Some (Thrown e, ctx)
        end
    end
  else Some (Returned (mkFitResult size w), ctx).

(** [fitTextForContext] in binary64 arithmetic. *)
Definition fitTextForContext64 (fuel : nat) (a : FitArgs) (ctx : Ctx)
  : option (Outcome FitResult * Ctx) :=
  let minSize := default 24 (fit_minSize a) in
  let weight := default "900" (fit_weight a) in
  let letter := default 0 (fit_letter a) in
  let size := fit_maxSize a in
  match (set_font (mkFont weight size (fit_family a)) ;;
         measureWithTrackingForContext64 (fit_text a) letter) ctx with
  | (Returned w, ctx) =>
      fit_loop64 fuel (fit_text a) (fit_maxWidth a) minSize (fit_family a)
                 weight letter size w ctx
  | (Thrown e, ctx) => Some (Thrown e, ctx)
  end.

(** [fitText]: the same code on the live context [ctx]. *)
Definition fitText64 (fuel : nat) (a : FitArgs) (ctx : Ctx)
  : option (Outcome FitResult * Ctx) :=
  fitTextForContext64 fuel a ctx.

(* ------------------------------------------------------------------ *)
(** ** Render state, fields and targets *)

(** The module-level [state] object. *)
Record RenderState : Type := mkRenderState {
  img : option Image;
  logo : option Image;
  titleFont : string;
  bodyFont : string;
  nativeWidth : Z;
  nativeHeight : Z;
  scale : Q
}.

(** [state.scale = v]. *)
Definition set_scale (v : Q) (st : RenderState) : RenderState :=
  mkRenderState (img st) (logo st) (titleFont st) (bodyFont st)
                (nativeWidth st) (nativeHeight st) v.

(** The values of the input elements, [el(id).value]. *)
Record Fields : Type := mkFields {
  tint : string;
  title1 : string;
  title2 : string;
  subtitle : string;
  author : string
}.

(** A canvas element: its pixel dimensions. *)
Record Canvas : Type := mkCanvas {
  canvas_width : Z;
  canvas_height : Z
}.

(** [a || b] on strings. *)
Definition or_else (a b : string) : string := if truthy a then a else b.

(* ------------------------------------------------------------------ *)
(** ** Layout compositor: the blocks of [renderToContext] *)

(** Always white text. *)
Definition ink : string := "#ffffff".

(** "BACKGROUND TINT", the image and the tint wash. *)
Definition drawBackground (state : RenderState) (tint : string) (W H : Q)
  : M Ctx unit :=
  let tintStrength := 3 # 10 in
  let imgOpacity := 8 # 10 in
  let blend := "multiply" in
  save ;;
  set_fillStyle tint ;;
  fillRect 0 0 W H ;;
  match img state with
  | Some im =>
      set_globalAlpha imgOpacity ;;
      set_globalCompositeOperation blend ;;
      drawImage im 0 0 W H ;;
      set_globalAlpha 1 ;;
      set_globalCompositeOperation "source-over"
  | None => ret tt
  end ;;
  set_globalAlpha tintStrength ;;
  set_fillStyle tint ;;
  fillRect 0 0 W H ;;
  set_globalAlpha 1.

(** "Title 1": returns the cursor [y] after the block. *)
Definition drawTitle1 (title1 titleFamily : string)
    (colX colW titleMax track scale y : Q) : M Ctx Q :=
  if truthy title1 then
    f1 <- fitTextForContext
            (mkFitArgs title1 colW titleMax None titleFamily (Some "900")
                       (Some track)) ;;
    set_font (mkFont "900" (size f1) titleFamily) ;;
    set_textBaseline "top" ;;
    drawTrackedTextForContext title1 colX y track ;;
    ret (y + (size f1 * (95 # 100) + 8 * scale))
  else ret y.

(** "Title 2 (extra large)".  The two size bounds of this fit decide
    where the loop starts and stops, so they are taken in binary64:
    [titleMax] is the double that [nativeTitleMax * scale] gave, and its
    product by 3 is rounded again before [Math.round]. *)
Definition drawTitle2 (title2 titleFamily : string)
    (colX colW titleMax track scale y : Q) : M Ctx Q :=
  if truthy title2 then
    let titleMax := round64 titleMax in
    f2 <- fitTextForContext
            (mkFitArgs title2 colW (inject_Z (Math_round (fmul titleMax 3)))
                       (Some titleMax) titleFamily (Some "900") (Some track)) ;;
    set_font (mkFont "900" (size f2) titleFamily) ;;
    set_textBaseline "top" ;;
    drawTrackedTextForContext title2 colX y track ;;
    ret (y + (size f2 * (9 # 10) + 18 * scale))
  else ret y.

(** "Subtitle". *)
Definition drawSubtitle (sub bodyFamily : string) (colX colW scale y : Q)
  : M Ctx Q :=
  if truthy sub then
    let nativeBaseSize := 120 in
    let nativeMinSize := 40 in
    let baseSize := nativeBaseSize * scale in
    let minSize := nativeMinSize * scale in
    subFit <- fitTextForContext
                (mkFitArgs sub colW baseSize (Some minSize) bodyFamily
                           (Some "normal") (Some 0)) ;;
    set_font (mkFont "normal" (size subFit) bodyFamily) ;;
    match colorLuminance ink (- (6 # 100)) with
    | Returned c => set_fillStyle c
    | Thrown e => throw e
    end ;;
    set_textBaseline "alphabetic" ;;
    let y := y + 48 * scale in
    fillText sub colX y ;;
    ret (y + (size subFit + 32 * scale))
  else ret y.

(** "Author (halfway down, right-justified)". *)
Definition drawAuthor (author bodyFamily : string) (W H pad scale : Q)
  : M Ctx unit :=
  if truthy author then
    let nativeAuthorSize := 175 in
    let authorSize := nativeAuthorSize * scale in
    let text := author in
    set_font (mkFont "normal" authorSize bodyFamily) ;;
    set_fillStyle ink ;;
    set_textBaseline "alphabetic" ;;
    let ay := H / 2 in
    textWidth <- measureText text ;;
    let ax := W - pad - textWidth in
    fillText text ax ay
  else ret tt.

(** "Logo (bottom-right)". *)
Definition drawLogo (state : RenderState) (W H scale : Q) : M Ctx unit :=
  match logo state with
  | Some lg =>
      let logoScale := 1 in
      let nativeMargin := 75 in
      let margin := nativeMargin * scale in
      let lw := inject_Z (image_width lg) * logoScale * scale in
      let lh := inject_Z (image_height lg) * logoScale * scale in
      let lx := W - margin - lw in
      let ly := H - margin - lh in
      drawImage lg lx ly lw lh
  | None => ret tt
  end.

(** The guard of [renderToContext] against invalid dimensions. *)
Definition invalid_dimensions (W H nativeW nativeH : Z) (scale : Q) : bool :=
  (W <=? 0)%Z || (H <=? 0)%Z || (nativeW <=? 0)%Z || (nativeH <=? 0)%Z
  || Qleb scale 0.

(** [renderToContext(renderCtx, targetCanvas)]; the context is the store
    of the computation. *)
Definition renderToContext (state : RenderState) (fields : Fields)
    (targetCanvas : Canvas) : M Ctx unit :=
  let nativeW := nativeWidth state in
  let nativeH := nativeHeight state in
  let scale := scale state in
  let W := canvas_width targetCanvas in
  let H := canvas_height targetCanvas in
  if invalid_dimensions W H nativeW nativeH scale then ret tt
  else
    let tint := tint fields in
    drawBackground state tint (inject_Z W) (inject_Z H) ;;
    let nativePad := Math_round (inject_Z nativeW * (8 # 100)) in
    let pad := inject_Z nativePad * scale in
    let colX := pad in
    let colW := (inject_Z nativeW - inject_Z nativePad * 2) * scale in
    let title1 := trim (title1 fields) in
    let title2 := trim (title2 fields) in
    let nativeTitleMax := 260 in
    let titleMax := nativeTitleMax * scale in
    let track := - (2) * scale in
    let titleFamily := or_else (titleFont state) "TrueNo-Black" in
    let bodyFamily := or_else (bodyFont state) "TrueNo-Book" in
    let y := pad + 20 * scale in
    set_fillStyle ink ;;
    y <- drawTitle1 title1 titleFamily colX colW titleMax track scale y ;;
    y <- drawTitle2 title2 titleFamily colX colW titleMax track scale y ;;
    let sub := trim (subtitle fields) in
    y <- drawSubtitle sub bodyFamily colX colW scale y ;;
    let author := trim (author fields) in
    drawAuthor author bodyFamily (inject_Z W) (inject_Z H) pad scale ;;
    drawLogo state (inject_Z W) (inject_Z H) scale ;;
    restore.

(** [render()]: the compositor on the live canvas. *)
Definition render (state : RenderState) (fields : Fields) (canvas : Canvas)
  : M Ctx unit :=
  renderToContext state fields canvas.

(* ------------------------------------------------------------------ *)
(** ** Export at native resolution *)

(** Runs a computation on a context of its own and keeps the store. *)
Definition on_context {S A} (ctx : Ctx) (m : M Ctx A) : M S (A * Ctx) :=
  fun s =>
    match m ctx with
    | (Returned a, ctx') => (Returned (a, ctx'), s)
    | (Thrown e, _) => (Thrown e, s)
    end.

(** [exportCanvas.toDataURL('image/png')]. *)
Definition toDataURL {S} (ctx : Ctx) : M S string :=
  fun s => (data_url host (calls ctx), s).

(** The body of the [try] in [exportAtNativeResolution]: the scale is
    overridden with the native scale 1, the compositor runs on the export
    context and the data URL is returned. *)
Definition export_attempt (fields : Fields) (exportCanvas : Canvas)
    (exportCtx : Ctx) : M RenderState (option string) :=
  fun state =>
    let state := set_scale 1 state in
    (r <- on_context exportCtx (renderToContext state fields exportCanvas) ;;
     url <- toDataURL (snd r) ;;
     ret (Some url)) state.

(** [exportAtNativeResolution()]; the store is the [state] object. *)
Definition exportAtNativeResolution (fields : Fields)
  : M RenderState (option string) :=
  fun state =>
    if (nativeWidth state =? 0)%Z || (nativeHeight state =? 0)%Z
    then (Returned None, state)
    else
      let exportCanvas := mkCanvas (nativeWidth state) (nativeHeight state) in
      let exportCtx := new_context in
      let originalScale := scale state in
      try_finally (export_attempt fields exportCanvas exportCtx)
                  (set_scale originalScale)
                  state.

End Canvas.

(* ------------------------------------------------------------------ *)
(** ** The specification's formulas *)

Module Spec.

(** "if [letter] is 0, return the plain measured width; otherwise return
    [measure(text) + letter * max(0, length(text) - 1)]". *)
Definition measureTracked (measure : string -> Q) (text : string) (letter : Q)
  : Q :=
  if Qeq_bool letter 0 then measure text
  else measure text
       + letter * inject_Z (Z.max 0 (Z.of_nat (String.length text) - 1)).

(** "[clamp(0,255, round(channel + channel*delta))]". *)
Definition clamp (lo hi x : Z) : Z := Z.max lo (Z.min hi x).

Definition luminance_channel (channel : Z) (delta : Q) : Z :=
  clamp 0 255 (Math_round (inject_Z channel + inject_Z channel * delta)).

(** The same formula in the arithmetic of the source: the product and
    the sum are rounded to binary64 before [round] sees them. *)
Definition luminance_channel64 (channel : Z) (delta : Q) : Z :=
  clamp 0 255
    (Math_round (fadd (inject_Z channel) (fmul (inject_Z channel) delta))).

(** Two hexadecimal digits, zero-padded, for a value in [0, 255]. *)
Definition hex2 (v : Z) : string :=
  String (hex_char (v / 16)) (String (hex_char (v mod 16)) EmptyString).

End Spec.

(* ------------------------------------------------------------------ *)
(** ** Observations on a list of calls *)

Definition is_measure (c : Call) : bool :=
  match c with MeasureText _ _ => true | _ => false end.

Definition is_fill_text (c : Call) : bool :=
  match c with FillText _ _ _ _ => true | _ => false end.

(** The text and the fill colour of every [fillText] call, in order. *)
Fixpoint fill_texts (l : list Call) : list (string * string) :=
  match l with
  | [] => []
  | FillText t _ _ ds :: r => (t, fillStyle ds) :: fill_texts r
  | _ :: r => fill_texts r
  end.


(** The width [measureWithTrackingForContext] answers under a font. *)
Definition tracked_width (host : Host) (f : Font) (text : string) (letter : Q)
  : Q :=
  if falsy letter then text_width host f text
  else text_width host f text
       + letter * Math_max 0 (inject_Z (Z.of_nat (String.length text)) - 1).

(** The width [measureWithTrackingForContext64] answers under a font. *)
Definition tracked_width64 (host : Host) (f : Font) (text : string)
    (letter : Q) : Q :=
  if falsy letter then text_width host f text
  else fadd (text_width host f text)
            (fmul letter
               (Math_max 0
                  (fsub (inject_Z (Z.of_nat (String.length text))) 1))).

(** The size after [j] turns of the binary64 loop from [s]. *)
Definition steps_down64 (j : nat) (s : Q) : Q :=
  Nat.iter j (fun x => fsub x 2) s.

(* ------------------------------------------------------------------ *)
(** ** Facts about computations *)

Lemma bind_returned {S A B} (m : M S A) (k : A -> M S B) (s s' : S) (b : B) :
  bind m k s = (Returned b, s') ->
  exists a s1, m s = (Returned a, s1) /\ k a s1 = (Returned b, s').
Proof.
  unfold bind. destruct (m s) as [[a | e] s1]; intro H.
  - exists a, s1. split; [reflexivity | exact H].
  - discriminate H.
Qed.

Lemma bind_run {S A B} (m : M S A) (k : A -> M S B) (s s1 : S) (a : A) :
  m s = (Returned a, s1) -> bind m k s = k a s1.
Proof. intro H. unfold bind. rewrite H. reflexivity. Qed.

Section FitFacts.

Variable host : Host.

Lemma measureWithTracking_run (text : string) (letter : Q) (c : Ctx) :
  measureWithTrackingForContext host text letter c
  = (Returned (tracked_width host (font (props c)) text letter),
     record_call (MeasureText text (font (props c))) c).
Proof.
  unfold measureWithTrackingForContext, tracked_width.
  destruct (falsy letter); reflexivity.
Qed.

(** One turn of the [while] loop. *)
Lemma fit_loop_turn (text : string) (maxWidth minSize : Q)
    (family weight : string) (letter size0 w : Q) :
  fit_loop host text maxWidth minSize family weight letter size0 w
  = if Qgtb w maxWidth && Qgtb size0 minSize
    then set_font (mkFont weight (size0 - 2) family) ;;
         w' <- measureWithTrackingForContext host text letter ;;
         fit_loop host text maxWidth minSize family weight letter
                  (size0 - 2) w'
    else ret (mkFitResult size0 w).
Proof.
  simp fit_loop.
  destruct (Sumbool.sumbool_of_bool (Qgtb w maxWidth && Qgtb size0 minSize))
    as [E | E]; cbn [fit_loop_unfold_clause_1];
    generalize E; intro E'; rewrite E'; reflexivity.
Qed.

(** What a run of the loop establishes, from the size [size0] and the
    context [c] it is entered with: it returns after [k] turns, [k] at
    most the variant; each turn lowers the size by 2 and issues one
    measurement; on exit the loop condition is false, and the result width
    is the one measured at the result size. *)
Definition fit_loop_post (text : string) (maxWidth minSize : Q)
    (family weight : string) (letter size0 : Q) (c : Ctx)
    (out : Outcome FitResult * Ctx) : Prop :=
    exists (r : FitResult) (c' : Ctx) (k : nat) (l : list Call),
      out = (Returned r, c')
      /\ (k <= fit_steps size0 minSize)%nat
      /\ size r == size0 - 2 * inject_Z (Z.of_nat k)
      /\ (k = 0%nat -> size r = size0)
      /\ (k <> 0%nat -> minSize - 2 < size r)
      /\ calls c' = (calls c ++ l)%list
      /\ List.length l = k
      /\ Forall (fun x => is_measure x = true) l
      /\ saved c' = saved c
      /\ props c' = upd_font (mkFont weight (size r) family) (props c)
      /\ width r = tracked_width host (mkFont weight (size r) family) text letter
      /\ Qgtb (width r) maxWidth && Qgtb (size r) minSize = false
      /\ (forall j : nat,
             size0 == minSize + 2 * inject_Z (Z.of_nat j) -> minSize <= size r)
      /\ (tracked_width host (mkFont weight size0 family) text letter
          <= maxWidth -> k = 0%nat).

Lemma fit_loop_exit (text : string) (maxWidth minSize : Q)
    (family weight : string) (letter size0 w : Q) (c : Ctx) :
  font (props c) = mkFont weight size0 family ->
  w = tracked_width host (mkFont weight size0 family) text letter ->
  Qgtb w maxWidth && Qgtb size0 minSize = false ->
  fit_loop_post text maxWidth minSize family weight letter size0 c
                (Returned (mkFitResult size0 w), c).
Proof.
  intros Hf Hw E.
  exists (mkFitResult size0 w), c, 0%nat, []. cbn [size width].
  repeat split; try reflexivity.
  + lia.
  + change (inject_Z (Z.of_nat 0)) with 0. ring.
  + congruence.
  + rewrite app_nil_r. reflexivity.
  + constructor.
  + rewrite <- Hf. destruct c as [[? ? ? ? ?] ? ?]. reflexivity.
  + exact Hw.
  + exact E.
  + intros j Hj.
    pose proof (Zle_0_nat j) as P. rewrite Zle_Qle in P.
    change (inject_Z 0) with 0 in P. lra.
Qed.

Lemma fit_loop_spec (text : string) (maxWidth minSize : Q)
    (family weight : string) (letter : Q) :
  forall (n : nat) (size0 w : Q) (c : Ctx),
    (fit_steps size0 minSize <= n)%nat ->
    font (props c) = mkFont weight size0 family ->
    w = tracked_width host (mkFont weight size0 family) text letter ->
    fit_loop_post text maxWidth minSize family weight letter size0 c
      (fit_loop host text maxWidth minSize family weight letter size0 w c).
Proof.
  induction n as [| n IH]; intros size0 w c Hn Hf Hw;
    rewrite fit_loop_turn;
    destruct (Qgtb w maxWidth && Qgtb size0 minSize) eqn:E;
    try (apply fit_loop_exit; assumption).
  - apply andb_prop in E. destruct E as [_ E]. apply Qgtb_true in E.
    pose proof (fit_steps_decrease _ _ E). lia.
  - apply andb_prop in E. destruct E as [E1 E].
    apply Qgtb_true in E1. apply Qgtb_true in E.
    pose proof (fit_steps_decrease _ _ E) as D.
    set (c1 := mkCtx (upd_font (mkFont weight (size0 - 2) family) (props c))
                     (saved c) (calls c)).
    set (c2 := record_call (MeasureText text (mkFont weight (size0 - 2) family)) c1).
    destruct (IH (size0 - 2)
                 (tracked_width host (mkFont weight (size0 - 2) family) text letter)
                 c2)
      as (r & c' & k & l & Hrun & Hk & Hsz & Hk0 & Hkn & Hcalls & Hlen & Hall
          & Hsaved & Hprops & Hwidth & Hexit & Hfloor & _);
      [lia | reflexivity | reflexivity |].
    exists r, c', (S k), (MeasureText text (mkFont weight (size0 - 2) family) :: l).
    split.
    { unfold bind at 1. cbn [set_font with_props]. fold c1.
      unfold bind at 1. rewrite measureWithTracking_run. exact Hrun. }
    split; [lia |].
    split.
    { rewrite Hsz. rewrite Nat2Z.inj_succ. unfold Z.succ.
      rewrite inject_Z_succ. ring. }
    split; [intro Z0; discriminate Z0 |].
    split.
    { intros _. destruct k as [| k'].
      - rewrite (Hk0 eq_refl). lra.
      - apply Hkn. discriminate. }
    split.
    { rewrite Hcalls. unfold c2, c1, record_call. cbn [calls].
      rewrite <- app_assoc. reflexivity. }
    split; [cbn [List.length]; rewrite Hlen; reflexivity |].
    split; [constructor; [reflexivity | exact Hall] |].
    split; [rewrite Hsaved; reflexivity |].
    split; [rewrite Hprops; reflexivity |].
    split; [exact Hwidth |].
    split; [exact Hexit |].
    split.
    { intros j Hj. destruct j as [| j'].
      + change (inject_Z (Z.of_nat 0)) with 0 in Hj. lra.
      + apply (Hfloor j'). rewrite Hj. rewrite Nat2Z.inj_succ. unfold Z.succ.
        rewrite inject_Z_succ. ring. }
    intro Hfit. rewrite <- Hw in Hfit. lra.
Qed.

End FitFacts.

Section FitSolver.

Variable host : Host.

(** The parameters of a call after the defaults have been applied. *)
Definition minSize_of (a : FitArgs) : Q := default 24 (fit_minSize a).
Definition weight_of (a : FitArgs) : string := default "900" (fit_weight a).
Definition letter_of (a : FitArgs) : Q := default 0 (fit_letter a).
Definition font_at (a : FitArgs) (s : Q) : Font :=
  mkFont (weight_of a) s (fit_family a).

(** What [fitTextForContext] does on every input. *)
Lemma fitTextForContext_spec (a : FitArgs) (c : Ctx) :
  exists (r : FitResult) (c' : Ctx) (k : nat) (l : list Call),
    fitTextForContext host a c = (Returned r, c')
    /\ (k <= fit_steps (fit_maxSize a) (minSize_of a))%nat
    /\ size r == fit_maxSize a - 2 * inject_Z (Z.of_nat k)
    /\ (k = 0%nat -> size r = fit_maxSize a)
    /\ (k <> 0%nat -> minSize_of a - 2 < size r)
    /\ calls c'
       = (calls c
          ++ MeasureText (fit_text a) (font_at a (fit_maxSize a)) :: l)%list
    /\ List.length l = k
    /\ Forall (fun x => is_measure x = true) l
    /\ saved c' = saved c
    /\ props c' = upd_font (font_at a (size r)) (props c)
    /\ width r
       = tracked_width host (font_at a (size r)) (fit_text a) (letter_of a)
    /\ Qgtb (width r) (fit_maxWidth a) && Qgtb (size r) (minSize_of a) = false
    /\ (forall j : nat,
           fit_maxSize a == minSize_of a + 2 * inject_Z (Z.of_nat j) ->
           minSize_of a <= size r)
    /\ (tracked_width host (font_at a (fit_maxSize a)) (fit_text a)
                      (letter_of a) <= fit_maxWidth a -> k = 0%nat).
Proof.
  unfold fitTextForContext, font_at.
  fold (minSize_of a) (weight_of a) (letter_of a).
  set (f0 := mkFont (weight_of a) (fit_maxSize a) (fit_family a)).
  set (c1 := mkCtx (upd_font f0 (props c)) (saved c) (calls c)).
  set (c2 := record_call (MeasureText (fit_text a) f0) c1).
  destruct (fit_loop_spec host (fit_text a) (fit_maxWidth a) (minSize_of a)
              (fit_family a) (weight_of a) (letter_of a)
              (fit_steps (fit_maxSize a) (minSize_of a)) (fit_maxSize a)
              (tracked_width host f0 (fit_text a) (letter_of a)) c2)
    as (r & c' & k & l & Hrun & Hk & Hsz & Hk0 & Hkn & Hcalls & Hlen & Hall
        & Hsaved & Hprops & Hwidth & Hexit & Hfloor & Hfit);
    [lia | reflexivity | reflexivity |].
  exists r, c', k, l.
  split.
  { unfold bind at 1. cbn [set_font with_props]. fold c1.
    unfold bind at 1. rewrite measureWithTracking_run. exact Hrun. }
  split; [exact Hk |]. split; [exact Hsz |]. split; [exact Hk0 |].
  split; [exact Hkn |].
  split.
  { rewrite Hcalls. unfold c2, c1, record_call. cbn [calls].
    rewrite <- app_assoc. reflexivity. }
  split; [exact Hlen |]. split; [exact Hall |]. split; [exact Hsaved |].
  split; [rewrite Hprops; reflexivity |].
  split; [exact Hwidth |]. split; [exact Hexit |]. split; [exact Hfloor |].
  exact Hfit.
Qed.

End FitSolver.

(* ------------------------------------------------------------------ *)
(** ** Concrete hosts and inputs for the examples *)

Module Demo.

(** Every glyph is as wide as the font size; no image is rejected. *)
Definition host : Host :=
  mkHost (fun f t => font_size f * inject_Z (Z.of_nat (String.length t)))
         (fun _ => None)
         (fun _ => Returned "data:image/png;base64,").

(** A host whose font kerns: a pair of glyphs is narrower than the two
    glyphs measured one by one. *)
Definition kerning_host : Host :=
  mkHost (fun f t => if (String.length t =? 2)%nat then 15
                     else 10 * inject_Z (Z.of_nat (String.length t)))
         (fun _ => None)
         (fun _ => Returned "data:image/png;base64,").

(** A host that rejects every image. *)
Definition broken_image_host : Host :=
  mkHost (fun f t => font_size f * inject_Z (Z.of_nat (String.length t)))
         (fun _ => Some "InvalidStateError")
         (fun _ => Returned "data:image/png;base64,").

(** A host whose canvas cannot be read back. *)
Definition tainted_host : Host :=
  mkHost (fun f t => font_size f * inject_Z (Z.of_nat (String.length t)))
         (fun _ => None)
         (fun _ => Thrown "SecurityError").

(** The call of the "Title 1" block at scale 1/16: [maxSize] is
    [260 * scale = 16.25] and [minSize] is left to its default, 24. *)
Definition title1_small : FitArgs :=
  mkFitArgs "Perl" 84 (65 # 4) None "TrueNo-Black" (Some "900")
            (Some (- (1 # 8))).

(** A text too wide at 27 pixels, with the default floor of 24. *)
Definition odd_gap : FitArgs :=
  mkFitArgs "hello" 100 27 None "TrueNo-Black" None None.

(** A text that fits at the maximum size. *)
Definition fits_at_max : FitArgs :=
  mkFitArgs "Perl" 2000 260 (Some 24) "TrueNo-Black" (Some "900")
            (Some (- (2))).

(** A text that overflows the box at every size down to the floor. *)
Definition never_fits : FitArgs :=
  mkFitArgs "Supercalifragilistic" 100 30 (Some 24) "TrueNo-Black" None None.

(** A state without images: native size 1600 x 2560 shown 250 pixels wide,
    so the scale is 250 / 1600 = 5/32. *)
Definition state : RenderState :=
  mkRenderState None None "TrueNo-Black" "TrueNo-Regular" 1600 2560 (5 # 32).

(** The same with a background image and a logo. *)
Definition pearl : Image := mkImage "img/pearl.jpg" 1600 2560.
Definition logo_image : Image := mkImage "img/logo.png" 400 200.

Definition state_with_images : RenderState :=
  mkRenderState (Some pearl) (Some logo_image) "TrueNo-Black" "TrueNo-Regular"
                1600 2560 (5 # 32).

Definition canvas : Canvas := mkCanvas 250 400.



(** A red tint and a subtitle only. *)
Definition red_subtitle : Fields :=
  mkFields "#ff0000" "" "" "Second Edition" "".


(** All four text fields filled in. *)
Definition full_cover : Fields :=
  mkFields "#336699" " Perl " "Taster" "Second Edition" "Dave Cross".

(** A page in which no field holds text. *)
Definition blank : Fields := mkFields "#336699" "" "  " " " "".

End Demo.

(* ------------------------------------------------------------------ *)
(** ** The fit solver: where the bounds fail *)

(** The bounds and the termination of the solver are proved of the loop on
    doubles, in the section "The fit solver in binary64 arithmetic". *)

(** C1, as the specification states it, fails: on the call the "Title 1"
    block makes at scale 1/16 the maximum size, 16.25, is below the default
    minimum size, 24, and the solver returns 16.25, in exact and in
    binary64 arithmetic alike. *)
Lemma fit_below_minSize :
  exists (r : FitResult) (c' : Ctx),
    fitTextForContext Demo.host Demo.title1_small new_context
    = (Returned r, c')
    /\ size r == 65 # 4
    /\ minSize_of Demo.title1_small == 24
    /\ ~ (minSize_of Demo.title1_small <= size r)
    /\ exists (r64 : FitResult) (c64 : Ctx),
         fitTextForContext64 Demo.host 0 Demo.title1_small new_context
         = Some (Returned r64, c64)
         /\ size r64 == 65 # 4.
Proof.
  eexists. eexists. split; [vm_compute; reflexivity |].
  split; [vm_compute; reflexivity |].
  split; [vm_compute; reflexivity |].
  split; [vm_compute; intro H; apply H; reflexivity |].
  eexists. eexists. split; vm_compute; reflexivity.
Qed.

(** The loop also steps over the floor when the gap between the two sizes
    is not a whole number of steps: from 27 with the floor at 24 it
    returns 23. *)
Example fit_steps_over_floor :
  exists (r : FitResult) (c' : Ctx),
    fitTextForContext Demo.host Demo.odd_gap new_context = (Returned r, c')
    /\ size r == 23
    /\ minSize_of Demo.odd_gap == 24.
Proof.
  eexists. eexists. split; [vm_compute; reflexivity |].
  split; vm_compute; reflexivity.
Qed.

(* ------------------------------------------------------------------ *)
(** ** The tracking engine *)

(** The widths of the glyphs measured one by one, with the tracking after
    each: what [drawTrackedTextForContext] advances by. *)
Fixpoint glyph_sum (host : Host) (f : Font) (text : string) (letter : Q) : Q :=
  match text with
  | EmptyString => 0
  | String ch rest =>
      text_width host f (String ch EmptyString) + letter
      + glyph_sum host f rest letter
  end.

Lemma Math_max_0_pred_length (text : string) :
  Math_max 0 (inject_Z (Z.of_nat (String.length text)) - 1)
  == inject_Z (Z.max 0 (Z.of_nat (String.length text) - 1)).
Proof.
  generalize (Z.of_nat (String.length text)). intro z.
  pose proof (inject_Z_pred z) as P.
  destruct (Math_max_spec 0 (inject_Z z - 1)) as [[L E] | [L E]]; rewrite E.
  - assert (L' : (0 <= z - 1)%Z)
      by (apply inject_Z_le_inv; change (inject_Z 0) with 0; lra).
    rewrite Z.max_r by exact L'. rewrite P. reflexivity.
  - assert (L' : (z - 1 < 0)%Z)
      by (apply inject_Z_lt_inv; change (inject_Z 0) with 0; lra).
    rewrite Z.max_l by lia. reflexivity.
Qed.

(** C3.  The tracked-width measurement issues one [measureText] call on
    the whole string and returns: for [letter] zero, that width itself;
    otherwise that width plus [letter * max(0, length(text) - 1)].  In both
    cases this is the specification's formula, and it is not the sum of
    the glyph widths: a kerning font tells them apart.
    [measureWithTracking] is the same code on the live context. *)
Theorem measureTracked_formula :
  (forall (host : Host) (text : string) (letter : Q) (c : Ctx),
      exists w : Q,
        measureWithTrackingForContext host text letter c
        = (Returned w, record_call (MeasureText text (font (props c))) c)
        /\ measureWithTracking host text letter c
           = (Returned w, record_call (MeasureText text (font (props c))) c)
        /\ (letter == 0 -> w = text_width host (font (props c)) text)
        /\ (~ letter == 0 ->
            w == text_width host (font (props c)) text
                 + letter
                   * inject_Z (Z.max 0 (Z.of_nat (String.length text) - 1)))
        /\ w == Spec.measureTracked (text_width host (font (props c)))
                                    text letter)
  /\ (exists w : Q,
         fst (measureWithTrackingForContext Demo.kerning_host "AV" 1
                                            new_context)
         = Returned w
         /\ w == 16
         /\ glyph_sum Demo.kerning_host (font (props new_context)) "AV" 1
            == 22).
Proof.
  split.
  - intros host text letter c.
    exists (tracked_width host (font (props c)) text letter).
    split; [apply measureWithTracking_run |].
    split; [apply measureWithTracking_run |].
    unfold tracked_width, Spec.measureTracked. fold (falsy letter).
    destruct (falsy letter) eqn:F.
    + apply falsy_true in F.
      split; [reflexivity |]. split; [contradiction | reflexivity].
    + apply falsy_false in F.
      split; [contradiction |].
      split; intros; rewrite Math_max_0_pred_length; reflexivity.
  - eexists. split; [vm_compute; reflexivity |].
    split; vm_compute; reflexivity.
Qed.

Lemma measureTracked_formula_witness :
  exists w0 w2 : Q,
    fst (measureWithTrackingForContext Demo.host "Perl" 0 new_context)
    = Returned w0
    /\ w0 = 10 * 4
    /\ fst (measureWithTrackingForContext Demo.host "Perl" (- (2))
                                          new_context)
       = Returned w2
    /\ w2 == 10 * 4 + - (2) * 3.
Proof.
  destruct (proj1 measureTracked_formula Demo.host "Perl" 0 new_context)
    as (w0 & Hrun0 & _ & Hzero & _).
  destruct (proj1 measureTracked_formula Demo.host "Perl" (- (2)) new_context)
    as (w2 & Hrun2 & _ & _ & Hnonzero & _).
  exists w0, w2.
  split; [rewrite Hrun0; reflexivity |].
  split; [rewrite Hzero; [vm_compute; reflexivity | reflexivity] |].
  split; [rewrite Hrun2; reflexivity |].
  rewrite Hnonzero; [vm_compute; reflexivity | vm_compute; discriminate].
Defined.

(** C8.  For a text of at least one character the tracked width is
    monotonically non-decreasing in the tracking value, zero included. *)
Theorem measureTracked_monotone (host : Host) (text : string)
    (letter1 letter2 : Q) (c : Ctx) :
  (1 <= String.length text)%nat ->
  letter1 <= letter2 ->
  exists w1 w2 : Q,
    fst (measureWithTrackingForContext host text letter1 c) = Returned w1
    /\ fst (measureWithTrackingForContext host text letter2 c) = Returned w2
    /\ w1 <= w2.
Proof.
  intros Hlen Hle.
  exists (tracked_width host (font (props c)) text letter1),
         (tracked_width host (font (props c)) text letter2).
  rewrite !measureWithTracking_run. cbn [fst].
  split; [reflexivity |]. split; [reflexivity |].
  set (m := text_width host (font (props c)) text).
  set (g := Math_max 0 (inject_Z (Z.of_nat (String.length text)) - 1)).
  assert (G : 0 <= g).
  { unfold g.
    destruct (Math_max_spec 0 (inject_Z (Z.of_nat (String.length text)) - 1))
      as [[L E] | [L E]]; rewrite E; lra. }
  assert (T : forall l : Q,
             tracked_width host (font (props c)) text l == m + l * g).
  { intro l. unfold tracked_width. fold m g. destruct (falsy l) eqn:F.
    - apply falsy_true in F. rewrite F. ring.
    - reflexivity. }
  rewrite (T letter1), (T letter2).
  apply Qplus_le_r. apply Qmult_le_compat_r; assumption.
Qed.

Lemma measureTracked_monotone_witness :
  exists w1 w2 : Q,
    fst (measureWithTrackingForContext Demo.host "Perl" (- (2)) new_context)
    = Returned w1
    /\ fst (measureWithTrackingForContext Demo.host "Perl" 0 new_context)
       = Returned w2
    /\ w1 <= w2.
Proof.
  apply (measureTracked_monotone Demo.host "Perl" (- (2)) 0 new_context).
  - vm_compute. lia.
  - vm_compute. discriminate.
Defined.

(* ------------------------------------------------------------------ *)
(** ** The colour helper *)

Lemma Math_round_mono (x y : Q) : x <= y -> (Math_round x <= Math_round y)%Z.
Proof. intro H. unfold Math_round. apply Qfloor_resp_le. lra. Qed.

Lemma Math_round_Z (z : Z) : Math_round (inject_Z z) = z.
Proof.
  unfold Math_round.
  pose proof (Qfloor_le (inject_Z z + (1 # 2))) as L.
  pose proof (Qlt_floor (inject_Z z + (1 # 2))) as U.
  rewrite inject_Z_succ in U.
  assert (A : (Qfloor (inject_Z z + (1 # 2)) < z + 1)%Z).
  { apply inject_Z_lt_inv. rewrite inject_Z_succ. lra. }
  assert (B : (z < Qfloor (inject_Z z + (1 # 2)) + 1)%Z).
  { apply inject_Z_lt_inv. rewrite inject_Z_succ. lra. }
  lia.
Qed.

(** Rounding after the clamp, as the source does, is clamping after the
    rounding, as the specification words it: the bounds are integers. *)
Lemma round_clamp (x : Q) :
  Math_round (Math_min (Math_max 0 x) 255) = Spec.clamp 0 255 (Math_round x).
Proof.
  unfold Spec.clamp.
  destruct (Math_max_spec 0 x) as [[L0 E0] | [L0 E0]]; rewrite E0.
  - destruct (Math_min_spec x 255) as [[L1 E1] | [L1 E1]]; rewrite E1.
    + pose proof (Math_round_mono _ _ L0) as A.
      pose proof (Math_round_mono _ _ L1) as B.
      change 0 with (inject_Z 0) in A. change 255 with (inject_Z 255) in B.
      rewrite Math_round_Z in A, B. lia.
    + assert (B : (Math_round 255 <= Math_round x)%Z)
        by (apply Math_round_mono; lra).
      change 255 with (inject_Z 255) in B |- *.
      rewrite Math_round_Z in B |- *. lia.
  - assert (A : (Math_round x <= Math_round 0)%Z)
      by (apply Math_round_mono; lra).
    change (Math_round 0) with 0%Z in A.
    change (Math_round (Math_min 0 255)) with 0%Z. lia.
Qed.

Lemma clamp_range (x : Z) : (0 <= Spec.clamp 0 255 x <= 255)%Z.
Proof. unfold Spec.clamp. lia. Qed.

(** The two digits the source prints for a channel value. *)
Lemma two_digits (v : Z) :
  (0 <= v <= 255)%Z -> slice_last2 ("00" ++ toString16 v) = Spec.hex2 v.
Proof.
  intro R.
  assert (T : forallb
                (fun n => String.eqb
                            (slice_last2 ("00" ++ toString16 (Z.of_nat n)))
                            (Spec.hex2 (Z.of_nat n)))
                (seq 0 256) = true) by (vm_compute; reflexivity).
  rewrite forallb_forall in T.
  specialize (T (Z.to_nat v)).
  rewrite Z2Nat.id in T by lia.
  apply String.eqb_eq. apply T. apply in_seq. lia.
Qed.

Lemma channel_digits_formula (c : Z) (lum : Q) :
  channel_digits (Some c) lum = Spec.hex2 (Spec.luminance_channel64 c lum).
Proof.
  unfold channel_digits, luminance_channel, Spec.luminance_channel64.
  rewrite round_clamp. apply two_digits. apply clamp_range.
Qed.

(** The value [parseInt] reads from two hexadecimal digits. *)
Definition channel_of (hi lo : ascii) : Z :=
  (hex_value hi * 16 + hex_value lo)%Z.

(** The three- and six-digit forms of a colour, with or without ["#"]. *)
Definition six_digits (d1 d2 d3 d4 d5 d6 : ascii) : string :=
  String d1 (String d2 (String d3 (String d4 (String d5
    (String d6 EmptyString))))).

Definition three_digits (d1 d2 d3 : ascii) : string :=
  String d1 (String d2 (String d3 EmptyString)).

Definition colour_form (digits hex : string) : Prop :=
  hex = String "#" digits \/ hex = digits.

Lemma strip_six (d1 d2 d3 d4 d5 d6 : ascii) (hex : string) :
  is_hex_digit d1 = true -> is_hex_digit d2 = true ->
  is_hex_digit d3 = true -> is_hex_digit d4 = true ->
  is_hex_digit d5 = true -> is_hex_digit d6 = true ->
  colour_form (six_digits d1 d2 d3 d4 d5 d6) hex ->
  strip_non_hex hex = six_digits d1 d2 d3 d4 d5 d6.
Proof.
  intros H1 H2 H3 H4 H5 H6 [-> | ->]; unfold six_digits; cbn [strip_non_hex];
    try change (is_hex_digit "#") with false; cbv iota;
    rewrite H1, H2, H3, H4, H5, H6; reflexivity.
Qed.

Lemma strip_three (d1 d2 d3 : ascii) (hex : string) :
  is_hex_digit d1 = true -> is_hex_digit d2 = true ->
  is_hex_digit d3 = true ->
  colour_form (three_digits d1 d2 d3) hex ->
  strip_non_hex hex = three_digits d1 d2 d3.
Proof.
  intros H1 H2 H3 [-> | ->]; unfold three_digits; cbn [strip_non_hex];
    try change (is_hex_digit "#") with false; cbv iota;
    rewrite H1, H2, H3; reflexivity.
Qed.

(** [colorLuminance] on a colour of six hexadecimal digits. *)
Lemma colorLuminance_six (d1 d2 d3 d4 d5 d6 : ascii) (hex : string) (lum : Q) :
  is_hex_digit d1 = true -> is_hex_digit d2 = true ->
  is_hex_digit d3 = true -> is_hex_digit d4 = true ->
  is_hex_digit d5 = true -> is_hex_digit d6 = true ->
  colour_form (six_digits d1 d2 d3 d4 d5 d6) hex ->
  colorLuminance hex lum
  = Returned ("#" ++ Spec.hex2 (Spec.luminance_channel64 (channel_of d1 d2) lum)
                  ++ Spec.hex2 (Spec.luminance_channel64 (channel_of d3 d4) lum)
                  ++ Spec.hex2 (Spec.luminance_channel64 (channel_of d5 d6) lum)).
Proof.
  intros H1 H2 H3 H4 H5 H6 Hform.
  unfold colorLuminance.
  rewrite (strip_six d1 d2 d3 d4 d5 d6 hex) by assumption.
  unfold six_digits.
  cbn [String.length Nat.ltb Nat.leb].
  unfold substr. cbn [substring parseInt16 parseInt16_from].
  rewrite H1, H2, H3, H4, H5, H6.
  rewrite !channel_digits_formula. unfold channel_of.
  reflexivity.
Qed.

(** [colorLuminance] on a colour of three hexadecimal digits: each digit
    is doubled. *)
Lemma colorLuminance_three (d1 d2 d3 : ascii) (hex : string) (lum : Q) :
  is_hex_digit d1 = true -> is_hex_digit d2 = true ->
  is_hex_digit d3 = true ->
  colour_form (three_digits d1 d2 d3) hex ->
  colorLuminance hex lum
  = Returned ("#" ++ Spec.hex2 (Spec.luminance_channel64 (channel_of d1 d1) lum)
                  ++ Spec.hex2 (Spec.luminance_channel64 (channel_of d2 d2) lum)
                  ++ Spec.hex2 (Spec.luminance_channel64 (channel_of d3 d3) lum)).
Proof.
  intros H1 H2 H3 Hform.
  unfold colorLuminance.
  rewrite (strip_three d1 d2 d3 hex) by assumption.
  unfold three_digits.
  cbn [String.length Nat.ltb Nat.leb char_at String.get js_plus to_js_string
       String.append].
  unfold substr. cbn [substring parseInt16 parseInt16_from].
  rewrite H1, H2, H3.
  rewrite !channel_digits_formula. unfold channel_of.
  reflexivity.
Qed.

Lemma Math_round_comp (x y : Q) : x == y -> Math_round x = Math_round y.
Proof. intro E. unfold Math_round. apply Qfloor_comp. rewrite E. reflexivity. Qed.

Lemma round64_inject_Z (z : Z) :
  (Z.abs z <= 2 ^ 53)%Z -> round64 (inject_Z z) == inject_Z z.
Proof. intro B. apply round64_Z; [reflexivity | exact B]. Qed.

Lemma fmul_zero_l (x : Q) : fmul (inject_Z 0) x = 0.
Proof. unfold fmul. apply round64_zero. change (inject_Z 0) with 0. ring. Qed.

Lemma fmul_zero_r (x : Q) : fmul x 0 = 0.
Proof. unfold fmul. apply round64_zero. ring. Qed.

Lemma fadd_zero_r (z : Z) :
  (Z.abs z <= 2 ^ 53)%Z -> fadd (inject_Z z) 0 == inject_Z z.
Proof. intro B. unfold fadd. apply round64_Z; [ring | exact B]. Qed.

Lemma luminance_channel_black (x : Q) : Spec.luminance_channel64 0 x = 0%Z.
Proof.
  unfold Spec.luminance_channel64. rewrite fmul_zero_l.
  rewrite (Math_round_comp _ (inject_Z 0)) by (apply fadd_zero_r; lia).
  reflexivity.
Qed.

(** C6, as the specification states it, fails: the source forms
    [channel * delta] and the sum in binary64, and the rounding of the two
    operations can land on the other side of a half.  On the channel 50
    ([0x32]) with the double nearest to -0.93 the exact sum is just below
    3.5 and rounds to 3, while the source computes 3.5 and returns 4. *)
Lemma colorLuminance_not_exact :
  (- (1) <= - fdiv 93 100 /\ - fdiv 93 100 <= 1)
  /\ channel_of "3" "2" = 50%Z
  /\ inject_Z 50 + inject_Z 50 * - fdiv 93 100 < 7 # 2
  /\ Spec.luminance_channel 50 (- fdiv 93 100) = 3%Z
  /\ fadd (inject_Z 50) (fmul (inject_Z 50) (- fdiv 93 100)) == 7 # 2
  /\ colorLuminance "#323232" (- fdiv 93 100) = Returned "#040404"
  /\ colorLuminance "#323232" (- fdiv 93 100)
     <> Returned
          ("#" ++ Spec.hex2 (Spec.luminance_channel 50 (- fdiv 93 100))
               ++ Spec.hex2 (Spec.luminance_channel 50 (- fdiv 93 100))
               ++ Spec.hex2 (Spec.luminance_channel 50 (- fdiv 93 100))).
Proof.
  split; [split; vm_compute; discriminate |].
  split; [reflexivity |].
  split; [vm_compute; reflexivity |].
  split; [vm_compute; reflexivity |].
  split; [vm_compute; reflexivity |].
  split; [vm_compute; reflexivity |].
  vm_compute. discriminate.
Qed.

(** C6 (amended).  On a colour of six hexadecimal digits, and on one of
    three digits after doubling each digit, written with or without the
    leading ["#"], and a delta in [-1, 1], the helper returns ["#"]
    followed, for each channel, by the two zero-padded hexadecimal digits
    of [clamp(0, 255, round(channel + channel * delta))], the product and
    the sum being those of binary64.  Consequently
    [colorLuminance("#ffffff", -0.06)] is ["#f0f0f0"], every channel 240:
    at least 0 and strictly below 255; and [colorLuminance("#000000", x)]
    is ["#000000"] for every [x] in [-1, 0]. *)
Theorem colorLuminance_formula :
  (forall (d1 d2 d3 d4 d5 d6 : ascii) (hex : string) (delta : Q),
      is_hex_digit d1 = true -> is_hex_digit d2 = true ->
      is_hex_digit d3 = true -> is_hex_digit d4 = true ->
      is_hex_digit d5 = true -> is_hex_digit d6 = true ->
      colour_form (six_digits d1 d2 d3 d4 d5 d6) hex ->
      - (1) <= delta -> delta <= 1 ->
      colorLuminance hex delta
      = Returned
          ("#" ++ Spec.hex2 (Spec.luminance_channel64 (channel_of d1 d2) delta)
               ++ Spec.hex2 (Spec.luminance_channel64 (channel_of d3 d4) delta)
               ++ Spec.hex2 (Spec.luminance_channel64 (channel_of d5 d6) delta)))
  /\ (forall (d1 d2 d3 : ascii) (hex : string) (delta : Q),
         is_hex_digit d1 = true -> is_hex_digit d2 = true ->
         is_hex_digit d3 = true ->
         colour_form (three_digits d1 d2 d3) hex ->
         - (1) <= delta -> delta <= 1 ->
         colorLuminance hex delta
         = Returned
             ("#" ++ Spec.hex2 (Spec.luminance_channel64 (channel_of d1 d1) delta)
                  ++ Spec.hex2 (Spec.luminance_channel64 (channel_of d2 d2) delta)
                  ++ Spec.hex2 (Spec.luminance_channel64 (channel_of d3 d3) delta)))
  /\ (colorLuminance "#ffffff" (- fdiv 6 100) = Returned "#f0f0f0"
      /\ colorLuminance "#ffffff" (- (6 # 100)) = Returned "#f0f0f0"
      /\ Spec.luminance_channel64 255 (- fdiv 6 100) = 240%Z
      /\ Spec.hex2 240 = "f0"
      /\ (0 <= 240 < 255)%Z)
  /\ (forall x : Q,
         - (1) <= x -> x <= 0 ->
         colorLuminance "#000000" x = Returned "#000000").
Proof.
  split; [| split; [| split]].
  - intros. apply (colorLuminance_six d1 d2 d3 d4 d5 d6); assumption.
  - intros. apply (colorLuminance_three d1 d2 d3); assumption.
  - split; [vm_compute; reflexivity |].
    split; [vm_compute; reflexivity |].
    split; [vm_compute; reflexivity |].
    split; [vm_compute; reflexivity | lia].
  - intros x _ _.
    rewrite (colorLuminance_six "0" "0" "0" "0" "0" "0" "#000000")
      by (reflexivity || (left; reflexivity)).
    change (channel_of "0" "0") with 0%Z.
    rewrite luminance_channel_black. reflexivity.
Qed.

Lemma colorLuminance_formula_witness :
  colorLuminance "#336699" (1 # 2) = Returned "#4d99e6"
  /\ colorLuminance "369" (1 # 2) = Returned "#4d99e6"
  /\ colorLuminance "#000000" (- (1 # 2)) = Returned "#000000".
Proof.
  destruct colorLuminance_formula as (H6 & H3 & _ & H0).
  split; [| split].
  - rewrite (H6 "3"%char "3"%char "6"%char "6"%char "9"%char "9"%char
               "#336699");
      [vm_compute; reflexivity | reflexivity .. | left; reflexivity
      | discriminate | discriminate].
  - rewrite (H3 "3"%char "6"%char "9"%char "369");
      [vm_compute; reflexivity | reflexivity .. | right; reflexivity
      | discriminate | discriminate].
  - apply H0; discriminate.
Defined.

(* ------------------------------------------------------------------ *)
(** ** The compositor: layout values and the blocks of a pass *)

(** The layout values of a pass, as [renderToContext] computes them. *)
Definition nativePad_of (state : RenderState) : Z :=
  Math_round (inject_Z (nativeWidth state) * (8 # 100)).

Definition pad_of (state : RenderState) : Q :=
  inject_Z (nativePad_of state) * scale state.

Definition colW_of (state : RenderState) : Q :=
  (inject_Z (nativeWidth state) - inject_Z (nativePad_of state) * 2)
  * scale state.

Definition titleMax_of (state : RenderState) : Q := 260 * scale state.

Definition track_of (state : RenderState) : Q := - (2) * scale state.

Definition titleFamily_of (state : RenderState) : string :=
  or_else (titleFont state) "TrueNo-Black".

Definition bodyFamily_of (state : RenderState) : string :=
  or_else (bodyFont state) "TrueNo-Book".

(** The cursor a pass starts its text blocks with. *)
Definition y0_of (state : RenderState) : Q := pad_of state + 20 * scale state.

(** The arguments of the fit of title line 2. *)
Definition title2_fit_args (state : RenderState) (title2 : string) : FitArgs :=
  mkFitArgs title2 (colW_of state)
            (inject_Z (Math_round (fmul (round64 (titleMax_of state)) 3)))
            (Some (round64 (titleMax_of state))) (titleFamily_of state)
            (Some "900") (Some (track_of state)).

(** The arguments of the fit of title line 1: no [minSize]. *)
Definition title1_fit_args (state : RenderState) (title1 : string) : FitArgs :=
  mkFitArgs title1 (colW_of state) (titleMax_of state) None
            (titleFamily_of state) (Some "900") (Some (track_of state)).

(** The arguments of the fit of the subtitle. *)
Definition subtitle_fit_args (state : RenderState) (sub : string) : FitArgs :=
  mkFitArgs sub (colW_of state) (120 * scale state) (Some (40 * scale state))
            (bodyFamily_of state) (Some "normal") (Some 0).

(** The drawing properties the subtitle is drawn with. *)
Definition subtitle_props (sz : Q) (family : string) (d : DrawState)
  : DrawState :=
  upd_textBaseline "alphabetic"
    (upd_fillStyle "#f0f0f0" (upd_font (mkFont "normal" sz family) d)).

(** The calls of the background steps, from the drawing properties [d]
    in force when the pass starts: the flat fill in the tint, the image
    at opacity 0.8 under "multiply" when there is one, and the wash in the
    tint at opacity 0.3. *)
Definition background_calls (state : RenderState) (tint : string) (W H : Q)
    (d : DrawState) : list Call :=
  Save
  :: FillRect 0 0 W H (upd_fillStyle tint d)
  :: match img state with
     | Some im =>
         [DrawImage im 0 0 W H
            (mkDrawState tint (font d) (8 # 10) "multiply" (textBaseline d));
          FillRect 0 0 W H
            (mkDrawState tint (font d) (3 # 10) "source-over" (textBaseline d))]
     | None =>
         [FillRect 0 0 W H
            (mkDrawState tint (font d) (3 # 10) (globalCompositeOperation d)
                         (textBaseline d))]
     end.

(** [c'] has received the calls [l] since [c]. *)
Definition appended (c c' : Ctx) (l : list Call) : Prop :=
  calls c' = (calls c ++ l)%list.

Lemma appended_trans (c1 c2 c3 : Ctx) (l1 l2 : list Call) :
  appended c1 c2 l1 -> appended c2 c3 l2 -> appended c1 c3 (l1 ++ l2).
Proof.
  unfold appended. intros H1 H2. rewrite H2, H1. rewrite app_assoc.
  reflexivity.
Qed.

Section CompositorFacts.

Variable host : Host.

Lemma drawTracked_chars_cons (ch : ascii) (rest : string) (x y letter : Q)
    (c : Ctx) :
  drawTracked_chars host (String ch rest) x y letter c
  = drawTracked_chars host rest
      (x + (text_width host (font (props c)) (String ch EmptyString) + letter))
      y letter
      (record_call
         (MeasureText (String ch EmptyString) (font (props c)))
         (record_call (FillText (String ch EmptyString) x y (props c)) c)).
Proof. reflexivity. Qed.

(** Drawing tracked text glyph by glyph always returns, leaves the
    properties alone, and starts with the first glyph at the given point. *)
Lemma drawTracked_chars_spec (text : string) :
  forall (x y letter : Q) (c : Ctx),
  exists l : list Call,
    drawTracked_chars host text x y letter c
    = (Returned tt, mkCtx (props c) (saved c) (calls c ++ l))
    /\ (forall ch rest, text = String ch rest ->
        exists l', l = FillText (String ch EmptyString) x y (props c) :: l')
    /\ Forall (fun call => match call with
                           | FillText _ _ y' ds => y' = y /\ ds = props c
                           | MeasureText _ _ => True
                           | _ => False
                           end) l.
Proof.
  induction text as [| ch rest IH]; intros x y letter c.
  - exists []. split.
    + cbn. rewrite app_nil_r. destruct c; reflexivity.
    + split; [intros ? ? E; discriminate E | constructor].
  - set (m := text_width host (font (props c)) (String ch EmptyString)).
    set (c1 := record_call (FillText (String ch EmptyString) x y (props c)) c).
    set (c2 := record_call (MeasureText (String ch EmptyString) (font (props c))) c1).
    destruct (IH (x + (m + letter)) y letter c2) as (l & Hrun & _ & Hall).
    exists (FillText (String ch EmptyString) x y (props c)
            :: MeasureText (String ch EmptyString) (font (props c)) :: l).
    split.
    + rewrite drawTracked_chars_cons. fold m c1 c2.
      rewrite Hrun. unfold c2, c1, record_call. cbn [props saved calls].
      rewrite <- !app_assoc. reflexivity.
    + split.
      * intros ch' rest' E. injection E as -> ->. eexists. reflexivity.
      * constructor; [split; reflexivity |].
        constructor; [exact I |]. exact Hall.
Qed.

(** The drawing properties a title line is drawn with. *)
Definition title_props (sz : Q) (family : string) (d : DrawState) : DrawState :=
  upd_textBaseline "top" (upd_font (mkFont "900" sz family) d).

(** The part of a title block after its fit: the font and the baseline
    are set and the glyphs are drawn one by one from the cursor. *)
Lemma title_draw_spec (text family : string) (sz colX y track ynext : Q)
    (c : Ctx) :
  falsy track = false ->
  exists l : list Call,
    (set_font (mkFont "900" sz family) ;;
     set_textBaseline "top" ;;
     drawTrackedTextForContext host text colX y track ;;
     ret ynext) c
    = (Returned ynext,
       mkCtx (title_props sz family (props c)) (saved c) (calls c ++ l))
    /\ (forall ch rest, text = String ch rest ->
        exists l',
          l = FillText (String ch EmptyString) colX y
                       (title_props sz family (props c)) :: l')
    /\ Forall (fun call => match call with
                           | FillText _ _ y' ds =>
                               y' = y /\ ds = title_props sz family (props c)
                           | MeasureText _ _ => True
                           | _ => False
                           end) l.
Proof.
  intro Hk.
  set (c1 := mkCtx (title_props sz family (props c)) (saved c) (calls c)).
  destruct (drawTracked_chars_spec text colX y track c1)
    as (l & Hrun & Hfirst & Hall).
  exists l. split; [| split; [exact Hfirst | exact Hall]].
  unfold bind at 1. cbn [set_font with_props].
  unfold bind at 1. cbn [set_textBaseline with_props props saved calls].
  fold (title_props sz family (props c)). fold c1.
  unfold drawTrackedTextForContext. rewrite Hk.
  unfold bind at 1. rewrite Hrun. reflexivity.
Qed.

(** The "Title 2" block on a non-empty line. *)
Lemma drawTitle2_spec (state : RenderState) (title2 : string) (y : Q)
    (c : Ctx) :
  truthy title2 = true ->
  falsy (track_of state) = false ->
  exists (f2 : FitResult) (c1 : Ctx) (l_fit l_draw : list Call),
    fitTextForContext host (title2_fit_args state title2) c
    = (Returned f2, c1)
    /\ drawTitle2 host title2 (titleFamily_of state) (pad_of state)
                  (colW_of state) (titleMax_of state) (track_of state)
                  (scale state) y c
       = (Returned (y + (size f2 * (9 # 10) + 18 * scale state)),
          mkCtx (title_props (size f2) (titleFamily_of state) (props c))
                (saved c) (calls c ++ l_fit ++ l_draw))
    /\ Forall (fun x => is_measure x = true) l_fit
    /\ (forall ch rest, title2 = String ch rest ->
        exists l',
          l_draw = FillText (String ch EmptyString) (pad_of state) y
                     (title_props (size f2) (titleFamily_of state) (props c))
                   :: l')
    /\ Forall (fun call => match call with
                           | FillText _ _ y' ds =>
                               y' = y
                               /\ ds = title_props (size f2)
                                                   (titleFamily_of state)
                                                   (props c)
                           | MeasureText _ _ => True
                           | _ => False
                           end) l_draw.
Proof.
  intros Ht Hk.
  destruct (fitTextForContext_spec host (title2_fit_args state title2) c)
    as (f2 & c1 & k & l & Hrun & _ & _ & _ & _ & Hcalls & _ & Hall
        & Hsaved & Hprops & _).
  destruct c1 as [p1 s1 k1]. cbn [props saved calls] in Hcalls, Hsaved, Hprops.
  subst p1 s1 k1.
  match type of Hrun with _ = (_, ?x) => set (c1 := x) in * end.
  destruct (title_draw_spec title2 (titleFamily_of state) (size f2)
              (pad_of state) y (track_of state)
              (y + (size f2 * (9 # 10) + 18 * scale state)) c1 Hk)
    as (ld & Hdraw & Hfirst & Hdall).
  unfold c1 in Hdraw, Hfirst, Hdall.
  cbn [props saved calls] in Hdraw, Hfirst, Hdall.
  change (title_props (size f2) (titleFamily_of state)
            (upd_font (font_at (title2_fit_args state title2) (size f2))
                      (props c)))
    with (title_props (size f2) (titleFamily_of state) (props c))
    in Hdraw, Hfirst, Hdall.
  exists f2, c1,
    (MeasureText (fit_text (title2_fit_args state title2))
       (font_at (title2_fit_args state title2)
                (fit_maxSize (title2_fit_args state title2))) :: l), ld.
  split; [exact Hrun |].
  split.
  { unfold drawTitle2. rewrite Ht.
    fold (title2_fit_args state title2).
    rewrite (bind_run _ _ _ _ _ Hrun). refine (eq_trans Hdraw _).
    rewrite <- app_assoc. reflexivity. }
  split; [constructor; [reflexivity | exact Hall] |].
  split; [exact Hfirst | exact Hdall].
Qed.

(** The "Title 1" block on a non-empty line. *)
Lemma drawTitle1_spec (state : RenderState) (title1 : string) (y : Q)
    (c : Ctx) :
  truthy title1 = true ->
  falsy (track_of state) = false ->
  exists (f1 : FitResult) (c1 : Ctx) (l_fit l_draw : list Call),
    fitTextForContext host (title1_fit_args state title1) c
    = (Returned f1, c1)
    /\ drawTitle1 host title1 (titleFamily_of state) (pad_of state)
                  (colW_of state) (titleMax_of state) (track_of state)
                  (scale state) y c
       = (Returned (y + (size f1 * (95 # 100) + 8 * scale state)),
          mkCtx (title_props (size f1) (titleFamily_of state) (props c))
                (saved c) (calls c ++ l_fit ++ l_draw))
    /\ Forall (fun x => is_measure x = true) l_fit
    /\ (forall ch rest, title1 = String ch rest ->
        exists l',
          l_draw = FillText (String ch EmptyString) (pad_of state) y
                     (title_props (size f1) (titleFamily_of state) (props c))
                   :: l').
Proof.
  intros Ht Hk.
  destruct (fitTextForContext_spec host (title1_fit_args state title1) c)
    as (f1 & c1 & k & l & Hrun & _ & _ & _ & _ & Hcalls & _ & Hall
        & Hsaved & Hprops & _).
  destruct c1 as [p1 s1 k1]. cbn [props saved calls] in Hcalls, Hsaved, Hprops.
  subst p1 s1 k1.
  match type of Hrun with _ = (_, ?x) => set (c1 := x) in * end.
  destruct (title_draw_spec title1 (titleFamily_of state) (size f1)
              (pad_of state) y (track_of state)
              (y + (size f1 * (95 # 100) + 8 * scale state)) c1 Hk)
    as (ld & Hdraw & Hfirst & _).
  unfold c1 in Hdraw, Hfirst.
  cbn [props saved calls] in Hdraw, Hfirst.
  change (title_props (size f1) (titleFamily_of state)
            (upd_font (font_at (title1_fit_args state title1) (size f1))
                      (props c)))
    with (title_props (size f1) (titleFamily_of state) (props c))
    in Hdraw, Hfirst.
  exists f1, c1,
    (MeasureText (fit_text (title1_fit_args state title1))
       (font_at (title1_fit_args state title1)
                (fit_maxSize (title1_fit_args state title1))) :: l), ld.
  split; [exact Hrun |].
  split.
  { unfold drawTitle1. rewrite Ht.
    fold (title1_fit_args state title1).
    rewrite (bind_run _ _ _ _ _ Hrun). refine (eq_trans Hdraw _).
    rewrite <- app_assoc. reflexivity. }
  split; [constructor; [reflexivity | exact Hall] | exact Hfirst].
Qed.

(** The "Subtitle" block on a non-empty subtitle: after the fit, one
    [fillText] of the whole subtitle, 48 scaled units below the cursor, in
    the dimmed ink. *)
Lemma drawSubtitle_spec (state : RenderState) (sub : string) (y : Q)
    (c : Ctx) :
  truthy sub = true ->
  exists (subFit : FitResult) (c1 : Ctx) (l_fit : list Call),
    fitTextForContext host (subtitle_fit_args state sub) c
    = (Returned subFit, c1)
    /\ drawSubtitle host sub (bodyFamily_of state) (pad_of state)
                    (colW_of state) (scale state) y c
       = (Returned (y + 48 * scale state
                    + (size subFit + 32 * scale state)),
          mkCtx (subtitle_props (size subFit) (bodyFamily_of state) (props c))
                (saved c)
                (calls c ++ l_fit
                 ++ [FillText sub (pad_of state) (y + 48 * scale state)
                       (subtitle_props (size subFit) (bodyFamily_of state)
                                       (props c))]))
    /\ Forall (fun x => is_measure x = true) l_fit.
Proof.
  intros Ht.
  destruct (fitTextForContext_spec host (subtitle_fit_args state sub) c)
    as (f & c1 & k & l & Hrun & _ & _ & _ & _ & Hcalls & _ & Hall
        & Hsaved & Hprops & _).
  destruct c1 as [p1 s1 k1]. cbn [props saved calls] in Hcalls, Hsaved, Hprops.
  subst p1 s1 k1.
  match type of Hrun with _ = (_, ?x) => set (c1 := x) in * end.
  exists f, c1,
    (MeasureText (fit_text (subtitle_fit_args state sub))
       (font_at (subtitle_fit_args state sub)
                (fit_maxSize (subtitle_fit_args state sub))) :: l).
  split; [exact Hrun |].
  split; [| constructor; [reflexivity | exact Hall]].
  unfold drawSubtitle. rewrite Ht.
  change (colorLuminance ink (- (6 # 100))) with (Returned "#f0f0f0").
  cbv zeta. fold (subtitle_fit_args state sub).
  rewrite (bind_run _ _ _ _ _ Hrun).
  unfold c1, subtitle_props.
  unfold bind, set_font, set_fillStyle, set_textBaseline, with_props,
    fillText, ret, record_call.
  cbn [props saved calls].
  rewrite <- app_assoc. reflexivity.
Qed.

(** A computation that only ever adds calls to the context's list,
    whichever way it ends. *)
Definition grows {A} (m : M Ctx A) : Prop :=
  forall (c c' : Ctx) (o : Outcome A),
    m c = (o, c') -> exists l : list Call, appended c c' l.

Lemma grows_ret {A} (a : A) : grows (ret a).
Proof.
  intros c c' o H. injection H as _ <-. exists []. unfold appended.
  rewrite app_nil_r. reflexivity.
Qed.

Lemma grows_throw {A} (e : string) : grows (@throw Ctx A e).
Proof.
  intros c c' o H. injection H as _ <-. exists []. unfold appended.
  rewrite app_nil_r. reflexivity.
Qed.

Lemma grows_bind {A B} (m : M Ctx A) (k : A -> M Ctx B) :
  grows m -> (forall a, grows (k a)) -> grows (bind m k).
Proof.
  intros Hm Hk c c' o H. unfold bind in H.
  destruct (m c) as [[a | e] c1] eqn:E.
  - destruct (Hm _ _ _ E) as (l1 & H1). destruct (Hk a _ _ _ H) as (l2 & H2).
    exists (l1 ++ l2)%list. eapply appended_trans; eassumption.
  - injection H as _ <-. eapply Hm. exact E.
Qed.

Lemma grows_with_props (f : DrawState -> DrawState) : grows (with_props f).
Proof.
  intros c c' o H. injection H as _ <-. exists []. unfold appended.
  cbn [calls]. rewrite app_nil_r. reflexivity.
Qed.

Lemma grows_save : grows save.
Proof.
  intros c c' o H. injection H as _ <-. exists [Save]. reflexivity.
Qed.

Lemma grows_restore : grows restore.
Proof.
  intros c c' o H. unfold restore in H.
  destruct (saved c); injection H as _ <-; exists [Restore]; reflexivity.
Qed.

Lemma grows_fillRect (x y w h : Q) : grows (fillRect x y w h).
Proof.
  intros c c' o H. injection H as _ <-. eexists. reflexivity.
Qed.

Lemma grows_fillText (t : string) (x y : Q) : grows (fillText t x y).
Proof.
  intros c c' o H. injection H as _ <-. eexists. reflexivity.
Qed.

Lemma grows_measureText (t : string) : grows (measureText host t).
Proof.
  intros c c' o H. injection H as _ <-. eexists. reflexivity.
Qed.

Lemma grows_drawImage (im : Image) (x y w h : Q) :
  grows (drawImage host im x y w h).
Proof.
  intros c c' o H. unfold drawImage in H.
  destruct (image_error host im); injection H as _ <-.
  - exists []. unfold appended. rewrite app_nil_r. reflexivity.
  - eexists. reflexivity.
Qed.

Lemma grows_fitTextForContext (a : FitArgs) : grows (fitTextForContext host a).
Proof.
  intros c c' o H.
  destruct (fitTextForContext_spec host a c)
    as (r & c1 & k & l & Hrun & _ & _ & _ & _ & Hcalls & _).
  rewrite Hrun in H. injection H as _ <-. eexists. exact Hcalls.
Qed.

Lemma grows_drawTracked_chars (text : string) (x y letter : Q) :
  grows (drawTracked_chars host text x y letter).
Proof.
  intros c c' o H.
  destruct (drawTracked_chars_spec text x y letter c) as (l & Hrun & _).
  rewrite Hrun in H. injection H as _ <-. exists l. reflexivity.
Qed.

Lemma grows_drawTrackedTextForContext (text : string) (x y letter : Q) :
  grows (drawTrackedTextForContext host text x y letter).
Proof.
  unfold drawTrackedTextForContext. destruct (falsy letter).
  - apply grows_fillText.
  - apply grows_drawTracked_chars.
Qed.

Create HintDb grows discriminated.
#[local] Hint Resolve grows_ret grows_throw grows_with_props grows_save
  grows_restore grows_fillRect grows_fillText grows_measureText
  grows_drawImage grows_fitTextForContext grows_drawTrackedTextForContext
  : grows.

(** Solves [grows m] for a block by following its binds and branches. *)
Ltac grows_block :=
  repeat first
    [ solve [auto with grows]
    | progress unfold set_fillStyle, set_font, set_globalAlpha,
        set_globalCompositeOperation, set_textBaseline
    | match goal with
      | |- grows (bind _ _) => apply grows_bind; [| intro]
      end
    | match goal with
      | |- grows (if ?b then _ else _) => destruct b
      | |- grows (match ?x with _ => _ end) => destruct x
      end ].

Lemma grows_drawBackground (state : RenderState) (tint : string) (W H : Q) :
  grows (drawBackground host state tint W H).
Proof. unfold drawBackground. grows_block. Qed.

Lemma grows_drawTitle1 (t fam : string) (colX colW titleMax track sc y : Q) :
  grows (drawTitle1 host t fam colX colW titleMax track sc y).
Proof. unfold drawTitle1. grows_block. Qed.

Lemma grows_drawTitle2 (t fam : string) (colX colW titleMax track sc y : Q) :
  grows (drawTitle2 host t fam colX colW titleMax track sc y).
Proof. unfold drawTitle2. grows_block. Qed.

Lemma grows_drawSubtitle (t fam : string) (colX colW sc y : Q) :
  grows (drawSubtitle host t fam colX colW sc y).
Proof. unfold drawSubtitle. grows_block. Qed.

Lemma grows_drawAuthor (t fam : string) (W H pad sc : Q) :
  grows (drawAuthor host t fam W H pad sc).
Proof. unfold drawAuthor. grows_block. Qed.

Lemma grows_drawLogo (state : RenderState) (W H sc : Q) :
  grows (drawLogo host state W H sc).
Proof. unfold drawLogo. grows_block. Qed.

(** The background block, when it returns. *)
Lemma drawBackground_spec (state : RenderState) (tint : string) (W H : Q)
    (c c1 : Ctx) :
  drawBackground host state tint W H c = (Returned tt, c1) ->
  calls c1 = (calls c ++ background_calls state tint W H (props c))%list
  /\ saved c1 = props c :: saved c.
Proof.
  unfold drawBackground, background_calls.
  destruct (img state) as [im |].
  - unfold bind, save, set_fillStyle, set_globalAlpha,
      set_globalCompositeOperation, with_props, fillRect, drawImage,
      record_call.
    cbn [props saved calls].
    destruct (image_error host im); intro E; [discriminate E |].
    injection E as <-. cbn [calls saved].
    rewrite <- !app_assoc. split; reflexivity.
  - unfold bind, save, set_fillStyle, set_globalAlpha, with_props, fillRect,
      ret, record_call.
    cbn [props saved calls].
    intro E. injection E as <-. cbn [calls saved].
    rewrite <- !app_assoc. split; reflexivity.
Qed.

(** The background block, when the image is rejected: the flat fill has
    been drawn and nothing else. *)
Lemma drawBackground_thrown (state : RenderState) (tint : string) (W H : Q)
    (c c1 : Ctx) (e : string) :
  drawBackground host state tint W H c = (Thrown e, c1) ->
  calls c1 = (calls c ++ [Save; FillRect 0 0 W H (upd_fillStyle tint (props c))])%list.
Proof.
  unfold drawBackground.
  destruct (img state) as [im |].
  - unfold bind, save, set_fillStyle, set_globalAlpha,
      set_globalCompositeOperation, with_props, fillRect, drawImage,
      record_call.
    cbn [props saved calls].
    destruct (image_error host im); intro E; [| discriminate E].
    injection E as _ <-. cbn [calls].
    rewrite <- !app_assoc. reflexivity.
  - unfold bind, save, set_fillStyle, set_globalAlpha, with_props, fillRect,
      ret, record_call.
    cbn [props saved calls]. intro E. discriminate E.
Qed.

Lemma invalid_dimensions_false (W H nativeW nativeH : Z) (sc : Q) :
  invalid_dimensions W H nativeW nativeH sc = false
  <-> (0 < W)%Z /\ (0 < H)%Z /\ (0 < nativeW)%Z /\ (0 < nativeH)%Z /\ 0 < sc.
Proof.
  unfold invalid_dimensions. rewrite !orb_false_iff, !Z.leb_gt, Qleb_false.
  tauto.
Qed.

Lemma track_not_zero (state : RenderState) :
  0 < scale state -> falsy (track_of state) = false.
Proof.
  intro P. apply falsy_false. unfold track_of. intro E. lra.
Qed.

(** A pass on valid dimensions that returns has gone through every block
    in turn, each handing its cursor to the next. *)
Lemma render_pass (state : RenderState) (fields : Fields) (canvas : Canvas)
    (c c' : Ctx) :
  invalid_dimensions (canvas_width canvas) (canvas_height canvas)
                     (nativeWidth state) (nativeHeight state) (scale state)
  = false ->
  renderToContext host state fields canvas c = (Returned tt, c') ->
  exists (c0 c2 c3 c4 c5 c6 : Ctx) (y1 y2 y3 : Q),
    drawBackground host state (tint fields)
                   (inject_Z (canvas_width canvas))
                   (inject_Z (canvas_height canvas)) c
    = (Returned tt, c0)
    /\ drawTitle1 host (trim (title1 fields)) (titleFamily_of state)
                  (pad_of state) (colW_of state) (titleMax_of state)
                  (track_of state) (scale state) (y0_of state)
                  (mkCtx (upd_fillStyle ink (props c0)) (saved c0) (calls c0))
       = (Returned y1, c2)
    /\ drawTitle2 host (trim (title2 fields)) (titleFamily_of state)
                  (pad_of state) (colW_of state) (titleMax_of state)
                  (track_of state) (scale state) y1 c2
       = (Returned y2, c3)
    /\ drawSubtitle host (trim (subtitle fields)) (bodyFamily_of state)
                    (pad_of state) (colW_of state) (scale state) y2 c3
       = (Returned y3, c4)
    /\ drawAuthor host (trim (author fields)) (bodyFamily_of state)
                  (inject_Z (canvas_width canvas))
                  (inject_Z (canvas_height canvas)) (pad_of state)
                  (scale state) c4
       = (Returned tt, c5)
    /\ drawLogo host state (inject_Z (canvas_width canvas))
                (inject_Z (canvas_height canvas)) (scale state) c5
       = (Returned tt, c6)
    /\ restore c6 = (Returned tt, c').
Proof.
  intros V H. unfold renderToContext in H. rewrite V in H. cbv zeta in H.
  apply bind_returned in H. destruct H as ([] & c0 & H0 & H).
  apply bind_returned in H. destruct H as ([] & c1 & H1 & H).
  apply bind_returned in H. destruct H as (y1 & c2 & H2 & H).
  apply bind_returned in H. destruct H as (y2 & c3 & H3 & H).
  apply bind_returned in H. destruct H as (y3 & c4 & H4 & H).
  apply bind_returned in H. destruct H as ([] & c5 & H5 & H).
  apply bind_returned in H. destruct H as ([] & c6 & H6 & H).
  injection H1 as <-.
  exists c0, c2, c3, c4, c5, c6, y1, y2, y3.
  repeat split; assumption.
Qed.

End CompositorFacts.

(* ------------------------------------------------------------------ *)
(** ** The compositor: what the text blocks draw *)

Lemma background_calls_no_text (state : RenderState) (tint : string)
    (W H : Q) (d : DrawState) :
  Forall (fun x => is_fill_text x = false) (background_calls state tint W H d).
Proof.
  unfold background_calls. destruct (img state); repeat constructor.
Qed.

Lemma measures_no_text (l : list Call) :
  Forall (fun x => is_measure x = true) l ->
  Forall (fun x => is_fill_text x = false) l.
Proof.
  intro H. eapply Forall_impl; [| exact H].
  intros [] E; try discriminate E; reflexivity.
Qed.

Lemma restore_appends (c c' : Ctx) :
  restore c = (Returned tt, c') -> appended c c' [Restore].
Proof.
  unfold restore, appended. destruct (saved c); intro H;
    injection H as <-; reflexivity.
Qed.

(** What the blocks after the subtitle add, in a pass that returns. *)
Lemma after_subtitle (host : Host) (state : RenderState) (author : string)
    (W H : Q) (c4 c5 c6 c' : Ctx) :
  drawAuthor host author (bodyFamily_of state) W H (pad_of state)
             (scale state) c4 = (Returned tt, c5) ->
  drawLogo host state W H (scale state) c5 = (Returned tt, c6) ->
  restore c6 = (Returned tt, c') ->
  exists l : list Call, appended c4 c' l.
Proof.
  intros H4 H5 H6.
  destruct (grows_drawAuthor host _ _ _ _ _ _ _ _ _ H4) as (l4 & A4).
  destruct (grows_drawLogo host _ _ _ _ _ _ _ H5) as (l5 & A5).
  pose proof (restore_appends _ _ H6) as A6.
  eexists. eapply appended_trans; [| exact A6].
  eapply appended_trans; eassumption.
Qed.

(** C2, as the specification states it, fails: with a red tint the
    subtitle is drawn in ["#f0f0f0"], not in the tint adjusted by -0.06,
    which would be ["#f00000"]. *)
Lemma subtitle_fill_not_tint :
  exists c' : Ctx,
    renderToContext Demo.host Demo.state Demo.red_subtitle Demo.canvas
                    new_context
    = (Returned tt, c')
    /\ fill_texts (calls c') = [("Second Edition", "#f0f0f0")]
    /\ colorLuminance (tint Demo.red_subtitle) (- (6 # 100))
       = Returned "#f00000".
Proof.
  eexists. split; [vm_compute; reflexivity |].
  split; vm_compute; reflexivity.
Qed.

(** C2 (amended).  When the subtitle field is non-empty after trimming,
    a pass on valid dimensions that returns has drawn the trimmed subtitle,
    with one [fillText] at the left edge of the column, in the fill
    colour ["#f0f0f0"]: the white ink adjusted by -0.06 by the luminance
    helper, whatever the tint.  The font is the body family at normal
    weight and the baseline is alphabetic. *)
Theorem subtitle_fill_style (host : Host) (state : RenderState)
    (fields : Fields) (canvas : Canvas) (c c' : Ctx) :
  (0 < canvas_width canvas)%Z -> (0 < canvas_height canvas)%Z ->
  (0 < nativeWidth state)%Z -> (0 < nativeHeight state)%Z ->
  0 < scale state ->
  truthy (trim (subtitle fields)) = true ->
  renderToContext host state fields canvas c = (Returned tt, c') ->
  colorLuminance ink (- (6 # 100)) = Returned "#f0f0f0"
  /\ exists (y : Q) (ds : DrawState) (before after : list Call),
       calls c'
       = (calls c ++ before
          ++ FillText (trim (subtitle fields)) (pad_of state) y ds :: after)%list
       /\ fillStyle ds = "#f0f0f0"
       /\ textBaseline ds = "alphabetic"
       /\ font_weight (font ds) = "normal"
       /\ font_family (font ds) = bodyFamily_of state.
Proof.
  intros HW HH HnW HnH Hs Hsub Hrun.
  split; [vm_compute; reflexivity |].
  assert (V : invalid_dimensions (canvas_width canvas) (canvas_height canvas)
                (nativeWidth state) (nativeHeight state) (scale state)
              = false) by (apply invalid_dimensions_false; tauto).
  destruct (render_pass host state fields canvas c c' V Hrun)
    as (c0 & c2 & c3 & c4 & c5 & c6 & y1 & y2 & y3
        & H0 & H1 & H2 & H3 & H4 & H5 & H6).
  apply drawBackground_spec in H0. destruct H0 as [H0 _].
  destruct (grows_drawTitle1 host _ _ _ _ _ _ _ _ _ _ _ H1) as (l1 & A1).
  destruct (grows_drawTitle2 host _ _ _ _ _ _ _ _ _ _ _ H2) as (l2 & A2).
  destruct (after_subtitle host state _ _ _ _ _ _ _ H4 H5 H6) as (l4 & A4).
  destruct (drawSubtitle_spec host state (trim (subtitle fields)) y2 c3 Hsub)
    as (subFit & c_fit & l_fit & _ & Hdraw & _).
  rewrite Hdraw in H3. injection H3 as _ <-.
  unfold appended in *. cbn [calls] in A1, A4.
  exists (y2 + 48 * scale state),
    (subtitle_props (size subFit) (bodyFamily_of state) (props c3)),
    (background_calls state (tint fields) (inject_Z (canvas_width canvas))
       (inject_Z (canvas_height canvas)) (props c) ++ l1 ++ l2 ++ l_fit)%list,
    l4.
  split.
  - rewrite A4, A2, A1, H0. rewrite <- !app_assoc. reflexivity.
  - repeat split; reflexivity.
Qed.

Lemma subtitle_fill_style_witness :
  exists (y : Q) (ds : DrawState) (before after : list Call),
    calls (snd (renderToContext Demo.host Demo.state Demo.red_subtitle
                                Demo.canvas new_context))
    = (before
       ++ FillText "Second Edition" (pad_of Demo.state) y ds :: after)%list
    /\ fillStyle ds = "#f0f0f0".
Proof.
  destruct (subtitle_fill_style Demo.host Demo.state Demo.red_subtitle
              Demo.canvas new_context
              (snd (renderToContext Demo.host Demo.state Demo.red_subtitle
                                    Demo.canvas new_context)))
    as (_ & y & ds & before & after & Hcalls & Hfill & _).
  - cbn. lia.
  - cbn. lia.
  - cbn. lia.
  - cbn. lia.
  - reflexivity.
  - reflexivity.
  - vm_compute. reflexivity.
  - exists y, ds, before, after. split; [exact Hcalls | exact Hfill].
Defined.

Lemma truthy_cons (ch : ascii) (rest : string) : truthy (String ch rest) = true.
Proof. reflexivity. Qed.

(** C10.  In a pass on valid dimensions that returns, the cursor of the
    text blocks starts at [pad + 20 * scale], where [pad] is
    [round(0.08 * nativeWidth) * scale]: the first [fillText] of the pass
    draws the first character of title line 1 (of title line 2 when line 1
    is empty) at the left edge of the column and at that height, with a top
    baseline; when both title lines are empty the subtitle is drawn 48
    scaled units below it. *)
Theorem first_text_cursor (host : Host) (state : RenderState)
    (fields : Fields) (canvas : Canvas) (c c' : Ctx) :
  (0 < canvas_width canvas)%Z -> (0 < canvas_height canvas)%Z ->
  (0 < nativeWidth state)%Z -> (0 < nativeHeight state)%Z ->
  0 < scale state ->
  renderToContext host state fields canvas c = (Returned tt, c') ->
  y0_of state
  = inject_Z (Math_round (inject_Z (nativeWidth state) * (8 # 100)))
    * scale state + 20 * scale state
  /\ (forall (ch : ascii) (rest : string),
         (if truthy (trim (title1 fields)) then trim (title1 fields)
          else trim (title2 fields)) = String ch rest ->
         exists (before after : list Call) (ds : DrawState),
           calls c'
           = (calls c ++ before
              ++ FillText (String ch EmptyString) (pad_of state) (y0_of state)
                          ds :: after)%list
           /\ Forall (fun x => is_fill_text x = false) before
           /\ textBaseline ds = "top")
  /\ (truthy (trim (title1 fields)) = false ->
      truthy (trim (title2 fields)) = false ->
      truthy (trim (subtitle fields)) = true ->
      exists (before after : list Call) (ds : DrawState),
        calls c'
        = (calls c ++ before
           ++ FillText (trim (subtitle fields)) (pad_of state)
                       (y0_of state + 48 * scale state) ds :: after)%list
        /\ Forall (fun x => is_fill_text x = false) before).
Proof.
  intros HW HH HnW HnH Hs Hrun.
  split; [reflexivity |].
  assert (V : invalid_dimensions (canvas_width canvas) (canvas_height canvas)
                (nativeWidth state) (nativeHeight state) (scale state)
              = false) by (apply invalid_dimensions_false; tauto).
  pose proof (track_not_zero state Hs) as Hk.
  destruct (render_pass host state fields canvas c c' V Hrun)
    as (c0 & c2 & c3 & c4 & c5 & c6 & y1 & y2 & y3
        & H0 & H1 & H2 & H3 & H4 & H5 & H6).
  apply drawBackground_spec in H0. destruct H0 as [H0 _].
  destruct (after_subtitle host state _ _ _ _ _ _ _ H4 H5 H6) as (l4 & A4).
  pose proof (background_calls_no_text state (tint fields)
                (inject_Z (canvas_width canvas))
                (inject_Z (canvas_height canvas)) (props c)) as Hbg.
  set (bg := background_calls state (tint fields)
               (inject_Z (canvas_width canvas))
               (inject_Z (canvas_height canvas)) (props c)) in *.
  set (c1 := mkCtx (upd_fillStyle ink (props c0)) (saved c0) (calls c0)) in *.
  unfold appended in A4.
  split.
  - intros ch rest Ht.
    destruct (truthy (trim (title1 fields))) eqn:T1.
    + destruct (drawTitle1_spec host state (trim (title1 fields)) (y0_of state)
                  c1 T1 Hk)
        as (f1 & c_fit & l_fit & l_draw & _ & Hdraw & Hfit & Hfirst).
      rewrite Hdraw in H1. injection H1 as _ <-.
      destruct (Hfirst ch rest Ht) as (l' & ->).
      destruct (grows_drawTitle2 host _ _ _ _ _ _ _ _ _ _ _ H2) as (l2 & A2).
      destruct (grows_drawSubtitle host _ _ _ _ _ _ _ _ _ H3) as (l3 & A3).
      unfold appended in A2, A3. cbn [calls] in A2.
      exists (bg ++ l_fit)%list, (l' ++ l2 ++ l3 ++ l4)%list,
        (title_props (size f1) (titleFamily_of state) (props c1)).
      split; [| split; [| reflexivity]].
      * rewrite A4, A3, A2. unfold c1. cbn [calls]. rewrite H0.
        rewrite <- !app_assoc. reflexivity.
      * apply Forall_app. split; [exact Hbg | apply measures_no_text, Hfit].
    + assert (E1 : drawTitle1 host (trim (title1 fields)) (titleFamily_of state)
                     (pad_of state) (colW_of state) (titleMax_of state)
                     (track_of state) (scale state) (y0_of state) c1
                   = (Returned (y0_of state), c1)).
      { unfold drawTitle1. rewrite T1. reflexivity. }
      rewrite E1 in H1. injection H1 as <- <-.
      assert (T2 : truthy (trim (title2 fields)) = true)
        by (rewrite Ht; reflexivity).
      destruct (drawTitle2_spec host state (trim (title2 fields)) (y0_of state)
                  c1 T2 Hk)
        as (f2 & c_fit & l_fit & l_draw & _ & Hdraw & Hfit & Hfirst & _).
      rewrite Hdraw in H2. injection H2 as _ <-.
      destruct (Hfirst ch rest Ht) as (l' & ->).
      destruct (grows_drawSubtitle host _ _ _ _ _ _ _ _ _ H3) as (l3 & A3).
      unfold appended in A3. cbn [calls] in A3.
      exists (bg ++ l_fit)%list, (l' ++ l3 ++ l4)%list,
        (title_props (size f2) (titleFamily_of state) (props c1)).
      split; [| split; [| reflexivity]].
      * rewrite A4, A3. unfold c1. cbn [calls]. rewrite H0.
        rewrite <- !app_assoc. reflexivity.
      * apply Forall_app. split; [exact Hbg | apply measures_no_text, Hfit].
  - intros T1 T2 T3.
    assert (E1 : drawTitle1 host (trim (title1 fields)) (titleFamily_of state)
                   (pad_of state) (colW_of state) (titleMax_of state)
                   (track_of state) (scale state) (y0_of state) c1
                 = (Returned (y0_of state), c1)).
    { unfold drawTitle1. rewrite T1. reflexivity. }
    rewrite E1 in H1. injection H1 as <- <-.
    assert (E2 : drawTitle2 host (trim (title2 fields)) (titleFamily_of state)
                   (pad_of state) (colW_of state) (titleMax_of state)
                   (track_of state) (scale state) (y0_of state) c1
                 = (Returned (y0_of state), c1)).
    { unfold drawTitle2. rewrite T2. reflexivity. }
    rewrite E2 in H2. injection H2 as <- <-.
    destruct (drawSubtitle_spec host state (trim (subtitle fields))
                (y0_of state) c1 T3)
      as (subFit & c_fit & l_fit & _ & Hdraw & Hfit).
    rewrite Hdraw in H3. injection H3 as _ <-.
    cbn [calls] in A4.
    exists (bg ++ l_fit)%list, l4,
      (subtitle_props (size subFit) (bodyFamily_of state) (props c1)).
    split.
    + rewrite A4. unfold c1. cbn [calls]. rewrite H0.
      rewrite <- !app_assoc. reflexivity.
    + apply Forall_app. split; [exact Hbg | apply measures_no_text, Hfit].
Qed.

Lemma first_text_cursor_witness :
  (exists (before after : list Call) (ds : DrawState),
      calls (snd (renderToContext Demo.host Demo.state Demo.full_cover
                                  Demo.canvas new_context))
      = (before
         ++ FillText "P" (pad_of Demo.state) (y0_of Demo.state) ds
         :: after)%list)
  /\ (exists (before after : list Call) (ds : DrawState),
         calls (snd (renderToContext Demo.host Demo.state Demo.red_subtitle
                                     Demo.canvas new_context))
         = (before
            ++ FillText "Second Edition" (pad_of Demo.state)
                        (y0_of Demo.state + 48 * scale Demo.state) ds
            :: after)%list)
  /\ y0_of Demo.state == 20 + (25 # 8).
Proof.
  split; [| split; [| vm_compute; reflexivity]].
  - destruct (first_text_cursor Demo.host Demo.state Demo.full_cover
                Demo.canvas new_context
                (snd (renderToContext Demo.host Demo.state Demo.full_cover
                                      Demo.canvas new_context)))
      as (_ & Hfirst & _).
    + cbn. lia.
    + cbn. lia.
    + cbn. lia.
    + cbn. lia.
    + reflexivity.
    + vm_compute. reflexivity.
    + destruct (Hfirst "P"%char "erl") as (before & after & ds & Hcalls & _).
      * vm_compute. reflexivity.
      * exists before, after, ds. exact Hcalls.
  - destruct (first_text_cursor Demo.host Demo.state Demo.red_subtitle
                Demo.canvas new_context
                (snd (renderToContext Demo.host Demo.state Demo.red_subtitle
                                      Demo.canvas new_context)))
      as (_ & _ & Hsub).
    + cbn. lia.
    + cbn. lia.
    + cbn. lia.
    + cbn. lia.
    + reflexivity.
    + vm_compute. reflexivity.
    + destruct Hsub as (before & after & ds & Hcalls & _);
        [reflexivity | reflexivity | reflexivity |].
      exists before, after, ds. exact Hcalls.
Defined.

(* ------------------------------------------------------------------ *)
(** ** The compositor: title line 2 below the cap of line 1 *)


(** A field that holds only whitespace is empty after [trim()]: its block
    is skipped.  On [Demo.blank] no text is drawn at all. *)
Example whitespace_only_fields_draw_nothing :
  exists c' : Ctx,
    renderToContext Demo.host Demo.state Demo.blank Demo.canvas new_context
    = (Returned tt, c')
    /\ title2 Demo.blank <> "" /\ subtitle Demo.blank <> ""
    /\ fill_texts (calls c') = [].
Proof.
  eexists. split; [vm_compute; reflexivity |].
  split; [discriminate |]. split; [discriminate |].
  vm_compute. reflexivity.
Qed.

(* ------------------------------------------------------------------ *)
(** ** Export at native resolution *)

(** C4.  Whatever the export does, the scale of the render state after it
    is the scale before it: when there is no native resolution and nothing
    is exported, when the export returns the data URL, and when it throws,
    be it [drawImage] in the middle of the pass or [toDataURL] at the end.
    The other fields of the state are untouched too.  The two failing
    exports of [Demo] do throw, the first after the flat fill has been
    drawn, and leave the scale at 5/32. *)
Theorem export_restores_scale :
  (forall (host : Host) (fields : Fields) (state : RenderState),
      scale (snd (exportAtNativeResolution host fields state)) = scale state
      /\ snd (exportAtNativeResolution host fields state) = state)
  /\ (exportAtNativeResolution Demo.broken_image_host Demo.full_cover
                               Demo.state_with_images
      = (Thrown "InvalidStateError", Demo.state_with_images)
      /\ fst (renderToContext Demo.broken_image_host
                (set_scale 1 Demo.state_with_images) Demo.full_cover
                (mkCanvas 1600 2560) new_context)
         = Thrown "InvalidStateError"
      /\ List.length
           (calls (snd (renderToContext Demo.broken_image_host
                          (set_scale 1 Demo.state_with_images)
                          Demo.full_cover (mkCanvas 1600 2560) new_context)))
         = 2%nat)
  /\ exportAtNativeResolution Demo.tainted_host Demo.full_cover Demo.state
     = (Thrown "SecurityError", Demo.state)
  /\ exportAtNativeResolution Demo.host Demo.full_cover Demo.state
     = (Returned (Some "data:image/png;base64,"), Demo.state).
Proof.
  split; [| split; [split; [| split] | split]].
  - intros host fields state.
    unfold exportAtNativeResolution.
    destruct ((nativeWidth state =? 0)%Z || (nativeHeight state =? 0)%Z).
    + split; reflexivity.
    + unfold try_finally.
      match goal with
      | |- context [let (o, s') := ?body in _] =>
          destruct body as [o s'] eqn:E
      end.
      cbn [snd]. split; [reflexivity |].
      assert (S' : s' = set_scale 1 state).
      { unfold export_attempt, bind, on_context, toDataURL, ret in E.
        destruct (renderToContext host (set_scale 1 state) fields
                    (mkCanvas (nativeWidth state) (nativeHeight state))
                    new_context) as [[[] | e] cx];
          [destruct (data_url host (calls (snd (tt, cx)))) |];
          injection E as _ <-; reflexivity. }
      rewrite S'. destruct state; reflexivity.
  - vm_compute. reflexivity.
  - vm_compute. reflexivity.
  - vm_compute. reflexivity.
  - vm_compute. reflexivity.
  - vm_compute. reflexivity.
Qed.

(** Without the [finally] clause a failing export would leave the override
    in place: the body of the [try] alone ends with the scale at 1. *)
Example export_attempt_leaves_override :
  fst (export_attempt Demo.broken_image_host Demo.full_cover
         (mkCanvas 1600 2560) new_context Demo.state_with_images)
  = Thrown "InvalidStateError"
  /\ scale (snd (export_attempt Demo.broken_image_host Demo.full_cover
                   (mkCanvas 1600 2560) new_context Demo.state_with_images))
     = 1
  /\ scale Demo.state_with_images = 5 # 32.
Proof.
  split; [vm_compute; reflexivity |]. split; reflexivity.
Qed.

(* ================================================================== *)
(** * Further properties of the script *)

(* ------------------------------------------------------------------ *)
(** ** The colour helper on every input *)

Lemma string_length_append (s t : string) :
  String.length (s ++ t) = (String.length s + String.length t)%nat.
Proof.
  induction s as [| ch s IH]; [reflexivity |].
  cbn. rewrite IH. reflexivity.
Qed.

Lemma luminance_channel_range (c : Z) (lum : Q) :
  (0 <= luminance_channel c lum <= 255)%Z.
Proof. unfold luminance_channel. rewrite round_clamp. apply clamp_range. Qed.

(** Whatever [parseInt] has read, a channel prints as two characters. *)
Lemma channel_digits_length (o : option Z) (lum : Q) :
  String.length (channel_digits o lum) = 2%nat.
Proof.
  destruct o as [c |]; [| reflexivity].
  unfold channel_digits.
  rewrite two_digits by apply luminance_channel_range. reflexivity.
Qed.

Lemma js_plus_string (s : string) (v : jsval) :
  js_plus (JStr s) v = JStr (s ++ to_js_string v).
Proof. destruct v; reflexivity. Qed.

(** X2.  On every input [colorLuminance] either throws, which happens
    exactly when the input holds no hexadecimal digit at all, or returns a
    string of seven characters that starts with ["#"]; this includes the
    inputs with one or two digits, on which a channel prints as ["aN"]. *)
Theorem colorLuminance_shape (hex : string) (lum : Q) :
  (strip_non_hex hex = ""
   /\ colorLuminance hex lum
      = Thrown "TypeError: hex.substr is not a function")
  \/ (strip_non_hex hex <> ""
      /\ exists rest : string,
           colorLuminance hex lum = Returned (String "#" rest)
           /\ String.length rest = 6%nat).
Proof.
  unfold colorLuminance.
  destruct (strip_non_hex hex) as [| ch s] eqn:E.
  - left. split; reflexivity.
  - right. split; [discriminate |].
    assert (S : exists h : string,
               (if (String.length (String ch s) <? 6)%nat
                then js_plus (js_plus (js_plus (js_plus (js_plus
                       (char_at (String ch s) 0) (char_at (String ch s) 0))
                       (char_at (String ch s) 1)) (char_at (String ch s) 1))
                       (char_at (String ch s) 2)) (char_at (String ch s) 2)
                else JStr (String ch s)) = JStr h).
    { destruct (String.length (String ch s) <? 6)%nat; [| eexists; reflexivity].
      cbn [char_at String.get]. rewrite !js_plus_string. eexists. reflexivity. }
    destruct S as (h & ->).
    eexists. split; [reflexivity |].
    rewrite !string_length_append, !channel_digits_length. reflexivity.
Qed.

Example colorLuminance_shape_examples :
  colorLuminance "tint!" 0
  = Thrown "TypeError: hex.substr is not a function"
  /\ colorLuminance "#ab" 0 = Returned "#aabbaN"
  /\ colorLuminance "#1234567" 0 = Returned "#123456".
Proof. repeat split; vm_compute; reflexivity. Qed.

(** The digits [0-9a-f]. *)
Definition is_lower_hex_digit (c : ascii) : bool :=
  let n := nat_of_ascii c in
  ((48 <=? n) && (n <=? 57) || (97 <=? n) && (n <=? 102))%nat.

Lemma hex_value_range (d : ascii) :
  is_hex_digit d = true -> (0 <= hex_value d < 16)%Z.
Proof.
  destruct d as [[] [] [] [] [] [] [] []]; intro H;
    try discriminate H; vm_compute; split; congruence.
Qed.

Lemma hex_char_value (d : ascii) :
  is_lower_hex_digit d = true ->
  is_hex_digit d = true /\ hex_char (hex_value d) = d.
Proof.
  destruct d as [[] [] [] [] [] [] [] []]; intro H;
    try discriminate H; split; reflexivity.
Qed.

Lemma channel_of_range (hi lo : ascii) :
  is_hex_digit hi = true -> is_hex_digit lo = true ->
  (0 <= channel_of hi lo <= 255)%Z.
Proof.
  intros Hh Hl. unfold channel_of.
  pose proof (hex_value_range hi Hh). pose proof (hex_value_range lo Hl). lia.
Qed.

Lemma hex2_channel_of (hi lo : ascii) :
  is_lower_hex_digit hi = true -> is_lower_hex_digit lo = true ->
  Spec.hex2 (channel_of hi lo) = String hi (String lo EmptyString).
Proof.
  intros Hh Hl.
  destruct (hex_char_value hi Hh) as [Hh' Eh].
  destruct (hex_char_value lo Hl) as [Hl' El].
  pose proof (hex_value_range hi Hh'). pose proof (hex_value_range lo Hl').
  unfold Spec.hex2, channel_of.
  replace ((hex_value hi * 16 + hex_value lo) / 16)%Z with (hex_value hi)
    by (apply Z.div_unique with (r := hex_value lo); lia).
  replace ((hex_value hi * 16 + hex_value lo) mod 16)%Z with (hex_value lo)
    by (apply Z.mod_unique with (q := hex_value hi); lia).
  rewrite Eh, El. reflexivity.
Qed.

Lemma luminance_channel_zero_delta (c : Z) :
  (0 <= c <= 255)%Z -> Spec.luminance_channel64 c 0 = c.
Proof.
  intro R. unfold Spec.luminance_channel64. rewrite fmul_zero_r.
  rewrite (Math_round_comp _ (inject_Z c)) by (apply fadd_zero_r; lia).
  rewrite Math_round_Z. unfold Spec.clamp. lia.
Qed.

(** X3.  A delta of 0 changes nothing: on a colour of six digits [0-9a-f]
    [colorLuminance] returns the colour itself. *)
Theorem colorLuminance_zero_delta (d1 d2 d3 d4 d5 d6 : ascii) :
  is_lower_hex_digit d1 = true -> is_lower_hex_digit d2 = true ->
  is_lower_hex_digit d3 = true -> is_lower_hex_digit d4 = true ->
  is_lower_hex_digit d5 = true -> is_lower_hex_digit d6 = true ->
  colorLuminance (String "#" (six_digits d1 d2 d3 d4 d5 d6)) 0
  = Returned (String "#" (six_digits d1 d2 d3 d4 d5 d6)).
Proof.
  intros H1 H2 H3 H4 H5 H6.
  rewrite (colorLuminance_six d1 d2 d3 d4 d5 d6);
    try (apply hex_char_value; assumption); [| left; reflexivity].
  rewrite !luminance_channel_zero_delta
    by (apply channel_of_range; apply hex_char_value; assumption).
  rewrite !hex2_channel_of by assumption. reflexivity.
Qed.

Lemma colorLuminance_zero_delta_witness :
  colorLuminance "#3a6f9c" 0 = Returned "#3a6f9c".
Proof.
  apply (colorLuminance_zero_delta "3" "a" "6" "f" "9" "c"); reflexivity.
Defined.

Lemma inject_Z_nonneg (c : Z) : (0 <= c)%Z -> 0 <= inject_Z c.
Proof. intro H. rewrite Zle_Qle in H. exact H. Qed.

(** The rounded product and sum stay on the side of the channel that the
    sign of the delta puts them on: rounding is monotone and keeps whole
    numbers. *)
Lemma fmul_nonpos (x delta : Q) : 0 <= x -> delta <= 0 -> fmul x delta <= 0.
Proof.
  intros P D. unfold fmul.
  assert (L : x * delta <= 0).
  { assert (N : 0 <= x * - delta) by (apply Qmult_le_0_compat; lra).
    assert (E : x * - delta == - (x * delta)) by ring. lra. }
  apply round64_mono in L. rewrite (round64_zero 0) in L by reflexivity.
  exact L.
Qed.

Lemma fmul_nonneg (x delta : Q) : 0 <= x -> 0 <= delta -> 0 <= fmul x delta.
Proof.
  intros P D. unfold fmul. apply round64_nonneg.
  apply Qmult_le_0_compat; assumption.
Qed.

Lemma luminance_channel_darker (c : Z) (delta : Q) :
  (0 <= c <= 255)%Z -> delta <= 0 ->
  (0 <= Spec.luminance_channel64 c delta <= c)%Z.
Proof.
  intros R D. unfold Spec.luminance_channel64.
  pose proof (inject_Z_nonneg c (proj1 R)) as P.
  pose proof (fmul_nonpos (inject_Z c) delta P D) as N.
  assert (L : fadd (inject_Z c) (fmul (inject_Z c) delta) <= inject_Z c).
  { unfold fadd. apply Qle_trans with (round64 (inject_Z c)).
    - apply round64_mono. lra.
    - rewrite round64_inject_Z by lia. lra. }
  apply Math_round_mono in L. rewrite Math_round_Z in L.
  unfold Spec.clamp. lia.
Qed.

Lemma luminance_channel_lighter (c : Z) (delta : Q) :
  (0 <= c <= 255)%Z -> 0 <= delta ->
  (c <= Spec.luminance_channel64 c delta <= 255)%Z.
Proof.
  intros R D. unfold Spec.luminance_channel64.
  pose proof (inject_Z_nonneg c (proj1 R)) as P.
  pose proof (fmul_nonneg (inject_Z c) delta P D) as N.
  assert (L : inject_Z c <= fadd (inject_Z c) (fmul (inject_Z c) delta)).
  { unfold fadd. apply Qle_trans with (round64 (inject_Z c)).
    - rewrite round64_inject_Z by lia. lra.
    - apply round64_mono. lra. }
  apply Math_round_mono in L. rewrite Math_round_Z in L.
  unfold Spec.clamp. lia.
Qed.

Lemma luminance_channel_blackout (c : Z) (delta : Q) :
  (0 <= c <= 255)%Z -> delta <= - (1) ->
  Spec.luminance_channel64 c delta = 0%Z.
Proof.
  intros R D. unfold Spec.luminance_channel64.
  pose proof (inject_Z_nonneg c (proj1 R)) as P.
  assert (N : fmul (inject_Z c) delta <= - inject_Z c).
  { unfold fmul. apply Qle_trans with (round64 (inject_Z (- c))).
    - apply round64_mono. rewrite inject_Z_opp.
      assert (X : 0 <= inject_Z c * (- (1) - delta))
        by (apply Qmult_le_0_compat; lra).
      assert (E : inject_Z c * (- (1) - delta)
                  == - inject_Z c - inject_Z c * delta) by ring.
      lra.
    - rewrite round64_inject_Z by lia. rewrite inject_Z_opp. lra. }
  assert (L : fadd (inject_Z c) (fmul (inject_Z c) delta) <= inject_Z 0).
  { unfold fadd. change (inject_Z 0) with 0.
    apply Qle_trans with (round64 0).
    - apply round64_mono. lra.
    - rewrite (round64_zero 0) by reflexivity. lra. }
  apply Math_round_mono in L. rewrite Math_round_Z in L.
  unfold Spec.clamp. lia.
Qed.

(** X4.  On a colour of six hexadecimal digits a delta of at most 0 never
    raises a channel and a delta of at least 0 never lowers one, the
    result staying within 0..255; a delta of -1 or less gives black. *)
Theorem colorLuminance_darkens_lightens (d1 d2 d3 d4 d5 d6 : ascii)
    (hex : string) (delta : Q) :
  is_hex_digit d1 = true -> is_hex_digit d2 = true ->
  is_hex_digit d3 = true -> is_hex_digit d4 = true ->
  is_hex_digit d5 = true -> is_hex_digit d6 = true ->
  colour_form (six_digits d1 d2 d3 d4 d5 d6) hex ->
  exists r g b : Z,
    colorLuminance hex delta
    = Returned ("#" ++ Spec.hex2 r ++ Spec.hex2 g ++ Spec.hex2 b)
    /\ (delta <= 0 ->
        (0 <= r <= channel_of d1 d2)%Z /\ (0 <= g <= channel_of d3 d4)%Z
        /\ (0 <= b <= channel_of d5 d6)%Z)
    /\ (0 <= delta ->
        (channel_of d1 d2 <= r <= 255)%Z /\ (channel_of d3 d4 <= g <= 255)%Z
        /\ (channel_of d5 d6 <= b <= 255)%Z)
    /\ (delta <= - (1) -> r = 0%Z /\ g = 0%Z /\ b = 0%Z).
Proof.
  intros H1 H2 H3 H4 H5 H6 Hform.
  pose proof (channel_of_range d1 d2 H1 H2) as R1.
  pose proof (channel_of_range d3 d4 H3 H4) as R2.
  pose proof (channel_of_range d5 d6 H5 H6) as R3.
  exists (Spec.luminance_channel64 (channel_of d1 d2) delta),
         (Spec.luminance_channel64 (channel_of d3 d4) delta),
         (Spec.luminance_channel64 (channel_of d5 d6) delta).
  split; [apply (colorLuminance_six d1 d2 d3 d4 d5 d6); assumption |].
  split; [| split]; intro D.
  - repeat split; apply luminance_channel_darker; assumption || lia.
  - repeat split; apply luminance_channel_lighter; assumption || lia.
  - repeat split; apply luminance_channel_blackout; assumption.
Qed.

Lemma colorLuminance_darkens_lightens_witness :
  exists r g b : Z,
    colorLuminance "#3366CC" (- (1 # 4))
    = Returned ("#" ++ Spec.hex2 r ++ Spec.hex2 g ++ Spec.hex2 b)
    /\ (r <= 51)%Z /\ (g <= 102)%Z /\ (b <= 204)%Z.
Proof.
  destruct (colorLuminance_darkens_lightens "3" "3" "6" "6" "C" "C"
              "#3366CC" (- (1 # 4)))
    as (r & g & b & Hrun & Hdark & _); try reflexivity.
  - left. reflexivity.
  - exists r, g, b. split; [exact Hrun |].
    destruct Hdark as (Hr & Hg & Hb); [discriminate |].
    change (channel_of "3" "3") with 51%Z in Hr.
    change (channel_of "6" "6") with 102%Z in Hg.
    change (channel_of "C" "C") with 204%Z in Hb.
    repeat split; lia.
Defined.

(* ------------------------------------------------------------------ *)
(** ** The tracking engine: what is drawn *)

(** [drawTrackedText]: the same code on the live context [ctx]. *)
Definition drawTrackedText (host : Host) (text : string) (x y letter : Q)
  : M Ctx unit :=
  drawTrackedTextForContext host text x y letter.

(** The [fillText] calls of a list of calls, in order. *)
Definition fill_text_calls (l : list Call) : list Call :=
  filter is_fill_text l.

(** The first [i] characters of a string. *)
Definition prefix (i : nat) (s : string) : string := substring 0 i s.

Section TrackedDrawing.

Variable host : Host.

(** The calls of the glyph-by-glyph loop. *)
Fixpoint tracked_calls (ds : DrawState) (text : string) (x y letter : Q)
  : list Call :=
  match text with
  | EmptyString => []
  | String ch rest =>
      FillText (String ch EmptyString) x y ds
      :: MeasureText (String ch EmptyString) (font ds)
      :: tracked_calls ds rest
           (x + (text_width host (font ds) (String ch EmptyString) + letter))
           y letter
  end.

Lemma drawTracked_chars_run (text : string) :
  forall (x y letter : Q) (c : Ctx),
    drawTracked_chars host text x y letter c
    = (Returned tt,
       mkCtx (props c) (saved c)
             (calls c ++ tracked_calls (props c) text x y letter)).
Proof.
  induction text as [| ch rest IH]; intros x y letter c.
  - cbn. rewrite app_nil_r. destruct c; reflexivity.
  - rewrite drawTracked_chars_cons, IH. unfold record_call.
    cbn [props saved calls tracked_calls].
    rewrite <- !app_assoc. reflexivity.
Qed.

Lemma tracked_calls_length (ds : DrawState) (text : string) :
  forall x y letter : Q,
    List.length (fill_text_calls (tracked_calls ds text x y letter))
    = String.length text.
Proof.
  induction text as [| ch rest IH]; intros x y letter; [reflexivity |].
  cbn. rewrite <- (IH (x + (text_width host (font ds) (String ch "") + letter))
                      y letter).
  reflexivity.
Qed.

Lemma tracked_calls_nth (ds : DrawState) (text : string) :
  forall (x y letter : Q) (i : nat) (ch : ascii),
    String.get i text = Some ch ->
    exists xi : Q,
      nth_error (fill_text_calls (tracked_calls ds text x y letter)) i
      = Some (FillText (String ch EmptyString) xi y ds)
      /\ xi == x + glyph_sum host (font ds) (prefix i text) letter.
Proof.
  induction text as [| c0 rest IH]; intros x y letter i ch Hget.
  - discriminate Hget.
  - destruct i as [| i].
    + cbn in Hget. injection Hget as ->. exists x. split; [reflexivity |].
      cbn. ring.
    + cbn in Hget.
      destruct (IH (x + (text_width host (font ds) (String c0 "") + letter))
                   y letter i ch Hget) as (xi & Hnth & Hxi).
      exists xi. split; [exact Hnth |].
      rewrite Hxi. unfold prefix. cbn [substring glyph_sum]. ring.
Qed.

End TrackedDrawing.

(** X5.  With a non-zero tracking, [drawTrackedTextForContext] (and
    [drawTrackedText], the same code) returns with the drawing properties
    untouched after one [fillText] per character, in order and all at the
    same height: character [i] is drawn at [x] plus the widths of the
    characters before it, each measured on its own, plus [i] times the
    tracking.  With a zero tracking there is one [fillText] of the whole
    text, the empty text included. *)
Theorem drawTracked_glyphs (host : Host) (text : string) (x y letter : Q)
    (c : Ctx) :
  (~ letter == 0 ->
   exists l : list Call,
     drawTrackedTextForContext host text x y letter c
     = (Returned tt, mkCtx (props c) (saved c) (calls c ++ l))
     /\ drawTrackedText host text x y letter c
        = (Returned tt, mkCtx (props c) (saved c) (calls c ++ l))
     /\ List.length (fill_text_calls l) = String.length text
     /\ forall (i : nat) (ch : ascii),
          String.get i text = Some ch ->
          exists xi : Q,
            nth_error (fill_text_calls l) i
            = Some (FillText (String ch EmptyString) xi y (props c))
            /\ xi == x + glyph_sum host (font (props c)) (prefix i text) letter)
  /\ (letter == 0 ->
      drawTrackedTextForContext host text x y letter c
      = (Returned tt,
         mkCtx (props c) (saved c) (calls c ++ [FillText text x y (props c)]))).
Proof.
  split; intro Hl.
  - apply falsy_false in Hl.
    exists (tracked_calls host (props c) text x y letter).
    unfold drawTrackedText, drawTrackedTextForContext. rewrite Hl.
    split; [apply drawTracked_chars_run |].
    split; [apply drawTracked_chars_run |].
    split; [apply tracked_calls_length |].
    intros i ch Hget. apply tracked_calls_nth. exact Hget.
  - apply falsy_true in Hl.
    unfold drawTrackedTextForContext. rewrite Hl. reflexivity.
Qed.

Lemma drawTracked_glyphs_witness :
  exists (xi : Q) (l : list Call),
    calls (snd (drawTrackedTextForContext Demo.host "Perl" 20 30 (- (2))
                                          new_context))
    = l
    /\ nth_error (fill_text_calls l) 2
       = Some (FillText "r" xi 30 initial_props)
    /\ xi == 20 + (10 - 2) + (10 - 2).
Proof.
  destruct (proj1 (drawTracked_glyphs Demo.host "Perl" 20 30 (- (2))
                                      new_context))
    as (l & Hrun & _ & _ & Hnth).
  - vm_compute. discriminate.
  - destruct (Hnth 2%nat "r"%char eq_refl) as (xi & Hx & Hxi).
    exists xi, l. rewrite Hrun. split; [reflexivity |].
    split; [exact Hx |]. rewrite Hxi. vm_compute. reflexivity.
Defined.

(** A font without kerning: the width of a string is the sum of the
    widths of its parts. *)
Definition additive (host : Host) : Prop :=
  forall (f : Font) (s t : string),
    text_width host f (s ++ t) == text_width host f s + text_width host f t.

Lemma additive_glyph_sum (host : Host) (f : Font) (letter : Q) :
  additive host ->
  forall text : string,
    glyph_sum host f text letter
    == text_width host f text
       + letter * inject_Z (Z.of_nat (String.length text)).
Proof.
  intros Hadd text. induction text as [| ch rest IH].
  - pose proof (Hadd f "" "") as E. cbn [String.append] in E.
    cbn [glyph_sum String.length]. change (inject_Z (Z.of_nat 0)) with 0. lra.
  - pose proof (Hadd f (String ch "") rest) as E. cbn [String.append] in E.
    cbn [glyph_sum String.length]. rewrite IH, E.
    rewrite Nat2Z.inj_succ. unfold Z.succ. rewrite inject_Z_succ. ring.
Qed.

(** X6.  For a font without kerning the width the fit solver measures is
    the extent of the text as the tracked drawing lays it out: the advance
    over all glyphs less the tracking after the last one. *)
Theorem measure_agrees_with_drawing (host : Host) (f : Font) (text : string)
    (letter : Q) :
  additive host ->
  text <> "" ->
  tracked_width host f text letter == glyph_sum host f text letter - letter.
Proof.
  intros Hadd Hne.
  rewrite (additive_glyph_sum host f letter Hadd).
  destruct text as [| ch rest]; [contradiction |].
  unfold tracked_width. destruct (falsy letter) eqn:F.
  - apply falsy_true in F. rewrite F. ring.
  - destruct (Math_max_spec 0
                (inject_Z (Z.of_nat (String.length (String ch rest))) - 1))
      as [[L E] | [L E]]; rewrite E.
    + ring.
    + exfalso. cbn [String.length] in L.
      rewrite Nat2Z.inj_succ in L. unfold Z.succ in L.
      rewrite inject_Z_succ in L.
      pose proof (inject_Z_nonneg (Z.of_nat (String.length rest))
                    (Zle_0_nat _)). lra.
Qed.

Lemma demo_host_additive : additive Demo.host.
Proof.
  intros f s t. cbn [Demo.host text_width].
  rewrite string_length_append, Nat2Z.inj_add, inject_Z_plus. ring.
Qed.

Lemma measure_agrees_with_drawing_witness :
  tracked_width Demo.host (mkFont "900" 10 "TrueNo-Black") "Perl" (- (2))
  == glyph_sum Demo.host (mkFont "900" 10 "TrueNo-Black") "Perl" (- (2))
     - - (2).
Proof.
  apply (measure_agrees_with_drawing Demo.host).
  - exact demo_host_additive.
  - discriminate.
Defined.

(* ------------------------------------------------------------------ *)
(** ** [wrapLines] *)

(** [text.split(/\s+/)]: the pieces between the maximal runs of
    whitespace; a run at either end leaves an empty piece there.  [tok] is
    the piece being read and [in_gap] tells that the last character was
    whitespace. *)
Fixpoint split_ws_from (s tok : string) (in_gap : bool) : list string :=
  match s with
  | EmptyString => [tok]
  | String ch r =>
      if is_js_space ch then
        if in_gap then split_ws_from r tok true
        else tok :: split_ws_from r EmptyString true
      else split_ws_from r (tok ++ String ch EmptyString) false
  end.

Definition split_ws (text : string) : list string :=
  split_ws_from text EmptyString false.

Section WrapLines.

Variable host : Host.

(** The [for] loop of [wrapLines] over the words still to place, with the
    lines pushed so far and the line being filled. *)
Fixpoint wrap_words (words : list string) (maxWidth : Q)
    (lines : list string) (line : string) : M Ctx (list string) :=
  match words with
  | [] => ret (if truthy line then (lines ++ [line])%list else lines)
  | w :: rest =>
      let test := if truthy line then line ++ " " ++ w else w in
      m <- measureText host test ;;
      if Qgtb m maxWidth && truthy line
      then wrap_words rest maxWidth (lines ++ [line])%list w
      else wrap_words rest maxWidth lines test
  end.

(** [wrapLines(text, maxWidth, context)]. *)
Definition wrapLines (text : string) (maxWidth : Q) : M Ctx (list string) :=
  let words := split_ws text in
  wrap_words words maxWidth [] "".

End WrapLines.

Example split_ws_examples :
  split_ws "a  b" = ["a"; "b"] /\ split_ws "" = [""]
  /\ split_ws " a" = [""; "a"] /\ split_ws "a " = ["a"; ""]
  /\ split_ws " " = [""; ""].
Proof. repeat split; reflexivity. Qed.

(** [lines.join(' ')]. *)
Definition join_lines (l : list string) : string := String.concat " " l.

(** A text that holds whitespace only (or nothing). *)
Fixpoint blank (s : string) : bool :=
  match s with
  | EmptyString => true
  | String ch r => is_js_space ch && blank r
  end.

Definition starts_with_space (s : string) : bool :=
  match s with
  | EmptyString => false
  | String ch _ => is_js_space ch
  end.

Fixpoint ends_with_space (s : string) : bool :=
  match s with
  | EmptyString => false
  | String ch EmptyString => is_js_space ch
  | String _ r => ends_with_space r
  end.

Section WrapLinesFacts.

Variable host : Host.

Lemma wrap_words_spec (W : list string) (maxWidth : Q) (f : Font) :
  forall (words lines : list string) (line : string) (c : Ctx),
    font (props c) = f ->
    incl words W ->
    Forall (fun s => truthy s = true) lines ->
    Forall (fun s => text_width host f s <= maxWidth \/ In s W) lines ->
    (line = "" \/ text_width host f line <= maxWidth \/ In line W) ->
    exists (out : list string) (l : list Call),
      wrap_words host words maxWidth lines line c
      = (Returned out, mkCtx (props c) (saved c) (calls c ++ l))
      /\ List.length l = List.length words
      /\ Forall (fun x => is_measure x = true) l
      /\ Forall (fun s => truthy s = true) out
      /\ Forall (fun s => text_width host f s <= maxWidth \/ In s W) out.
Proof.
  induction words as [| w rest IH]; intros lines line c Hf Hincl Ht Hg Hline.
  - cbn [wrap_words]. destruct (truthy line) eqn:T.
    + exists (lines ++ [line])%list, []. unfold ret.
      rewrite app_nil_r. destruct c as [p s k]. cbn [props saved calls].
      split; [reflexivity |]. split; [reflexivity |]. split; [constructor |].
      split.
      * apply Forall_app. split; [exact Ht |].
        constructor; [exact T | constructor].
      * apply Forall_app. split; [exact Hg |].
        constructor; [| constructor].
        destruct Hline as [-> | G]; [discriminate T | exact G].
    + exists lines, []. unfold ret.
      rewrite app_nil_r. destruct c as [p s k]. cbn [props saved calls].
      repeat split; try assumption; constructor.
  - cbn [wrap_words].
    set (test := if truthy line then line ++ " " ++ w else w).
    set (c1 := record_call (MeasureText test (font (props c))) c).
    assert (Hc1 : font (props c1) = f) by exact Hf.
    assert (Hw : In w W) by (apply Hincl; left; reflexivity).
    assert (Hrest : incl rest W)
      by (intros x Hx; apply Hincl; right; exact Hx).
    unfold bind at 1. cbn [measureText]. fold c1. rewrite Hf.
    destruct (Qgtb (text_width host f test) maxWidth && truthy line) eqn:E.
    + apply andb_prop in E. destruct E as [_ T].
      destruct (IH (lines ++ [line])%list w c1 Hc1 Hrest)
        as (out & l & Hrun & Hlen & Hall & Hto & Hgo).
      * apply Forall_app. split; [exact Ht | constructor; [exact T | constructor]].
      * apply Forall_app. split; [exact Hg |].
        constructor; [| constructor].
        destruct Hline as [-> | G]; [discriminate T | exact G].
      * right. right. exact Hw.
      * exists out, (MeasureText test f :: l).
        split.
        { rewrite Hrun. unfold c1, record_call. cbn [props saved calls].
          rewrite Hf. rewrite <- app_assoc. reflexivity. }
        split; [cbn; rewrite Hlen; reflexivity |].
        split; [constructor; [reflexivity | exact Hall] |].
        split; assumption.
    + destruct (IH lines test c1 Hc1 Hrest Ht Hg)
        as (out & l & Hrun & Hlen & Hall & Hto & Hgo).
      * right. unfold test.
        destruct (truthy line) eqn:T; [| right; exact Hw].
        rewrite andb_true_r in E. apply Qgtb_false in E.
        left. exact E.
      * exists out, (MeasureText test f :: l).
        split.
        { rewrite Hrun. unfold c1, record_call. cbn [props saved calls].
          rewrite Hf. rewrite <- app_assoc. reflexivity. }
        split; [cbn; rewrite Hlen; reflexivity |].
        split; [constructor; [reflexivity | exact Hall] |].
        split; assumption.
Qed.

End WrapLinesFacts.

(** X7.  [wrapLines] returns on every text, having issued measurement
    calls only, one per piece of the split text, and leaves the drawing
    properties as they were.  No line it returns is empty, and every line
    either fits in [maxWidth] under the current font or is a single word of
    the text: only a word too wide on its own overflows. *)
Theorem wrapLines_lines (host : Host) (text : string) (maxWidth : Q)
    (c : Ctx) :
  exists (lines : list string) (l : list Call),
    wrapLines host text maxWidth c
    = (Returned lines, mkCtx (props c) (saved c) (calls c ++ l))
    /\ List.length l = List.length (split_ws text)
    /\ Forall (fun x => is_measure x = true) l
    /\ Forall (fun s => s <> "") lines
    /\ Forall (fun s => text_width host (font (props c)) s <= maxWidth
                        \/ In s (split_ws text)) lines.
Proof.
  unfold wrapLines.
  destruct (wrap_words_spec host (split_ws text) maxWidth (font (props c))
              (split_ws text) [] "" c eq_refl (incl_refl _)
              (Forall_nil _) (Forall_nil _) (or_introl eq_refl))
    as (out & l & Hrun & Hlen & Hall & Hto & Hgo).
  exists out, l. cbv zeta.
  split; [exact Hrun |]. split; [exact Hlen |]. split; [exact Hall |].
  split; [| exact Hgo].
  eapply Forall_impl; [| exact Hto].
  intros s T E. rewrite E in T. discriminate T.
Qed.

Lemma string_append_assoc (a b c : string) : (a ++ b) ++ c = a ++ (b ++ c).
Proof.
  induction a as [| ch a IH]; [reflexivity |]. cbn. rewrite IH. reflexivity.
Qed.

Lemma join_lines_cons (x y : string) (r : list string) :
  join_lines (x :: y :: r) = x ++ " " ++ join_lines (y :: r).
Proof. reflexivity. Qed.

(** Two neighbours joined by a space read the same as one line. *)
Lemma join_lines_merge (xs ys : list string) (a b : string) :
  join_lines (xs ++ (a ++ " " ++ b) :: ys) = join_lines (xs ++ a :: b :: ys).
Proof.
  induction xs as [| x xs IH].
  - cbn [app]. rewrite join_lines_cons. destruct ys as [| y ys].
    + reflexivity.
    + rewrite !join_lines_cons. rewrite !string_append_assoc. reflexivity.
  - destruct xs as [| x' xs].
    + cbn [app] in *. rewrite !join_lines_cons. rewrite IH. reflexivity.
    + cbn [app] in *. rewrite !join_lines_cons. rewrite IH. reflexivity.
Qed.

(** The lines pushed so far and the line being filled, as a list. *)
Definition placed (lines : list string) (line : string) : list string :=
  if truthy line then (lines ++ [line])%list else lines.

Lemma wrap_words_join (host : Host) (maxWidth : Q) :
  forall (words lines : list string) (line : string) (c : Ctx),
    Forall (fun s => truthy s = true) words ->
    exists (out : list string) (c' : Ctx),
      wrap_words host words maxWidth lines line c = (Returned out, c')
      /\ join_lines out = join_lines (placed lines line ++ words).
Proof.
  induction words as [| w rest IH]; intros lines line c Hw.
  - cbn [wrap_words]. eexists. eexists. split; [reflexivity |].
    unfold placed. rewrite app_nil_r. reflexivity.
  - inversion Hw as [| ? ? Tw Hrest]; subst.
    cbn [wrap_words]. unfold bind at 1. cbn [measureText].
    set (c1 := record_call _ c).
    destruct (Qgtb _ maxWidth && truthy line) eqn:E.
    + apply andb_prop in E. destruct E as [_ T].
      destruct (IH (lines ++ [line])%list w c1 Hrest)
        as (out & c' & Hrun & Hjoin).
      exists out, c'. split; [exact Hrun |].
      rewrite Hjoin. unfold placed. rewrite Tw, T.
      rewrite <- !app_assoc. reflexivity.
    + destruct (truthy line) eqn:T.
      * destruct (IH lines (line ++ " " ++ w) c1 Hrest)
          as (out & c' & Hrun & Hjoin).
        exists out, c'. split; [exact Hrun |].
        rewrite Hjoin. unfold placed. rewrite T.
        assert (T' : truthy (line ++ " " ++ w) = true)
          by (destruct line; [discriminate T | reflexivity]).
        rewrite T'. rewrite <- !app_assoc. cbn [app].
        apply join_lines_merge.
      * destruct (IH lines w c1 Hrest) as (out & c' & Hrun & Hjoin).
        exists out, c'. split; [exact Hrun |].
        rewrite Hjoin. unfold placed. rewrite T, Tw.
        rewrite <- app_assoc. reflexivity.
Qed.

(** The pieces of a text that neither starts nor ends with whitespace are
    all non-empty. *)
Lemma split_ws_from_words :
  forall (s tok : string) (in_gap : bool),
    ends_with_space s = false ->
    (if in_gap then s <> "" else tok <> "") ->
    Forall (fun w => truthy w = true) (split_ws_from s tok in_gap).
Proof.
  induction s as [| ch r IH]; intros tok in_gap He Hs.
  - destruct in_gap; [contradiction |].
    constructor; [| constructor].
    destruct tok; [contradiction | reflexivity].
  - assert (Hr : ends_with_space r = false).
    { destruct r as [| ch' r']; [reflexivity | exact He]. }
    cbn [split_ws_from]. destruct (is_js_space ch) eqn:Sp.
    + assert (Rne : r <> "").
      { intros ->. cbn in He. congruence. }
      destruct in_gap.
      * apply IH; assumption.
      * constructor.
        -- destruct tok; [contradiction | reflexivity].
        -- apply IH; assumption.
    + apply IH; [exact Hr |].
      destruct tok; discriminate.
Qed.

Lemma split_ws_words (text : string) :
  text <> "" -> starts_with_space text = false ->
  ends_with_space text = false ->
  Forall (fun w => truthy w = true) (split_ws text).
Proof.
  intros Hne Hs He. unfold split_ws.
  destruct text as [| ch r]; [contradiction |].
  cbn [starts_with_space] in Hs. cbn [split_ws_from]. rewrite Hs.
  apply split_ws_from_words.
  - destruct r as [| ch' r']; [reflexivity | exact He].
  - discriminate.
Qed.

Lemma split_ws_from_blank :
  forall (s tok : string),
    blank s = true ->
    split_ws_from s tok true = [tok]
    /\ (s <> "" -> split_ws_from s tok false = [tok; ""]).
Proof.
  induction s as [| ch r IH]; intros tok Hb.
  - split; [reflexivity | intro H; contradiction].
  - cbn [blank] in Hb. apply andb_prop in Hb. destruct Hb as [Sp Hb].
    cbn [split_ws_from]. rewrite Sp.
    split; [apply IH; exact Hb |].
    intros _. rewrite (proj1 (IH "" Hb)). reflexivity.
Qed.

Lemma wrap_words_of_empty (host : Host) (maxWidth : Q) :
  forall (words : list string) (c : Ctx),
    Forall (fun w => w = "") words ->
    fst (wrap_words host words maxWidth [] "" c) = Returned [].
Proof.
  induction words as [| w rest IH]; intros c Hw; [reflexivity |].
  inversion Hw as [| ? ? E Hrest]; subst.
  cbn [wrap_words truthy]. unfold bind at 1. cbn [measureText].
  rewrite andb_false_r. apply IH. exact Hrest.
Qed.

(** X8.  [wrapLines] neither loses, repeats nor reorders words: for a
    non-empty text that neither starts nor ends with whitespace, joining
    the returned lines with single spaces gives the words of the text
    joined with single spaces.  A text of whitespace only, or an empty
    one, gives no line at all. *)
Theorem wrapLines_keeps_words (host : Host) (text : string) (maxWidth : Q)
    (c : Ctx) :
  (text <> "" -> starts_with_space text = false ->
   ends_with_space text = false ->
   exists (lines : list string) (c' : Ctx),
     wrapLines host text maxWidth c = (Returned lines, c')
     /\ join_lines lines = join_lines (split_ws text))
  /\ (blank text = true ->
      fst (wrapLines host text maxWidth c) = Returned []).
Proof.
  split.
  - intros Hne Hs He. unfold wrapLines. cbv zeta.
    destruct (wrap_words_join host maxWidth (split_ws text) [] "" c
                (split_ws_words text Hne Hs He))
      as (out & c' & Hrun & Hjoin).
    exists out, c'. split; [exact Hrun | exact Hjoin].
  - intro Hb. unfold wrapLines, split_ws. cbv zeta.
    apply wrap_words_of_empty.
    destruct text as [| ch r].
    + repeat constructor.
    + rewrite (proj2 (split_ws_from_blank (String ch r) "" Hb))
        by discriminate.
      repeat constructor.
Qed.

Lemma wrapLines_keeps_words_witness :
  (exists (lines : list string) (c' : Ctx),
      wrapLines Demo.host "the quick  brown fox jumps" 100 new_context
      = (Returned lines, c')
      /\ join_lines lines = "the quick brown fox jumps")
  /\ fst (wrapLines Demo.host "   " 100 new_context) = Returned [].
Proof.
  destruct (wrapLines_keeps_words Demo.host "the quick  brown fox jumps" 100
                                  new_context) as [Hwords _].
  destruct (wrapLines_keeps_words Demo.host "   " 100 new_context)
    as [_ Hblank].
  split.
  - apply Hwords; [discriminate | reflexivity | reflexivity].
  - apply Hblank. reflexivity.
Defined.

(** A run of whitespace at the end of the text stays on the last line when
    the line still fits with it. *)
Example wrapLines_trailing_space :
  fst (wrapLines Demo.host "a " 100 new_context) = Returned ["a "]
  /\ fst (wrapLines Demo.host "a " 15 new_context) = Returned ["a"].
Proof. split; vm_compute; reflexivity. Qed.

(* ------------------------------------------------------------------ *)
(** ** The scale model: [setCanvasSize] *)

(** The page: the [state] object, the live [canvas] and its context
    [ctx]. *)
Record Page : Type := mkPage {
  page_state : RenderState;
  page_canvas : Canvas;
  page_ctx : Ctx
}.

(** Assigning [canvas.width] or [canvas.height] resets the context of the
    canvas to its default state. *)
Definition reset_context (ctx : Ctx) : Ctx := mkCtx initial_props [] (calls ctx).

(** [setCanvasSize()], with [window.innerWidth] and [window.innerHeight]
    as arguments.  The native dimensions come from [img.width] and
    [img.height] and are never negative.  The quotients and products are
    exact here; in binary64 a rounded dimension can come out one pixel
    off at a tie, within the bounds proved below. *)
Definition setCanvasSize (viewportWidth viewportHeight : Z) : M Page unit :=
  fun page =>
    let state := page_state page in
    match img state with
    | None => (Returned tt, page)
    | Some _ =>
        if (nativeWidth state =? 0)%Z || (nativeHeight state =? 0)%Z
        then (Returned tt, page)
        else
          let controlPanelWidth := 360 in
          let bodyPadding := 32 in
          let gap := 16 in
          let availableWidth :=
            inject_Z viewportWidth - controlPanelWidth - bodyPadding - gap in
          let availableHeight := inject_Z viewportHeight - bodyPadding in
          let maxWidth := Math_max 250 (availableWidth - 100) in
          let maxHeight := Math_max 350 (availableHeight - 100) in
          let scaleByWidth := maxWidth / inject_Z (nativeWidth state) in
          let scaleByHeight := maxHeight / inject_Z (nativeHeight state) in
          let finalScale := Math_min scaleByWidth scaleByHeight in
          let displayWidth :=
            Math_round (inject_Z (nativeWidth state) * finalScale) in
          let displayHeight :=
            Math_round (inject_Z (nativeHeight state) * finalScale) in
          let canvas := mkCanvas displayWidth displayHeight in
          let state :=
            set_scale (inject_Z (canvas_width canvas)
                       / inject_Z (nativeWidth state)) state in
          (Returned tt, mkPage state canvas (reset_context (page_ctx page)))
    end.

(** The box the canvas has to fit in: the viewport less the control panel,
    the paddings, the gap and a margin of 100, at least 250 by 350. *)
Definition box_width (viewportWidth : Z) : Z := Z.max 250 (viewportWidth - 508).
Definition box_height (viewportHeight : Z) : Z :=
  Z.max 350 (viewportHeight - 132).

Lemma Math_max_inject (a b : Z) (y : Q) :
  y == inject_Z b -> Math_max (inject_Z a) y == inject_Z (Z.max a b).
Proof.
  intro E.
  destruct (Math_max_spec (inject_Z a) y) as [[L M] | [L M]]; rewrite M.
  - rewrite E in L. apply inject_Z_le_inv in L.
    rewrite Z.max_r by exact L. exact E.
  - rewrite E in L. apply inject_Z_lt_inv in L.
    rewrite Z.max_l by lia. reflexivity.
Qed.

Lemma maxWidth_box (viewportWidth : Z) :
  Math_max 250 (inject_Z viewportWidth - 360 - 32 - 16 - 100)
  == inject_Z (box_width viewportWidth).
Proof.
  unfold box_width. apply (Math_max_inject 250).
  unfold Z.sub. rewrite inject_Z_plus.
  change (inject_Z (- (508))) with (- (508)). ring.
Qed.

Lemma maxHeight_box (viewportHeight : Z) :
  Math_max 350 (inject_Z viewportHeight - 32 - 100)
  == inject_Z (box_height viewportHeight).
Proof.
  unfold box_height. apply (Math_max_inject 350).
  unfold Z.sub. rewrite inject_Z_plus.
  change (inject_Z (- (132))) with (- (132)). ring.
Qed.

Lemma Math_round_eq (x : Q) (z : Z) : x == inject_Z z -> Math_round x = z.
Proof.
  intro E. unfold Math_round. rewrite E. apply Math_round_Z.
Qed.

Lemma Math_round_le (x : Q) (z : Z) : x <= inject_Z z -> (Math_round x <= z)%Z.
Proof.
  intro L. apply Math_round_mono in L. rewrite Math_round_Z in L. exact L.
Qed.

Lemma Math_round_ge_half (x : Q) : 1 # 2 <= x -> (1 <= Math_round x)%Z.
Proof.
  intro L. apply Math_round_mono in L.
  change (Math_round (1 # 2)) with 1%Z in L. exact L.
Qed.

Lemma Math_round_nonneg (x : Q) : 0 <= x -> (0 <= Math_round x)%Z.
Proof.
  intro L. apply Math_round_mono in L.
  change (Math_round 0) with 0%Z in L. exact L.
Qed.

(** The rounding error of [Math.round] is at most one half. *)
Lemma Math_round_error (x : Q) :
  x - (1 # 2) < inject_Z (Math_round x) /\ inject_Z (Math_round x) <= x + (1 # 2).
Proof.
  unfold Math_round.
  pose proof (Qfloor_le (x + (1 # 2))) as L.
  pose proof (Qlt_floor (x + (1 # 2))) as U.
  rewrite inject_Z_succ in U. split; lra.
Qed.

(** The final scale takes the canvas to the box: neither side of the
    scaled image exceeds its bound and one of them meets it. *)
Lemma finalScale_box (a b mw mh : Q) :
  0 < a -> 0 < b ->
  let f := Math_min (mw / a) (mh / b) in
  a * f <= mw /\ b * f <= mh /\ (a * f == mw \/ b * f == mh).
Proof.
  intros Pa Pb f.
  assert (Ea : a * (mw / a) == mw) by (field; lra).
  assert (Eb : b * (mh / b) == mh) by (field; lra).
  unfold f.
  destruct (Math_min_spec (mw / a) (mh / b)) as [[L M] | [L M]]; rewrite M.
  - split; [lra |]. split; [| left; exact Ea].
    rewrite <- Eb. apply Qmult_le_l; assumption.
  - split; [| split; [lra | right; exact Eb]].
    rewrite <- Ea. apply Qmult_le_l; [assumption | lra].
Qed.

(** What [setCanvasSize] does once an image with a native resolution is
    there. *)
Lemma setCanvasSize_run (viewportWidth viewportHeight : Z) (page : Page)
    (im : Image) :
  img (page_state page) = Some im ->
  (0 < nativeWidth (page_state page))%Z ->
  (0 < nativeHeight (page_state page))%Z ->
  exists (f : Q) (dW dH : Z),
    setCanvasSize viewportWidth viewportHeight page
    = (Returned tt,
       mkPage (set_scale (inject_Z dW / inject_Z (nativeWidth (page_state page)))
                         (page_state page))
              (mkCanvas dW dH) (reset_context (page_ctx page)))
    /\ dW = Math_round (inject_Z (nativeWidth (page_state page)) * f)
    /\ dH = Math_round (inject_Z (nativeHeight (page_state page)) * f)
    /\ 0 < f
    /\ inject_Z (nativeWidth (page_state page)) * f
       <= inject_Z (box_width viewportWidth)
    /\ inject_Z (nativeHeight (page_state page)) * f
       <= inject_Z (box_height viewportHeight)
    /\ (inject_Z (nativeWidth (page_state page)) * f
        == inject_Z (box_width viewportWidth)
        \/ inject_Z (nativeHeight (page_state page)) * f
           == inject_Z (box_height viewportHeight)).
Proof.
  intros Himg HW HH.
  set (a := inject_Z (nativeWidth (page_state page))).
  set (b := inject_Z (nativeHeight (page_state page))).
  set (mw := Math_max 250 (inject_Z viewportWidth - 360 - 32 - 16 - 100)).
  set (mh := Math_max 350 (inject_Z viewportHeight - 32 - 100)).
  assert (Pa : 0 < a)
    by (unfold a; change 0 with (inject_Z 0); rewrite <- Zlt_Qlt; exact HW).
  assert (Pb : 0 < b)
    by (unfold b; change 0 with (inject_Z 0); rewrite <- Zlt_Qlt; exact HH).
  assert (Emw : mw == inject_Z (box_width viewportWidth))
    by apply maxWidth_box.
  assert (Emh : mh == inject_Z (box_height viewportHeight))
    by apply maxHeight_box.
  assert (Pmw : 0 < mw).
  { rewrite Emw. change 0 with (inject_Z 0). rewrite <- Zlt_Qlt.
    unfold box_width. lia. }
  assert (Pmh : 0 < mh).
  { rewrite Emh. change 0 with (inject_Z 0). rewrite <- Zlt_Qlt.
    unfold box_height. lia. }
  destruct (finalScale_box a b mw mh Pa Pb) as (Lw & Lh & Hmeet).
  exists (Math_min (mw / a) (mh / b)),
    (Math_round (a * Math_min (mw / a) (mh / b))),
    (Math_round (b * Math_min (mw / a) (mh / b))).
  split.
  { unfold setCanvasSize. rewrite Himg.
    assert (G : ((nativeWidth (page_state page) =? 0)%Z
                 || (nativeHeight (page_state page) =? 0)%Z) = false).
    { apply orb_false_iff. split; apply Z.eqb_neq; lia. }
    rewrite G. reflexivity. }
  split; [reflexivity |]. split; [reflexivity |].
  split.
  { destruct (Math_min_spec (mw / a) (mh / b)) as [[_ M] | [_ M]]; rewrite M;
      apply Qlt_shift_div_l; lra. }
  rewrite <- Emw, <- Emh.
  split; [exact Lw |]. split; [exact Lh | exact Hmeet].
Qed.

(** X9.  Once an image with a positive native resolution is there,
    [setCanvasSize] sizes the canvas to fit the box left by the viewport:
    neither dimension exceeds its bound, neither is negative, and one of
    them meets its bound exactly.  The context of the canvas is reset. *)
Theorem setCanvasSize_fits (viewportWidth viewportHeight : Z) (page : Page)
    (im : Image) :
  img (page_state page) = Some im ->
  (0 < nativeWidth (page_state page))%Z ->
  (0 < nativeHeight (page_state page))%Z ->
  exists page' : Page,
    setCanvasSize viewportWidth viewportHeight page = (Returned tt, page')
    /\ (0 <= canvas_width (page_canvas page') <= box_width viewportWidth)%Z
    /\ (0 <= canvas_height (page_canvas page') <= box_height viewportHeight)%Z
    /\ (canvas_width (page_canvas page') = box_width viewportWidth
        \/ canvas_height (page_canvas page') = box_height viewportHeight)
    /\ page_ctx page' = reset_context (page_ctx page).
Proof.
  intros Himg HW HH.
  destruct (setCanvasSize_run viewportWidth viewportHeight page im Himg HW HH)
    as (f & dW & dH & Hrun & -> & -> & Pf & Lw & Lh & Hmeet).
  pose proof (inject_Z_nonneg _ (Z.lt_le_incl _ _ HW)) as Pa.
  pose proof (inject_Z_nonneg _ (Z.lt_le_incl _ _ HH)) as Pb.
  eexists. split; [exact Hrun |]. cbn [page_canvas canvas_width canvas_height
                                        page_ctx].
  split.
  { split; [apply Math_round_nonneg, Qmult_le_0_compat; lra
           | apply Math_round_le; exact Lw]. }
  split.
  { split; [apply Math_round_nonneg, Qmult_le_0_compat; lra
           | apply Math_round_le; exact Lh]. }
  split; [| reflexivity].
  destruct Hmeet as [E | E]; [left | right]; apply Math_round_eq; exact E.
Qed.

(** A page with the default image loaded, before the canvas is sized. *)
Definition demo_page : Page :=
  mkPage (mkRenderState (Some Demo.pearl) None "TrueNo-Black"
                        "TrueNo-Regular" 1600 2560 1)
         (mkCanvas 1600 2560) new_context.

Lemma setCanvasSize_fits_witness :
  exists page' : Page,
    setCanvasSize 1280 800 demo_page = (Returned tt, page')
    /\ (canvas_width (page_canvas page') <= 772)%Z
    /\ (canvas_height (page_canvas page') <= 668)%Z.
Proof.
  destruct (setCanvasSize_fits 1280 800 demo_page Demo.pearl)
    as (page' & Hrun & Hw & Hh & _); [reflexivity | reflexivity | reflexivity |].
  exists page'. split; [exact Hrun |].
  change (box_width 1280) with 772%Z in Hw.
  change (box_height 800) with 668%Z in Hh. lia.
Defined.

Example setCanvasSize_on_a_laptop :
  exists page' : Page,
    setCanvasSize 1280 832 demo_page = (Returned tt, page')
    /\ page_canvas page' = mkCanvas 438 700.
Proof.
  eexists. split; [vm_compute; reflexivity |].
  vm_compute. reflexivity.
Qed.

(** X11.  The canvas keeps the aspect ratio of the image up to the
    rounding of its two dimensions: the cross products of the canvas and
    native dimensions differ by at most half the sum of the native
    dimensions. *)
Theorem setCanvasSize_aspect (viewportWidth viewportHeight : Z) (page : Page)
    (im : Image) :
  img (page_state page) = Some im ->
  (0 < nativeWidth (page_state page))%Z ->
  (0 < nativeHeight (page_state page))%Z ->
  exists page' : Page,
    setCanvasSize viewportWidth viewportHeight page = (Returned tt, page')
    /\ (2 * Z.abs (canvas_height (page_canvas page')
                   * nativeWidth (page_state page)
                   - canvas_width (page_canvas page')
                     * nativeHeight (page_state page))
        <= nativeWidth (page_state page) + nativeHeight (page_state page))%Z.
Proof.
  intros Himg HW HH.
  destruct (setCanvasSize_run viewportWidth viewportHeight page im Himg HW HH)
    as (f & dW & dH & Hrun & EW & EH & _).
  eexists. split; [exact Hrun |].
  cbn [page_canvas canvas_width canvas_height].
  set (nW := nativeWidth (page_state page)) in *.
  set (nH := nativeHeight (page_state page)) in *.
  destruct (Math_round_error (inject_Z nW * f)) as [Lw Uw].
  destruct (Math_round_error (inject_Z nH * f)) as [Lh Uh].
  rewrite <- EW in Lw, Uw. rewrite <- EH in Lh, Uh.
  assert (Pa : 0 < inject_Z nW)
    by (change 0 with (inject_Z 0); rewrite <- Zlt_Qlt; exact HW).
  assert (Pb : 0 < inject_Z nH)
    by (change 0 with (inject_Z 0); rewrite <- Zlt_Qlt; exact HH).
  (* nW * (dH - nH f) - nH * (dW - nW f) = nW dH - nH dW *)
  assert (A1 : inject_Z nW * (inject_Z dH - inject_Z nH * f)
               <= inject_Z nW * (1 # 2))
    by (apply Qmult_le_l; [exact Pa | lra]).
  assert (A2 : inject_Z nW * (- (1 # 2))
               <= inject_Z nW * (inject_Z dH - inject_Z nH * f))
    by (apply Qmult_le_l; [exact Pa | lra]).
  assert (B1 : inject_Z nH * (inject_Z dW - inject_Z nW * f)
               <= inject_Z nH * (1 # 2))
    by (apply Qmult_le_l; [exact Pb | lra]).
  assert (B2 : inject_Z nH * (- (1 # 2))
               <= inject_Z nH * (inject_Z dW - inject_Z nW * f))
    by (apply Qmult_le_l; [exact Pb | lra]).
  assert (E : inject_Z (dH * nW - dW * nH)
              == inject_Z nW * (inject_Z dH - inject_Z nH * f)
                 - inject_Z nH * (inject_Z dW - inject_Z nW * f)).
  { unfold Z.sub. rewrite inject_Z_plus, inject_Z_opp, !inject_Z_mult. ring. }
  assert (U : inject_Z (2 * (dH * nW - dW * nH)) <= inject_Z (nW + nH)).
  { rewrite inject_Z_mult, inject_Z_plus, E. change (inject_Z 2) with 2. lra. }
  assert (L : inject_Z (- (nW + nH)) <= inject_Z (2 * (dH * nW - dW * nH))).
  { rewrite inject_Z_opp, inject_Z_mult, inject_Z_plus, E.
    change (inject_Z 2) with 2. lra. }
  apply inject_Z_le_inv in U. apply inject_Z_le_inv in L. lia.
Qed.

Lemma setCanvasSize_aspect_witness :
  exists page' : Page,
    setCanvasSize 1280 832 demo_page = (Returned tt, page')
    /\ (2 * Z.abs (canvas_height (page_canvas page') * 1600
                   - canvas_width (page_canvas page') * 2560)
        <= 1600 + 2560)%Z.
Proof.
  apply (setCanvasSize_aspect 1280 832 demo_page Demo.pearl); reflexivity.
Defined.

(** An image one pixel wide and 10000 pixels tall leaves a canvas of
    width 0 and a scale of 0. *)
Example setCanvasSize_sliver :
  exists page' : Page,
    setCanvasSize 1280 832
      (mkPage (mkRenderState (Some (mkImage "sliver.png" 1 10000)) None
                             "TrueNo-Black" "TrueNo-Regular" 1 10000 1)
              (mkCanvas 1600 2560) new_context)
    = (Returned tt, page')
    /\ canvas_width (page_canvas page') = 0%Z
    /\ scale (page_state page') == 0
    /\ forall (host : Host) (fields : Fields) (c : Ctx),
         renderToContext host (page_state page') fields (page_canvas page') c
         = (Returned tt, c).
Proof.
  eexists. split; [vm_compute; reflexivity |].
  split; [vm_compute; reflexivity |].
  split; [vm_compute; reflexivity |].
  intros host fields c. reflexivity.
Qed.

(* ------------------------------------------------------------------ *)
(** ** The compositor: what every block leaves behind *)

(** Calls that measure text or draw it in the fill colour [style]. *)
Definition text_calls_in (style : string) (l : list Call) : Prop :=
  Forall (fun call => match call with
                      | FillText _ _ _ ds => fillStyle ds = style
                      | MeasureText _ _ => True
                      | _ => False
                      end) l.

(** What a text block leaves alone: the [save] stack, the opacity and
    the blend mode. *)
Definition frame_kept (c c' : Ctx) : Prop :=
  saved c' = saved c
  /\ globalAlpha (props c') = globalAlpha (props c)
  /\ globalCompositeOperation (props c')
     = globalCompositeOperation (props c).

Lemma frame_kept_refl (c : Ctx) : frame_kept c c.
Proof. repeat split. Qed.

Lemma frame_kept_trans (c1 c2 c3 : Ctx) :
  frame_kept c1 c2 -> frame_kept c2 c3 -> frame_kept c1 c3.
Proof.
  intros (A1 & A2 & A3) (B1 & B2 & B3). repeat split; congruence.
Qed.

Lemma text_calls_in_measures (style : string) (l : list Call) :
  Forall (fun x => is_measure x = true) l -> text_calls_in style l.
Proof.
  intro H. eapply Forall_impl; [| exact H].
  intros [] E; try discriminate E; exact I.
Qed.

Section Blocks.

Variable host : Host.

Lemma tracked_calls_text (ds : DrawState) (text : string) :
  forall x y letter : Q,
    text_calls_in (fillStyle ds) (tracked_calls host ds text x y letter).
Proof.
  induction text as [| ch rest IH]; intros x y letter; [constructor |].
  cbn [tracked_calls]. constructor; [reflexivity |].
  constructor; [exact I | apply IH].
Qed.

(** A title block after the test of its field: the fit, the font, the
    baseline, the glyphs and the new cursor. *)
Lemma title_block_run (a : FitArgs) (family : string) (colX y track : Q)
    (next : FitResult -> Q) (c : Ctx) :
  falsy track = false ->
  exists (f : FitResult) (l_fit : list Call),
    (f <- fitTextForContext host a ;;
     set_font (mkFont "900" (size f) family) ;;
     set_textBaseline "top" ;;
     drawTrackedTextForContext host (fit_text a) colX y track ;;
     ret (next f)) c
    = (Returned (next f),
       mkCtx (title_props (size f) family (props c)) (saved c)
             (calls c ++ l_fit
              ++ tracked_calls host (title_props (size f) family (props c))
                               (fit_text a) colX y track))
    /\ Forall (fun x => is_measure x = true) l_fit
    /\ size f <= fit_maxSize a.
Proof.
  intro Hk.
  destruct (fitTextForContext_spec host a c)
    as (f & c1 & k & l & Hrun & _ & Hsz & _ & _ & Hcalls & _ & Hall
        & Hsaved & Hprops & _).
  destruct c1 as [p1 s1 k1]. cbn [props saved calls] in Hcalls, Hsaved, Hprops.
  subst p1 s1 k1.
  exists f, (MeasureText (fit_text a) (font_at a (fit_maxSize a)) :: l).
  split; [| split; [constructor; [reflexivity | exact Hall]
                   | exact (steps_down_le _ _ _ Hsz)]].
  rewrite (bind_run _ _ _ _ _ Hrun).
  unfold bind at 1. cbn [set_font with_props props saved calls].
  unfold bind at 1. cbn [set_textBaseline with_props props saved calls].
  unfold drawTrackedTextForContext. rewrite Hk.
  unfold bind at 1. rewrite drawTracked_chars_run.
  cbn [props saved calls ret]. rewrite <- app_assoc. reflexivity.
Qed.

(** The "Title 1" block, whether its line is empty or not. *)
Lemma drawTitle1_frame (state : RenderState) (title1 : string) (y : Q)
    (c : Ctx) :
  falsy (track_of state) = false ->
  exists (y' : Q) (c' : Ctx) (l : list Call),
    drawTitle1 host title1 (titleFamily_of state) (pad_of state)
               (colW_of state) (titleMax_of state) (track_of state)
               (scale state) y c
    = (Returned y', c')
    /\ calls c' = (calls c ++ l)%list
    /\ frame_kept c c'
    /\ fillStyle (props c') = fillStyle (props c)
    /\ text_calls_in (fillStyle (props c)) l.
Proof.
  intro Hk. unfold drawTitle1. destruct (truthy title1).
  - destruct (title_block_run (title1_fit_args state title1)
                (titleFamily_of state) (pad_of state) y (track_of state)
                (fun f1 => y + (size f1 * (95 # 100) + 8 * scale state)) c Hk)
      as (f & l_fit & Hrun & Hfit & _).
    eexists. eexists. eexists. split; [exact Hrun |].
    cbn [calls props saved]. split; [reflexivity |].
    split; [repeat split |]. split; [reflexivity |].
    apply Forall_app. split; [apply text_calls_in_measures, Hfit |].
    apply (tracked_calls_text
             (title_props (size f) (titleFamily_of state) (props c))).
  - exists y, c, []. split; [reflexivity |].
    split; [rewrite app_nil_r; reflexivity |].
    split; [apply frame_kept_refl |]. split; [reflexivity | constructor].
Qed.

(** The "Title 2" block, whether its line is empty or not. *)
Lemma drawTitle2_frame (state : RenderState) (title2 : string) (y : Q)
    (c : Ctx) :
  falsy (track_of state) = false ->
  exists (y' : Q) (c' : Ctx) (l : list Call),
    drawTitle2 host title2 (titleFamily_of state) (pad_of state)
               (colW_of state) (titleMax_of state) (track_of state)
               (scale state) y c
    = (Returned y', c')
    /\ calls c' = (calls c ++ l)%list
    /\ frame_kept c c'
    /\ fillStyle (props c') = fillStyle (props c)
    /\ text_calls_in (fillStyle (props c)) l.
Proof.
  intro Hk. unfold drawTitle2. destruct (truthy title2).
  - destruct (title_block_run (title2_fit_args state title2)
                (titleFamily_of state) (pad_of state) y (track_of state)
                (fun f2 => y + (size f2 * (9 # 10) + 18 * scale state)) c Hk)
      as (f & l_fit & Hrun & Hfit & _).
    eexists. eexists. eexists. split; [exact Hrun |].
    cbn [calls props saved]. split; [reflexivity |].
    split; [repeat split |]. split; [reflexivity |].
    apply Forall_app. split; [apply text_calls_in_measures, Hfit |].
    apply (tracked_calls_text
             (title_props (size f) (titleFamily_of state) (props c))).
  - exists y, c, []. split; [reflexivity |].
    split; [rewrite app_nil_r; reflexivity |].
    split; [apply frame_kept_refl |]. split; [reflexivity | constructor].
Qed.

(** The "Subtitle" block, whether the subtitle is empty or not. *)
Lemma drawSubtitle_frame (state : RenderState) (sub : string) (y : Q)
    (c : Ctx) :
  exists (y' : Q) (c' : Ctx) (l : list Call),
    drawSubtitle host sub (bodyFamily_of state) (pad_of state)
                 (colW_of state) (scale state) y c
    = (Returned y', c')
    /\ calls c' = (calls c ++ l)%list
    /\ frame_kept c c'
    /\ text_calls_in "#f0f0f0" l.
Proof.
  destruct (truthy sub) eqn:T.
  - destruct (drawSubtitle_spec host state sub y c T)
      as (subFit & c1 & l_fit & _ & Hrun & Hfit).
    eexists. eexists. eexists. split; [exact Hrun |].
    cbn [calls props saved]. split; [reflexivity |].
    split; [repeat split |].
    apply Forall_app. split; [apply text_calls_in_measures, Hfit |].
    constructor; [reflexivity | constructor].
  - exists y, c, []. split; [unfold drawSubtitle; rewrite T; reflexivity |].
    split; [rewrite app_nil_r; reflexivity |].
    split; [apply frame_kept_refl | constructor].
Qed.

(** The drawing properties the author is drawn with. *)
Definition author_props (state : RenderState) (d : DrawState) : DrawState :=
  upd_textBaseline "alphabetic"
    (upd_fillStyle ink
       (upd_font (mkFont "normal" (175 * scale state) (bodyFamily_of state)) d)).

(** The "Author" block on a non-empty author: one measurement, then one
    [fillText] whose right edge is the padding away from the right edge of
    the target. *)
Lemma drawAuthor_run (state : RenderState) (author : string) (W H : Q)
    (c : Ctx) :
  truthy author = true ->
  drawAuthor host author (bodyFamily_of state) W H (pad_of state)
             (scale state) c
  = (Returned tt,
     mkCtx (author_props state (props c)) (saved c)
           (calls c
            ++ [MeasureText author
                  (mkFont "normal" (175 * scale state) (bodyFamily_of state));
                FillText author
                  (W - pad_of state
                   - text_width host
                       (mkFont "normal" (175 * scale state)
                               (bodyFamily_of state)) author)
                  (H / 2) (author_props state (props c))])).
Proof.
  intro T. unfold drawAuthor. rewrite T.
  unfold bind, set_font, set_fillStyle, set_textBaseline, with_props,
    measureText, fillText, record_call, author_props.
  cbn [props saved calls font upd_textBaseline upd_fillStyle upd_font].
  rewrite <- app_assoc. reflexivity.
Qed.

Lemma drawAuthor_frame (state : RenderState) (author : string) (W H : Q)
    (c : Ctx) :
  exists (c' : Ctx) (l : list Call),
    drawAuthor host author (bodyFamily_of state) W H (pad_of state)
               (scale state) c
    = (Returned tt, c')
    /\ calls c' = (calls c ++ l)%list
    /\ frame_kept c c'
    /\ text_calls_in ink l.
Proof.
  destruct (truthy author) eqn:T.
  - eexists. eexists. split; [apply drawAuthor_run; exact T |].
    cbn [calls props saved]. split; [reflexivity |].
    split; [repeat split |].
    constructor; [exact I |]. constructor; [reflexivity | constructor].
  - exists c, []. split; [unfold drawAuthor; rewrite T; reflexivity |].
    split; [rewrite app_nil_r; reflexivity |].
    split; [apply frame_kept_refl | constructor].
Qed.

(** The calls of the "Logo" block under the drawing properties [d]. *)
Definition logo_calls (state : RenderState) (W H : Q) (d : DrawState)
  : list Call :=
  match logo state with
  | Some lg =>
      [DrawImage lg
         (W - 75 * scale state - inject_Z (image_width lg) * 1 * scale state)
         (H - 75 * scale state - inject_Z (image_height lg) * 1 * scale state)
         (inject_Z (image_width lg) * 1 * scale state)
         (inject_Z (image_height lg) * 1 * scale state) d]
  | None => []
  end.

Lemma drawLogo_run (state : RenderState) (W H : Q) (c c' : Ctx) :
  drawLogo host state W H (scale state) c = (Returned tt, c') ->
  c' = mkCtx (props c) (saved c) (calls c ++ logo_calls state W H (props c)).
Proof.
  unfold drawLogo, logo_calls. destruct (logo state) as [lg |].
  - unfold drawImage. destruct (image_error host lg); intro E;
      [discriminate E |].
    injection E as <-. reflexivity.
  - intro E. injection E as <-. rewrite app_nil_r. destruct c; reflexivity.
Qed.

(** The drawing properties the background block leaves. *)
Lemma drawBackground_props (state : RenderState) (tint : string) (W H : Q)
    (c c1 : Ctx) :
  drawBackground host state tint W H c = (Returned tt, c1) ->
  props c1
  = mkDrawState tint (font (props c)) 1
      (match img state with
       | Some _ => "source-over"
       | None => globalCompositeOperation (props c)
       end)
      (textBaseline (props c)).
Proof.
  unfold drawBackground.
  destruct (img state) as [im |].
  - unfold bind, save, set_fillStyle, set_globalAlpha,
      set_globalCompositeOperation, with_props, fillRect, drawImage,
      record_call.
    cbn [props saved calls].
    destruct (image_error host im); intro E; [discriminate E |].
    injection E as <-. reflexivity.
  - unfold bind, save, set_fillStyle, set_globalAlpha, with_props, fillRect,
      ret, record_call.
    cbn [props saved calls]. intro E. injection E as <-. reflexivity.
Qed.

End Blocks.

(** A pass on valid dimensions that returns, block by block: the calls
    each block has added, the fill colour of its text, and the state of the
    context at the end. *)
Lemma render_summary (host : Host) (state : RenderState) (fields : Fields)
    (canvas : Canvas) (c c' : Ctx) :
  invalid_dimensions (canvas_width canvas) (canvas_height canvas)
                     (nativeWidth state) (nativeHeight state) (scale state)
  = false ->
  renderToContext host state fields canvas c = (Returned tt, c') ->
  exists (l1 l2 l3 l4 : list Call) (d : DrawState),
    calls c'
    = (calls c
       ++ background_calls state (tint fields)
            (inject_Z (canvas_width canvas)) (inject_Z (canvas_height canvas))
            (props c)
       ++ l1 ++ l2 ++ l3 ++ l4
       ++ logo_calls state (inject_Z (canvas_width canvas))
            (inject_Z (canvas_height canvas)) d
       ++ [Restore])%list
    /\ text_calls_in ink l1
    /\ text_calls_in ink l2
    /\ text_calls_in "#f0f0f0" l3
    /\ text_calls_in ink l4
    /\ globalAlpha d = 1
    /\ props c' = props c
    /\ saved c' = saved c.
Proof.
  intros V Hrun.
  assert (Hk : falsy (track_of state) = false).
  { apply track_not_zero. apply invalid_dimensions_false in V. tauto. }
  destruct (render_pass host state fields canvas c c' V Hrun)
    as (c0 & c2 & c3 & c4 & c5 & c6 & y1 & y2 & y3
        & H0 & H1 & H2 & H3 & H4 & H5 & H6).
  pose proof (drawBackground_props host _ _ _ _ _ _ H0) as P0.
  apply drawBackground_spec in H0. destruct H0 as [H0 S0].
  set (c1 := mkCtx (upd_fillStyle ink (props c0)) (saved c0) (calls c0)) in *.
  destruct (drawTitle1_frame host state (trim (title1 fields)) (y0_of state)
              c1 Hk)
    as (y1' & c2' & l1 & E1 & A1 & F1 & S1 & T1).
  rewrite E1 in H1. injection H1 as <- <-.
  destruct (drawTitle2_frame host state (trim (title2 fields)) y1' c2' Hk)
    as (y2' & c3' & l2 & E2 & A2 & F2 & S2 & T2).
  rewrite E2 in H2. injection H2 as <- <-.
  destruct (drawSubtitle_frame host state (trim (subtitle fields)) y2' c3')
    as (y3' & c4' & l3 & E3 & A3 & F3 & T3).
  rewrite E3 in H3. injection H3 as <- <-.
  destruct (drawAuthor_frame host state (trim (author fields))
              (inject_Z (canvas_width canvas))
              (inject_Z (canvas_height canvas)) c4')
    as (c5' & l4 & E4 & A4 & F4 & T4).
  rewrite E4 in H4. injection H4 as <-.
  apply drawLogo_run in H5. subst c6.
  pose proof (frame_kept_trans _ _ _
                (frame_kept_trans _ _ _ (frame_kept_trans _ _ _ F1 F2) F3) F4)
    as (Fs & Fa & _).
  cbn [saved props globalAlpha c1] in Fs, Fa.
  assert (Sv : saved c5' = props c :: saved c) by (rewrite Fs; exact S0).
  unfold restore in H6. cbn [saved] in H6. rewrite Sv in H6.
  injection H6 as <-. cbn [calls props saved].
  exists l1, l2, l3, l4, (props c5').
  split.
  { rewrite A4, A3, A2, A1. unfold c1. cbn [calls]. rewrite H0.
    rewrite <- !app_assoc. reflexivity. }
  assert (I1 : fillStyle (props c1) = ink) by reflexivity.
  rewrite I1 in T1. rewrite S1, I1 in T2.
  split; [exact T1 |]. split; [exact T2 |]. split; [exact T3 |].
  split; [exact T4 |].
  split; [rewrite Fa, P0; reflexivity |].
  split; reflexivity.
Qed.

(** X13.  A pass on valid dimensions that returns leaves the context as
    it found it: the drawing properties and the [save] stack are those the
    pass started with.  A pass that throws does not restore them. *)
Theorem render_restores_context (host : Host) (state : RenderState)
    (fields : Fields) (canvas : Canvas) (c c' : Ctx) :
  (0 < canvas_width canvas)%Z -> (0 < canvas_height canvas)%Z ->
  (0 < nativeWidth state)%Z -> (0 < nativeHeight state)%Z ->
  0 < scale state ->
  renderToContext host state fields canvas c = (Returned tt, c') ->
  props c' = props c /\ saved c' = saved c.
Proof.
  intros HW HH HnW HnH Hs Hrun.
  assert (V : invalid_dimensions (canvas_width canvas) (canvas_height canvas)
                (nativeWidth state) (nativeHeight state) (scale state)
              = false) by (apply invalid_dimensions_false; tauto).
  destruct (render_summary host state fields canvas c c' V Hrun)
    as (l1 & l2 & l3 & l4 & d & _ & _ & _ & _ & _ & _ & Hp & Hsv).
  split; assumption.
Qed.

Lemma render_restores_context_witness :
  props (snd (renderToContext Demo.host Demo.state_with_images Demo.full_cover
                              Demo.canvas new_context))
  = initial_props.
Proof.
  apply (render_restores_context Demo.host Demo.state_with_images
           Demo.full_cover Demo.canvas new_context
           (snd (renderToContext Demo.host Demo.state_with_images
                                 Demo.full_cover Demo.canvas new_context))).
  - cbn. lia.
  - cbn. lia.
  - cbn. lia.
  - cbn. lia.
  - reflexivity.
  - vm_compute. reflexivity.
Defined.

(** When [drawImage] rejects the background image the pass stops there:
    the fill colour stays the tint, the opacity 0.8 and the blend mode
    "multiply", with one entry left on the [save] stack. *)
Example render_thrown_leaves_context :
  exists c' : Ctx,
    renderToContext Demo.broken_image_host Demo.state_with_images
                    Demo.full_cover Demo.canvas new_context
    = (Thrown "InvalidStateError", c')
    /\ props c'
       = mkDrawState "#336699" (mkFont "normal" 10 "sans-serif") (8 # 10)
                     "multiply" "alphabetic"
    /\ saved c' = [initial_props].
Proof.
  eexists. split; [vm_compute; reflexivity |]. split; reflexivity.
Qed.

(** X14.  In a pass on valid dimensions that returns, every text call is
    drawn in white ["#ffffff"] or in the dimmed white ["#f0f0f0"], whatever
    the tint field holds; and the only calls beside the background, the
    text and its measurements are the logo and the final [restore]. *)
Theorem render_text_colours (host : Host) (state : RenderState)
    (fields : Fields) (canvas : Canvas) (c c' : Ctx) :
  (0 < canvas_width canvas)%Z -> (0 < canvas_height canvas)%Z ->
  (0 < nativeWidth state)%Z -> (0 < nativeHeight state)%Z ->
  0 < scale state ->
  renderToContext host state fields canvas c = (Returned tt, c') ->
  exists (texts : list Call) (d : DrawState),
    calls c'
    = (calls c
       ++ background_calls state (tint fields)
            (inject_Z (canvas_width canvas)) (inject_Z (canvas_height canvas))
            (props c)
       ++ texts
       ++ logo_calls state (inject_Z (canvas_width canvas))
            (inject_Z (canvas_height canvas)) d
       ++ [Restore])%list
    /\ Forall (fun call =>
                 match call with
                 | FillText _ _ _ ds =>
                     fillStyle ds = "#ffffff" \/ fillStyle ds = "#f0f0f0"
                 | MeasureText _ _ => True
                 | _ => False
                 end) texts.
Proof.
  intros HW HH HnW HnH Hs Hrun.
  assert (V : invalid_dimensions (canvas_width canvas) (canvas_height canvas)
                (nativeWidth state) (nativeHeight state) (scale state)
              = false) by (apply invalid_dimensions_false; tauto).
  destruct (render_summary host state fields canvas c c' V Hrun)
    as (l1 & l2 & l3 & l4 & d & Hcalls & T1 & T2 & T3 & T4 & _).
  exists (l1 ++ l2 ++ l3 ++ l4)%list, d.
  split; [rewrite Hcalls; rewrite <- !app_assoc; reflexivity |].
  assert (Hink : forall l, text_calls_in ink l ->
                   Forall (fun call =>
                             match call with
                             | FillText _ _ _ ds =>
                                 fillStyle ds = "#ffffff"
                                 \/ fillStyle ds = "#f0f0f0"
                             | MeasureText _ _ => True
                             | _ => False
                             end) l).
  { intros l H. eapply Forall_impl; [| exact H].
    intros [] P; try exact P. left. exact P. }
  repeat (apply Forall_app; split); try (apply Hink; assumption).
  eapply Forall_impl; [| exact T3].
  intros [] P; try exact P. right. exact P.
Qed.

Lemma render_text_colours_witness :
  exists (before texts after : list Call),
    calls (snd (renderToContext Demo.host Demo.state Demo.full_cover
                                Demo.canvas new_context))
    = (before ++ texts ++ after)%list
    /\ Forall (fun call =>
                 match call with
                 | FillText _ _ _ ds =>
                     fillStyle ds = "#ffffff" \/ fillStyle ds = "#f0f0f0"
                 | MeasureText _ _ => True
                 | _ => False
                 end) texts.
Proof.
  destruct (render_text_colours Demo.host Demo.state Demo.full_cover
              Demo.canvas new_context
              (snd (renderToContext Demo.host Demo.state Demo.full_cover
                                    Demo.canvas new_context)))
    as (texts & d & Hcalls & Hall).
  - cbn. lia.
  - cbn. lia.
  - cbn. lia.
  - cbn. lia.
  - reflexivity.
  - vm_compute. reflexivity.
  - eexists. exists texts. eexists. split; [exact Hcalls | exact Hall].
Defined.

(** X15.  When every text field is empty after trimming, a pass on valid
    dimensions that returns draws the background, the logo if there is
    one, and nothing else: no text is drawn and none is measured. *)
Theorem render_without_text (host : Host) (state : RenderState)
    (fields : Fields) (canvas : Canvas) (c c' : Ctx) :
  (0 < canvas_width canvas)%Z -> (0 < canvas_height canvas)%Z ->
  (0 < nativeWidth state)%Z -> (0 < nativeHeight state)%Z ->
  0 < scale state ->
  trim (title1 fields) = "" -> trim (title2 fields) = "" ->
  trim (subtitle fields) = "" -> trim (author fields) = "" ->
  renderToContext host state fields canvas c = (Returned tt, c') ->
  exists d : DrawState,
    calls c'
    = (calls c
       ++ background_calls state (tint fields)
            (inject_Z (canvas_width canvas)) (inject_Z (canvas_height canvas))
            (props c)
       ++ logo_calls state (inject_Z (canvas_width canvas))
            (inject_Z (canvas_height canvas)) d
       ++ [Restore])%list
    /\ fill_texts (calls c') = fill_texts (calls c)
    /\ filter is_measure (calls c') = filter is_measure (calls c).
Proof.
  intros HW HH HnW HnH Hs E1 E2 E3 E4 Hrun.
  assert (V : invalid_dimensions (canvas_width canvas) (canvas_height canvas)
                (nativeWidth state) (nativeHeight state) (scale state)
              = false) by (apply invalid_dimensions_false; tauto).
  destruct (render_pass host state fields canvas c c' V Hrun)
    as (c0 & c2 & c3 & c4 & c5 & c6 & y1 & y2 & y3
        & H0 & H1 & H2 & H3 & H4 & H5 & H6).
  apply drawBackground_spec in H0. destruct H0 as [H0 _].
  rewrite E1 in H1. rewrite E2 in H2. rewrite E3 in H3. rewrite E4 in H4.
  injection H1 as <- <-. injection H2 as <- <-. injection H3 as <- <-.
  injection H4 as <-.
  apply drawLogo_run in H5. subst c6.
  apply restore_appends in H6. unfold appended in H6. cbn [calls] in H6.
  assert (Hcalls :
            calls c'
            = (calls c
               ++ background_calls state (tint fields)
                    (inject_Z (canvas_width canvas))
                    (inject_Z (canvas_height canvas)) (props c)
               ++ logo_calls state (inject_Z (canvas_width canvas))
                    (inject_Z (canvas_height canvas))
                    (upd_fillStyle ink (props c0))
               ++ [Restore])%list).
  { rewrite H6, H0. rewrite <- !app_assoc. reflexivity. }
  exists (upd_fillStyle ink (props c0)).
  split; [exact Hcalls |].
  assert (Hft : forall l1 l2, fill_texts (l1 ++ l2)
                              = (fill_texts l1 ++ fill_texts l2)%list).
  { induction l1 as [| [] l1 IH]; intro l2; cbn; try rewrite IH; reflexivity. }
  rewrite Hcalls. split.
  - rewrite !Hft.
    assert (B : fill_texts (background_calls state (tint fields)
                  (inject_Z (canvas_width canvas))
                  (inject_Z (canvas_height canvas)) (props c)) = [])
      by (unfold background_calls; destruct (img state); reflexivity).
    assert (L : fill_texts (logo_calls state (inject_Z (canvas_width canvas))
                  (inject_Z (canvas_height canvas))
                  (upd_fillStyle ink (props c0))) = [])
      by (unfold logo_calls; destruct (logo state); reflexivity).
    rewrite B, L. cbn. rewrite app_nil_r. reflexivity.
  - rewrite !filter_app.
    assert (B : filter is_measure (background_calls state (tint fields)
                  (inject_Z (canvas_width canvas))
                  (inject_Z (canvas_height canvas)) (props c)) = [])
      by (unfold background_calls; destruct (img state); reflexivity).
    assert (L : filter is_measure
                  (logo_calls state (inject_Z (canvas_width canvas))
                     (inject_Z (canvas_height canvas))
                     (upd_fillStyle ink (props c0))) = [])
      by (unfold logo_calls; destruct (logo state); reflexivity).
    rewrite B, L. cbn. rewrite app_nil_r. reflexivity.
Qed.

Lemma render_without_text_witness :
  fill_texts (calls (snd (renderToContext Demo.host Demo.state_with_images
                                           Demo.blank Demo.canvas
                                           new_context)))
  = [].
Proof.
  destruct (render_without_text Demo.host Demo.state_with_images Demo.blank
              Demo.canvas new_context
              (snd (renderToContext Demo.host Demo.state_with_images
                                    Demo.blank Demo.canvas new_context)))
    as (d & _ & Hft & _);
    [cbn; lia | cbn; lia | cbn; lia | cbn; lia | reflexivity | reflexivity
    | reflexivity | reflexivity | reflexivity | vm_compute; reflexivity |].
  exact Hft.
Defined.

(** X16.  A non-empty author is measured once and drawn once, in white
    at 175 scaled units in the body font, half-way down the target and
    right-justified: the drawn text ends the padding away from the right
    edge.  It is the last text of the pass. *)
Theorem author_right_justified (host : Host) (state : RenderState)
    (fields : Fields) (canvas : Canvas) (c c' : Ctx) :
  (0 < canvas_width canvas)%Z -> (0 < canvas_height canvas)%Z ->
  (0 < nativeWidth state)%Z -> (0 < nativeHeight state)%Z ->
  0 < scale state ->
  truthy (trim (author fields)) = true ->
  renderToContext host state fields canvas c = (Returned tt, c') ->
  let f := mkFont "normal" (175 * scale state) (bodyFamily_of state) in
  exists (x : Q) (ds : DrawState) (before after : list Call),
    calls c'
    = (calls c ++ before
       ++ [MeasureText (trim (author fields)) f;
           FillText (trim (author fields)) x
                    (inject_Z (canvas_height canvas) / 2) ds]
       ++ after)%list
    /\ x + text_width host f (trim (author fields))
       == inject_Z (canvas_width canvas) - pad_of state
    /\ font ds = f /\ fillStyle ds = "#ffffff"
    /\ textBaseline ds = "alphabetic"
    /\ Forall (fun call => is_fill_text call = false) after.
Proof.
  intros HW HH HnW HnH Hs Ta Hrun f.
  assert (V : invalid_dimensions (canvas_width canvas) (canvas_height canvas)
                (nativeWidth state) (nativeHeight state) (scale state)
              = false) by (apply invalid_dimensions_false; tauto).
  destruct (render_pass host state fields canvas c c' V Hrun)
    as (c0 & c2 & c3 & c4 & c5 & c6 & y1 & y2 & y3
        & H0 & H1 & H2 & H3 & H4 & H5 & H6).
  destruct (grows_drawBackground host _ _ _ _ _ _ _ H0) as (l0 & A0).
  destruct (grows_drawTitle1 host _ _ _ _ _ _ _ _ _ _ _ H1) as (l1 & A1).
  destruct (grows_drawTitle2 host _ _ _ _ _ _ _ _ _ _ _ H2) as (l2 & A2).
  destruct (grows_drawSubtitle host _ _ _ _ _ _ _ _ _ H3) as (l3 & A3).
  rewrite (drawAuthor_run host state _ _ _ _ Ta) in H4. injection H4 as <-.
  apply drawLogo_run in H5. subst c6.
  apply restore_appends in H6.
  unfold appended in *. cbn [calls props] in *.
  eexists. eexists. exists (l0 ++ l1 ++ l2 ++ l3)%list. eexists.
  split.
  { rewrite H6, A3, A2, A1, A0. rewrite <- !app_assoc. cbn [app].
    reflexivity. }
  split; [fold f; ring |].
  split; [reflexivity |]. split; [reflexivity |]. split; [reflexivity |].
  apply Forall_app. split; [| repeat constructor].
  unfold logo_calls. destruct (logo state); repeat constructor.
Qed.

Lemma author_right_justified_witness :
  exists (x : Q) (ds : DrawState) (before after : list Call),
    calls (snd (renderToContext Demo.host Demo.state Demo.full_cover
                                Demo.canvas new_context))
    = (before
       ++ [MeasureText "Dave Cross"
             (mkFont "normal" (175 * scale Demo.state) "TrueNo-Regular");
           FillText "Dave Cross" x (inject_Z 400 / 2) ds]
       ++ after)%list
    /\ x + text_width Demo.host
             (mkFont "normal" (175 * scale Demo.state) "TrueNo-Regular")
             "Dave Cross"
       == 250 - 20.
Proof.
  destruct (author_right_justified Demo.host Demo.state Demo.full_cover
              Demo.canvas new_context
              (snd (renderToContext Demo.host Demo.state Demo.full_cover
                                    Demo.canvas new_context)))
    as (x & ds & before & after & Hcalls & Hx & _);
    [cbn; lia | cbn; lia | cbn; lia | cbn; lia | reflexivity | reflexivity
    | vm_compute; reflexivity |].
  exists x, ds, before, after.
  split; [exact Hcalls | rewrite Hx; vm_compute; reflexivity].
Defined.

(** X17.  When there is a logo, the last drawing call of a pass on valid
    dimensions that returns draws it, opaque, at its natural size times the
    scale, with its right and bottom edges 75 scaled units inside the right
    and bottom edges of the target; [restore] follows. *)
Theorem logo_bottom_right (host : Host) (state : RenderState)
    (fields : Fields) (canvas : Canvas) (c c' : Ctx) (lg : Image) :
  (0 < canvas_width canvas)%Z -> (0 < canvas_height canvas)%Z ->
  (0 < nativeWidth state)%Z -> (0 < nativeHeight state)%Z ->
  0 < scale state ->
  logo state = Some lg ->
  renderToContext host state fields canvas c = (Returned tt, c') ->
  exists (x y w h : Q) (ds : DrawState) (before : list Call),
    calls c' = (calls c ++ before ++ [DrawImage lg x y w h ds; Restore])%list
    /\ w == inject_Z (image_width lg) * scale state
    /\ h == inject_Z (image_height lg) * scale state
    /\ x + w == inject_Z (canvas_width canvas) - 75 * scale state
    /\ y + h == inject_Z (canvas_height canvas) - 75 * scale state
    /\ globalAlpha ds = 1.
Proof.
  intros HW HH HnW HnH Hs Hlogo Hrun.
  assert (V : invalid_dimensions (canvas_width canvas) (canvas_height canvas)
                (nativeWidth state) (nativeHeight state) (scale state)
              = false) by (apply invalid_dimensions_false; tauto).
  destruct (render_summary host state fields canvas c c' V Hrun)
    as (l1 & l2 & l3 & l4 & d & Hcalls & _ & _ & _ & _ & Ha & _).
  unfold logo_calls in Hcalls. rewrite Hlogo in Hcalls.
  eexists. eexists. eexists. eexists. exists d.
  exists (background_calls state (tint fields)
            (inject_Z (canvas_width canvas)) (inject_Z (canvas_height canvas))
            (props c) ++ l1 ++ l2 ++ l3 ++ l4)%list.
  split.
  { rewrite Hcalls. rewrite <- !app_assoc. reflexivity. }
  split; [ring |]. split; [ring |]. split; [ring |]. split; [ring | exact Ha].
Qed.

Lemma logo_bottom_right_witness :
  exists (x y w h : Q) (ds : DrawState) (before : list Call),
    calls (snd (renderToContext Demo.host Demo.state_with_images
                                Demo.full_cover Demo.canvas new_context))
    = (before ++ [DrawImage Demo.logo_image x y w h ds; Restore])%list
    /\ w == 400 * (5 # 32)
    /\ x + w == 250 - 75 * (5 # 32).
Proof.
  destruct (logo_bottom_right Demo.host Demo.state_with_images
              Demo.full_cover Demo.canvas new_context
              (snd (renderToContext Demo.host Demo.state_with_images
                                    Demo.full_cover Demo.canvas new_context))
              Demo.logo_image)
    as (x & y & w & h & ds & before & Hcalls & Hw & _ & Hx & _);
    [cbn; lia | cbn; lia | cbn; lia | cbn; lia | reflexivity | reflexivity
    | vm_compute; reflexivity |].
  exists x, y, w, h, ds, before.
  split; [exact Hcalls |].
  split; [rewrite Hw | rewrite Hx]; vm_compute; reflexivity.
Defined.

(** X18.  A non-empty title line 1 is laid out glyph by glyph from the
    left edge of the column at the starting cursor, in white with a top
    baseline, at a size [s1] of at most [260 * scale]; and a non-empty
    title line 2 then starts [0.95 * s1 + 8 * scale] below it. *)
Theorem title1_layout (host : Host) (state : RenderState)
    (fields : Fields) (canvas : Canvas) (c c' : Ctx) :
  (0 < canvas_width canvas)%Z -> (0 < canvas_height canvas)%Z ->
  (0 < nativeWidth state)%Z -> (0 < nativeHeight state)%Z ->
  0 < scale state ->
  truthy (trim (title1 fields)) = true ->
  renderToContext host state fields canvas c = (Returned tt, c') ->
  exists (s1 : Q) (d1 : DrawState) (before after : list Call),
    calls c'
    = (calls c ++ before
       ++ tracked_calls host d1 (trim (title1 fields)) (pad_of state)
                        (y0_of state) (track_of state)
       ++ after)%list
    /\ Forall (fun call => is_fill_text call = false) before
    /\ s1 <= 260 * scale state
    /\ font d1 = mkFont "900" s1 (titleFamily_of state)
    /\ fillStyle d1 = "#ffffff"
    /\ textBaseline d1 = "top"
    /\ forall (ch : ascii) (rest : string),
         trim (title2 fields) = String ch rest ->
         exists (mid after' : list Call) (d2 : DrawState),
           after
           = (mid
              ++ FillText (String ch EmptyString) (pad_of state)
                   (y0_of state + (s1 * (95 # 100) + 8 * scale state)) d2
              :: after')%list
           /\ Forall (fun call => is_fill_text call = false) mid.
Proof.
  intros HW HH HnW HnH Hs T1 Hrun.
  assert (V : invalid_dimensions (canvas_width canvas) (canvas_height canvas)
                (nativeWidth state) (nativeHeight state) (scale state)
              = false) by (apply invalid_dimensions_false; tauto).
  pose proof (track_not_zero state Hs) as Hk.
  destruct (render_pass host state fields canvas c c' V Hrun)
    as (c0 & c2 & c3 & c4 & c5 & c6 & y1 & y2 & y3
        & H0 & H1 & H2 & H3 & H4 & H5 & H6).
  apply drawBackground_spec in H0. destruct H0 as [H0 _].
  set (c1 := mkCtx (upd_fillStyle ink (props c0)) (saved c0) (calls c0)) in *.
  destruct (title_block_run host (title1_fit_args state (trim (title1 fields)))
              (titleFamily_of state) (pad_of state) (y0_of state)
              (track_of state)
              (fun f1 => y0_of state + (size f1 * (95 # 100) + 8 * scale state))
              c1 Hk)
    as (f1 & l_fit & E1 & Hfit & Hmax).
  unfold drawTitle1 in H1. rewrite T1 in H1.
  pose proof (eq_trans (eq_sym E1) H1) as X. injection X as <- <-.
  clear E1 H1.
  destruct (after_subtitle host state _ _ _ _ _ _ _ H4 H5 H6) as (l4 & A4).
  destruct (grows_drawSubtitle host _ _ _ _ _ _ _ _ _ H3) as (l3 & A3).
  unfold appended in A3, A4.
  set (d1 := title_props (size f1) (titleFamily_of state) (props c1)) in *.
  set (y1 := y0_of state + (size f1 * (95 # 100) + 8 * scale state)) in *.
  match type of H2 with
  | drawTitle2 _ _ _ _ _ _ _ _ _ ?x = _ => set (c2 := x) in *
  end.
  destruct (truthy (trim (title2 fields))) eqn:T2.
  - destruct (drawTitle2_spec host state (trim (title2 fields)) y1 c2 T2 Hk)
      as (f2 & c_fit & l_fit2 & l_draw & _ & E2 & Hfit2 & Hfirst & _).
    rewrite E2 in H2. injection H2 as _ <-. cbn [calls] in A3.
    exists (size f1), d1,
      (background_calls state (tint fields) (inject_Z (canvas_width canvas))
         (inject_Z (canvas_height canvas)) (props c) ++ l_fit)%list,
      (l_fit2 ++ l_draw ++ l3 ++ l4)%list.
    split.
    { rewrite A4, A3. unfold c2, c1. cbn [calls]. rewrite H0.
      rewrite <- !app_assoc. reflexivity. }
    split.
    { apply Forall_app. split;
        [apply background_calls_no_text | apply measures_no_text, Hfit]. }
    split; [exact Hmax |].
    split; [reflexivity |]. split; [reflexivity |]. split; [reflexivity |].
    intros ch rest E. destruct (Hfirst ch rest E) as (l' & ->).
    exists l_fit2, (l' ++ l3 ++ l4)%list. eexists.
    split; [reflexivity | apply measures_no_text, Hfit2].
  - assert (E2 : trim (title2 fields) = "")
      by (destruct (trim (title2 fields)); [reflexivity | discriminate T2]).
    destruct (grows_drawTitle2 host _ _ _ _ _ _ _ _ _ _ _ H2) as (l2 & A2).
    unfold appended in A2.
    exists (size f1), d1,
      (background_calls state (tint fields) (inject_Z (canvas_width canvas))
         (inject_Z (canvas_height canvas)) (props c) ++ l_fit)%list,
      (l2 ++ l3 ++ l4)%list.
    split.
    { rewrite A4, A3, A2. unfold c2, c1. cbn [calls]. rewrite H0.
      rewrite <- !app_assoc. reflexivity. }
    split.
    { apply Forall_app. split;
        [apply background_calls_no_text | apply measures_no_text, Hfit]. }
    split; [exact Hmax |].
    split; [reflexivity |]. split; [reflexivity |]. split; [reflexivity |].
    intros ch rest E. rewrite E2 in E. discriminate E.
Qed.

Lemma title1_layout_witness :
  exists (s1 : Q) (d1 : DrawState) (before after : list Call),
    calls (snd (renderToContext Demo.host Demo.state Demo.full_cover
                                Demo.canvas new_context))
    = (before
       ++ tracked_calls Demo.host d1 "Perl" (pad_of Demo.state)
                        (y0_of Demo.state) (track_of Demo.state)
       ++ after)%list
    /\ s1 <= 260 * (5 # 32)
    /\ exists (mid after' : list Call) (d2 : DrawState),
         after
         = (mid
            ++ FillText "T" (pad_of Demo.state)
                 (y0_of Demo.state + (s1 * (95 # 100) + 8 * scale Demo.state))
                 d2
            :: after')%list.
Proof.
  destruct (title1_layout Demo.host Demo.state Demo.full_cover Demo.canvas
              new_context
              (snd (renderToContext Demo.host Demo.state Demo.full_cover
                                    Demo.canvas new_context)))
    as (s1 & d1 & before & after & Hcalls & _ & Hmax & _ & _ & _ & Hnext);
    [cbn; lia | cbn; lia | cbn; lia | cbn; lia | reflexivity | reflexivity
    | vm_compute; reflexivity |].
  exists s1, d1, before, after.
  split; [exact Hcalls |]. split; [exact Hmax |].
  destruct (Hnext "T"%char "aster" eq_refl) as (mid & after' & d2 & E & _).
  exists mid, after', d2. exact E.
Defined.

(* ------------------------------------------------------------------ *)
(** ** Export: what is exported *)

(** The outcome of the export, read off the compositor's pass on the export
    canvas. *)
Definition export_outcome (host : Host) (fields : Fields)
    (state : RenderState) : Outcome (option string) :=
  match renderToContext host (set_scale 1 state) fields
          (mkCanvas (nativeWidth state) (nativeHeight state)) new_context with
  | (Returned _, cx) =>
      match data_url host (calls cx) with
      | Returned url => Returned (Some url)
      | Thrown e => Thrown e
      end
  | (Thrown e, _) => Thrown e
  end.

Lemma export_run (host : Host) (fields : Fields) (state : RenderState) :
  fst (exportAtNativeResolution host fields state)
  = if (nativeWidth state =? 0)%Z || (nativeHeight state =? 0)%Z
    then Returned None
    else export_outcome host fields state.
Proof.
  unfold exportAtNativeResolution, export_outcome.
  destruct ((nativeWidth state =? 0)%Z || (nativeHeight state =? 0)%Z);
    [reflexivity |].
  unfold try_finally, export_attempt, bind, on_context, toDataURL, ret.
  destruct (renderToContext host (set_scale 1 state) fields
              (mkCanvas (nativeWidth state) (nativeHeight state))
              new_context) as [[[] | e] cx]; cbn [fst snd];
    [destruct (data_url host (calls cx)) |]; reflexivity.
Qed.

(** X19.  The export does not depend on the live display scale: two states
    that differ in their scale only export the same thing, be it a data
    URL, [null] or an exception. *)
Theorem export_ignores_live_scale (host : Host) (fields : Fields)
    (state : RenderState) (s : Q) :
  fst (exportAtNativeResolution host fields (set_scale s state))
  = fst (exportAtNativeResolution host fields state).
Proof.
  rewrite !export_run. reflexivity.
Qed.

(** X20.  The export answers [null] exactly when no native resolution is
    known, that is, when the native width or height is 0; otherwise it
    returns a data URL or throws. *)
Theorem export_null_iff (host : Host) (fields : Fields)
    (state : RenderState) :
  fst (exportAtNativeResolution host fields state) = Returned None
  <-> nativeWidth state = 0%Z \/ nativeHeight state = 0%Z.
Proof.
  rewrite export_run.
  destruct (nativeWidth state =? 0)%Z eqn:W; cbn [orb].
  - apply Z.eqb_eq in W. split; [intros _; left; exact W | reflexivity].
  - destruct (nativeHeight state =? 0)%Z eqn:H.
    + apply Z.eqb_eq in H. split; [intros _; right; exact H | reflexivity].
    + apply Z.eqb_neq in W. apply Z.eqb_neq in H.
      split; [| intros [E | E]; contradiction].
      unfold export_outcome.
      destruct (renderToContext host (set_scale 1 state) fields
                  (mkCanvas (nativeWidth state) (nativeHeight state))
                  new_context) as [[[] | e] cx];
        [destruct (data_url host (calls cx)) |]; discriminate.
Qed.

(* ------------------------------------------------------------------ *)
(** ** Exceptions of a pass *)

Lemma bind_thrown {S A B} (m : M S A) (k : A -> M S B) (s s' : S)
    (e : string) :
  bind m k s = (Thrown e, s') ->
  m s = (Thrown e, s')
  \/ exists (a : A) (s1 : S), m s = (Returned a, s1) /\ k a s1 = (Thrown e, s').
Proof.
  unfold bind. destruct (m s) as [[a | e0] s1]; intro H.
  - right. exists a, s1. split; [reflexivity | exact H].
  - left. injection H as <- <-. reflexivity.
Qed.

Section Exceptions.

Variable host : Host.

Lemma drawBackground_thrown_cause (state : RenderState) (tint : string)
    (W H : Q) (c c1 : Ctx) (e : string) :
  drawBackground host state tint W H c = (Thrown e, c1) ->
  exists im : Image, img state = Some im /\ image_error host im = Some e.
Proof.
  unfold drawBackground.
  destruct (img state) as [im |].
  - unfold bind, save, set_fillStyle, set_globalAlpha,
      set_globalCompositeOperation, with_props, fillRect, drawImage,
      record_call.
    cbn [props saved calls].
    destruct (image_error host im) as [e0 |] eqn:E; intro X;
      [| discriminate X].
    injection X as <- _. exists im. split; [reflexivity | exact E].
  - unfold bind, save, set_fillStyle, set_globalAlpha, with_props, fillRect,
      ret, record_call.
    cbn [props saved calls]. intro X. discriminate X.
Qed.

Lemma drawLogo_thrown_cause (state : RenderState) (W H sc : Q) (c c1 : Ctx)
    (e : string) :
  drawLogo host state W H sc c = (Thrown e, c1) ->
  exists lg : Image, logo state = Some lg /\ image_error host lg = Some e.
Proof.
  unfold drawLogo. destruct (logo state) as [lg |].
  - unfold drawImage. destruct (image_error host lg) as [e0 |] eqn:E;
      intro X; [| discriminate X].
    injection X as <- _. exists lg. split; [reflexivity | exact E].
  - intro X. discriminate X.
Qed.

End Exceptions.

(** X21.  A pass of the compositor throws only when [drawImage] rejects the
    background image or the logo, and then with that very exception: the
    guard, the fit solver, the tracked drawing, the subtitle's colour and
    the author never throw. *)
Theorem render_throws_only_on_image (host : Host) (state : RenderState)
    (fields : Fields) (canvas : Canvas) (c c' : Ctx) (e : string) :
  renderToContext host state fields canvas c = (Thrown e, c') ->
  (exists im : Image, img state = Some im /\ image_error host im = Some e)
  \/ (exists lg : Image, logo state = Some lg /\ image_error host lg = Some e).
Proof.
  intro H. unfold renderToContext in H.
  destruct (invalid_dimensions (canvas_width canvas) (canvas_height canvas)
              (nativeWidth state) (nativeHeight state) (scale state)) eqn:V;
    [discriminate H |].
  assert (Hk : falsy (track_of state) = false).
  { apply track_not_zero. apply invalid_dimensions_false in V. tauto. }
  cbv zeta in H.
  apply bind_thrown in H. destruct H as [H | ([] & c0 & _ & H)].
  { left. eapply drawBackground_thrown_cause. exact H. }
  apply bind_thrown in H. destruct H as [H | ([] & c1 & _ & H)];
    [discriminate H |].
  apply bind_thrown in H. destruct H as [H | (y1 & c2 & _ & H)].
  { destruct (drawTitle1_frame host state (trim (title1 fields))
                (y0_of state) c1 Hk) as (y' & cx & l & E & _).
    pose proof (eq_trans (eq_sym E) H) as X. discriminate X. }
  apply bind_thrown in H. destruct H as [H | (y2 & c3 & _ & H)].
  { destruct (drawTitle2_frame host state (trim (title2 fields)) y1 c2 Hk)
      as (y' & cx & l & E & _).
    pose proof (eq_trans (eq_sym E) H) as X. discriminate X. }
  apply bind_thrown in H. destruct H as [H | (y3 & c4 & _ & H)].
  { destruct (drawSubtitle_frame host state (trim (subtitle fields)) y2 c3)
      as (y' & cx & l & E & _).
    pose proof (eq_trans (eq_sym E) H) as X. discriminate X. }
  apply bind_thrown in H. destruct H as [H | ([] & c5 & _ & H)].
  { destruct (drawAuthor_frame host state (trim (author fields))
                (inject_Z (canvas_width canvas))
                (inject_Z (canvas_height canvas)) c4)
      as (cx & l & E & _).
    pose proof (eq_trans (eq_sym E) H) as X. discriminate X. }
  apply bind_thrown in H. destruct H as [H | ([] & c6 & _ & H)].
  { right. eapply drawLogo_thrown_cause. exact H. }
  unfold restore in H. destruct (saved c6); discriminate H.
Qed.

Lemma render_throws_only_on_image_witness :
  (exists im : Image,
      img Demo.state_with_images = Some im
      /\ image_error Demo.broken_image_host im = Some "InvalidStateError")
  \/ (exists lg : Image,
         logo Demo.state_with_images = Some lg
         /\ image_error Demo.broken_image_host lg = Some "InvalidStateError").
Proof.
  apply (render_throws_only_on_image Demo.broken_image_host
           Demo.state_with_images Demo.full_cover Demo.canvas new_context
           (snd (renderToContext Demo.broken_image_host
                   Demo.state_with_images Demo.full_cover Demo.canvas
                   new_context))).
  vm_compute. reflexivity.
Defined.

(* ------------------------------------------------------------------ *)
(** ** The compositor: title line 2, its fit and the cursor it hands on *)

(** The size cap of title line 2: [Math.round(titleMax * 3)], with
    [titleMax = 260 * scale], both products in binary64. *)
Definition title2_cap (state : RenderState) : Q :=
  inject_Z (Math_round (fmul (fmul 260 (scale state)) 3)).


(** The "Title 2" block on a non-empty line, call by call. *)
Lemma title2_block (host : Host) (state : RenderState) (text : string)
    (y : Q) (c : Ctx) :
  falsy (track_of state) = false -> truthy text = true ->
  exists (f2 : FitResult) (l : list Call),
    drawTitle2 host text (titleFamily_of state) (pad_of state)
               (colW_of state) (titleMax_of state) (track_of state)
               (scale state) y c
    = (Returned (y + (size f2 * (9 # 10) + 18 * scale state)),
       mkCtx (title_props (size f2) (titleFamily_of state) (props c))
             (saved c)
             (calls c
              ++ (MeasureText text
                    (mkFont "900" (title2_cap state) (titleFamily_of state))
                  :: l)
              ++ tracked_calls host
                   (title_props (size f2) (titleFamily_of state) (props c))
                   text (pad_of state) y (track_of state)))
    /\ Forall (fun x => is_measure x = true) l
    /\ size f2 <= title2_cap state
    /\ (tracked_width host (mkFont "900" (size f2) (titleFamily_of state))
                      text (track_of state)
        <= colW_of state
        \/ size f2 <= fmul 260 (scale state))
    /\ (forall j : nat,
           title2_cap state
           == fmul 260 (scale state) + 2 * inject_Z (Z.of_nat j) ->
           fmul 260 (scale state) <= size f2).
Proof.
  intros Hk Ht.
  destruct (fitTextForContext_spec host (title2_fit_args state text) c)
    as (f & c1 & k & l & Hrun & _ & Hsz & _ & _ & Hcalls & _ & Hall
        & Hsaved & Hprops & Hwidth & Hexit & Hfloor & _).
  destruct c1 as [p1 s1 k1]. cbn [props saved calls] in Hcalls, Hsaved, Hprops.
  subst p1 s1 k1.
  exists f, l.
  split; [| split; [exact Hall | split; [exact (steps_down_le _ _ _ Hsz) |]]].
  - unfold drawTitle2. rewrite Ht. fold (title2_fit_args state text).
    rewrite (bind_run _ _ _ _ _ Hrun).
    unfold bind at 1. cbn [set_font with_props props saved calls].
    unfold bind at 1. cbn [set_textBaseline with_props props saved calls].
    unfold drawTrackedTextForContext. rewrite Hk.
    unfold bind at 1. rewrite drawTracked_chars_run.
    cbn [props saved calls ret]. rewrite <- app_assoc. reflexivity.
  - split; [| exact Hfloor].
    apply andb_false_iff in Hexit. destruct Hexit as [E | E];
      apply Qgtb_false in E; [left | right]; [| exact E].
    rewrite Hwidth in E. exact E.
Qed.



(* ------------------------------------------------------------------ *)
(** ** The compositor: the guard and the full sequence *)

(** The characters the [fillText] calls of a list draw, in order. *)
Fixpoint drawn_text (l : list Call) : string :=
  match l with
  | [] => ""
  | FillText t _ _ _ :: r => t ++ drawn_text r
  | _ :: r => drawn_text r
  end.

Lemma drawn_text_app (l1 l2 : list Call) :
  drawn_text (l1 ++ l2) = drawn_text l1 ++ drawn_text l2.
Proof.
  induction l1 as [| x l1 IH]; [reflexivity |].
  destruct x; cbn [app drawn_text]; try exact IH.
  rewrite IH. symmetry. apply string_append_assoc.
Qed.

Lemma drawn_text_measures (l : list Call) :
  Forall (fun x => is_measure x = true) l -> drawn_text l = "".
Proof.
  induction 1 as [| x l Hx _ IH]; [reflexivity |].
  destruct x; try discriminate Hx. exact IH.
Qed.

Lemma drawn_text_tracked (host : Host) (ds : DrawState) (text : string) :
  forall x y letter : Q,
    drawn_text (tracked_calls host ds text x y letter) = text.
Proof.
  induction text as [| ch rest IH]; intros x y letter; [reflexivity |].
  cbn [tracked_calls drawn_text]. rewrite IH. reflexivity.
Qed.

Lemma not_truthy (s : string) : truthy s = false -> s = "".
Proof. destruct s; [reflexivity | discriminate]. Qed.

Lemma no_calls_added (l0 l : list Call) : l0 = (l0 ++ l)%list -> l = [].
Proof.
  intro E. rewrite <- (app_nil_r l0) in E at 1.
  apply app_inv_head in E. symmetry. exact E.
Qed.

Section Sequence.

Variable host : Host.

(** Each text block draws the characters of its field and nothing else. *)
Lemma drawTitle1_text (state : RenderState) (title1 : string) (y y' : Q)
    (c c' : Ctx) (l : list Call) :
  falsy (track_of state) = false ->
  drawTitle1 host title1 (titleFamily_of state) (pad_of state)
             (colW_of state) (titleMax_of state) (track_of state)
             (scale state) y c
  = (Returned y', c') ->
  calls c' = (calls c ++ l)%list ->
  drawn_text l = title1.
Proof.
  intros Hk H A. unfold drawTitle1 in H.
  destruct (truthy title1) eqn:T.
  - destruct (title_block_run host (title1_fit_args state title1)
                (titleFamily_of state) (pad_of state) y (track_of state)
                (fun f1 => y + (size f1 * (95 # 100) + 8 * scale state)) c Hk)
      as (f & l_fit & E & Hfit & _).
    pose proof (eq_trans (eq_sym E) H) as X. injection X as _ <-.
    cbn [calls] in A. apply app_inv_head in A. subst l.
    rewrite drawn_text_app, (drawn_text_measures _ Hfit), drawn_text_tracked.
    reflexivity.
  - injection H as _ <-. apply no_calls_added in A. subst l.
    symmetry. apply not_truthy. exact T.
Qed.

Lemma drawTitle2_text (state : RenderState) (title2 : string) (y y' : Q)
    (c c' : Ctx) (l : list Call) :
  falsy (track_of state) = false ->
  drawTitle2 host title2 (titleFamily_of state) (pad_of state)
             (colW_of state) (titleMax_of state) (track_of state)
             (scale state) y c
  = (Returned y', c') ->
  calls c' = (calls c ++ l)%list ->
  drawn_text l = title2.
Proof.
  intros Hk H A.
  destruct (truthy title2) eqn:T.
  - destruct (title2_block host state title2 y c Hk T)
      as (f & l_fit & E & Hfit & _).
    pose proof (eq_trans (eq_sym E) H) as X. injection X as _ <-.
    cbn [calls] in A. apply app_inv_head in A. subst l.
    cbn [app drawn_text].
    rewrite drawn_text_app, drawn_text_tracked, (drawn_text_measures _ Hfit).
    reflexivity.
  - unfold drawTitle2 in H. rewrite T in H.
    injection H as _ <-. apply no_calls_added in A. subst l.
    symmetry. apply not_truthy. exact T.
Qed.

Lemma drawSubtitle_text (state : RenderState) (sub : string) (y y' : Q)
    (c c' : Ctx) (l : list Call) :
  drawSubtitle host sub (bodyFamily_of state) (pad_of state)
               (colW_of state) (scale state) y c
  = (Returned y', c') ->
  calls c' = (calls c ++ l)%list ->
  drawn_text l = sub.
Proof.
  intros H A.
  destruct (truthy sub) eqn:T.
  - destruct (drawSubtitle_spec host state sub y c T)
      as (f & c1 & l_fit & _ & E & Hfit).
    pose proof (eq_trans (eq_sym E) H) as X. injection X as _ <-.
    cbn [calls] in A. apply app_inv_head in A. subst l.
    rewrite drawn_text_app, (drawn_text_measures _ Hfit).
    cbn [drawn_text String.append]. clear. induction sub; [reflexivity |].
    cbn. f_equal. assumption.
  - unfold drawSubtitle in H. rewrite T in H.
    injection H as _ <-. apply no_calls_added in A. subst l.
    symmetry. apply not_truthy. exact T.
Qed.

Lemma drawAuthor_text (state : RenderState) (author : string) (W H : Q)
    (c c' : Ctx) (l : list Call) :
  drawAuthor host author (bodyFamily_of state) W H (pad_of state)
             (scale state) c
  = (Returned tt, c') ->
  calls c' = (calls c ++ l)%list ->
  drawn_text l = author.
Proof.
  intros R A.
  destruct (truthy author) eqn:T.
  - rewrite (drawAuthor_run host state author W H c T) in R.
    injection R as <-. cbn [calls] in A. apply app_inv_head in A. subst l.
    cbn [drawn_text]. clear. induction author; [reflexivity |].
    cbn. f_equal. assumption.
  - unfold drawAuthor in R. rewrite T in R.
    injection R as <-. apply no_calls_added in A. subst l.
    symmetry. apply not_truthy. exact T.
Qed.

End Sequence.

(** A pass on valid dimensions that returns, block by block, with the
    characters each block has drawn. *)
Lemma render_sequence (host : Host) (state : RenderState) (fields : Fields)
    (canvas : Canvas) (c c' : Ctx) :
  invalid_dimensions (canvas_width canvas) (canvas_height canvas)
                     (nativeWidth state) (nativeHeight state) (scale state)
  = false ->
  renderToContext host state fields canvas c = (Returned tt, c') ->
  exists (l1 l2 l3 l4 : list Call) (d : DrawState),
    calls c'
    = (calls c
       ++ background_calls state (tint fields)
            (inject_Z (canvas_width canvas)) (inject_Z (canvas_height canvas))
            (props c)
       ++ l1 ++ l2 ++ l3 ++ l4
       ++ logo_calls state (inject_Z (canvas_width canvas))
            (inject_Z (canvas_height canvas)) d
       ++ [Restore])%list
    /\ (text_calls_in ink l1 /\ drawn_text l1 = trim (title1 fields))
    /\ (text_calls_in ink l2 /\ drawn_text l2 = trim (title2 fields))
    /\ (text_calls_in "#f0f0f0" l3 /\ drawn_text l3 = trim (subtitle fields))
    /\ (text_calls_in ink l4 /\ drawn_text l4 = trim (author fields))
    /\ globalAlpha d = 1.
Proof.
  intros V Hrun.
  assert (Hk : falsy (track_of state) = false).
  { apply track_not_zero. apply invalid_dimensions_false in V. tauto. }
  destruct (render_pass host state fields canvas c c' V Hrun)
    as (c0 & c2 & c3 & c4 & c5 & c6 & y1 & y2 & y3
        & H0 & H1 & H2 & H3 & H4 & H5 & H6).
  pose proof (drawBackground_props host _ _ _ _ _ _ H0) as P0.
  apply drawBackground_spec in H0. destruct H0 as [H0 S0].
  set (c1 := mkCtx (upd_fillStyle ink (props c0)) (saved c0) (calls c0)) in *.
  destruct (drawTitle1_frame host state (trim (title1 fields)) (y0_of state)
              c1 Hk)
    as (y1' & c2' & l1 & E1 & A1 & F1 & S1 & T1).
  pose proof (eq_trans (eq_sym E1) H1) as X. injection X as -> ->.
  pose proof (drawTitle1_text host state _ _ _ _ _ _ Hk H1 A1) as D1.
  destruct (drawTitle2_frame host state (trim (title2 fields)) y1 c2 Hk)
    as (y2' & c3' & l2 & E2 & A2 & F2 & S2 & T2).
  pose proof (eq_trans (eq_sym E2) H2) as X. injection X as -> ->.
  pose proof (drawTitle2_text host state _ _ _ _ _ _ Hk H2 A2) as D2.
  destruct (drawSubtitle_frame host state (trim (subtitle fields)) y2 c3)
    as (y3' & c4' & l3 & E3 & A3 & F3 & T3).
  pose proof (eq_trans (eq_sym E3) H3) as X. injection X as -> ->.
  pose proof (drawSubtitle_text host state _ _ _ _ _ _ H3 A3) as D3.
  destruct (drawAuthor_frame host state (trim (author fields))
              (inject_Z (canvas_width canvas))
              (inject_Z (canvas_height canvas)) c4)
    as (c5' & l4 & E4 & A4 & F4 & T4).
  pose proof (eq_trans (eq_sym E4) H4) as X. injection X as ->.
  pose proof (drawAuthor_text host state _ _ _ _ _ _ H4 A4) as D4.
  apply drawLogo_run in H5. subst c6.
  pose proof (frame_kept_trans _ _ _
                (frame_kept_trans _ _ _ (frame_kept_trans _ _ _ F1 F2) F3) F4)
    as (Fs & Fa & _).
  cbn [saved props globalAlpha c1] in Fs, Fa.
  assert (Sv : saved c5 = props c :: saved c) by (rewrite Fs; exact S0).
  unfold restore in H6. cbn [saved] in H6. rewrite Sv in H6.
  injection H6 as <-. cbn [calls props saved].
  exists l1, l2, l3, l4, (props c5).
  split.
  { rewrite A4, A3, A2, A1. unfold c1. cbn [calls]. rewrite H0.
    rewrite <- !app_assoc. reflexivity. }
  assert (I1 : fillStyle (props c1) = ink) by reflexivity.
  rewrite I1 in T1. rewrite S1, I1 in T2.
  split; [split; [exact T1 | exact D1] |].
  split; [split; [exact T2 | exact D2] |].
  split; [split; [exact T3 | exact D3] |].
  split; [split; [exact T4 | exact D4] |].
  rewrite Fa, P0. reflexivity.
Qed.

(** C5.  When any of the target width, target height, native width,
    native height or scale is not strictly positive, the pass returns
    normally and leaves the context as it was: no call is issued.  When
    all five are strictly positive the pass starts drawing, whichever way
    it ends, with [save] and the flat fill in the tint; and a pass that
    returns has gone through the full sequence: the background (the flat
    fill, the image under "multiply" when there is one, the wash), then
    the four text blocks in the order title line 1, title line 2,
    subtitle, author, each issuing text calls only and drawing exactly
    the characters of its trimmed field, then the logo when there is one,
    opaque, and [restore]. *)
Theorem render_guard (host : Host) (state : RenderState) (fields : Fields)
    (canvas : Canvas) (c : Ctx) :
  ((canvas_width canvas <= 0)%Z \/ (canvas_height canvas <= 0)%Z
   \/ (nativeWidth state <= 0)%Z \/ (nativeHeight state <= 0)%Z
   \/ scale state <= 0 ->
   renderToContext host state fields canvas c = (Returned tt, c))
  /\ ((0 < canvas_width canvas)%Z /\ (0 < canvas_height canvas)%Z
      /\ (0 < nativeWidth state)%Z /\ (0 < nativeHeight state)%Z
      /\ 0 < scale state ->
      forall (o : Outcome unit) (c' : Ctx),
        renderToContext host state fields canvas c = (o, c') ->
        (exists rest : list Call,
            calls c'
            = (calls c
               ++ Save
               :: FillRect 0 0 (inject_Z (canvas_width canvas))
                           (inject_Z (canvas_height canvas))
                           (upd_fillStyle (tint fields) (props c))
               :: rest)%list)
        /\ (o = Returned tt ->
            exists (l1 l2 l3 l4 : list Call) (d : DrawState),
              calls c'
              = (calls c
                 ++ background_calls state (tint fields)
                      (inject_Z (canvas_width canvas))
                      (inject_Z (canvas_height canvas)) (props c)
                 ++ l1 ++ l2 ++ l3 ++ l4
                 ++ logo_calls state (inject_Z (canvas_width canvas))
                      (inject_Z (canvas_height canvas)) d
                 ++ [Restore])%list
              /\ (text_calls_in "#ffffff" l1
                  /\ drawn_text l1 = trim (title1 fields))
              /\ (text_calls_in "#ffffff" l2
                  /\ drawn_text l2 = trim (title2 fields))
              /\ (text_calls_in "#f0f0f0" l3
                  /\ drawn_text l3 = trim (subtitle fields))
              /\ (text_calls_in "#ffffff" l4
                  /\ drawn_text l4 = trim (author fields))
              /\ globalAlpha d = 1)).
Proof.
  split.
  - intro Hbad. unfold renderToContext.
    assert (V : invalid_dimensions (canvas_width canvas) (canvas_height canvas)
                  (nativeWidth state) (nativeHeight state) (scale state)
                = true).
    { unfold invalid_dimensions. rewrite !orb_true_iff, !Z.leb_le, Qleb_true.
      tauto. }
    rewrite V. reflexivity.
  - intros Hgood o c' Hrun.
    apply invalid_dimensions_false in Hgood.
    split.
    + unfold renderToContext in Hrun. rewrite Hgood in Hrun. cbv zeta in Hrun.
      unfold bind at 1 in Hrun.
      destruct (drawBackground host state (tint fields)
                  (inject_Z (canvas_width canvas))
                  (inject_Z (canvas_height canvas)) c)
        as [[[] | e] c0] eqn:E0.
      * apply drawBackground_spec in E0. destruct E0 as [E0 _].
        assert (G : grows
                      (set_fillStyle ink ;;
                       y <- drawTitle1 host (trim (title1 fields))
                              (titleFamily_of state) (pad_of state)
                              (colW_of state) (titleMax_of state)
                              (track_of state) (scale state) (y0_of state) ;;
                       y <- drawTitle2 host (trim (title2 fields))
                              (titleFamily_of state) (pad_of state)
                              (colW_of state) (titleMax_of state)
                              (track_of state) (scale state) y ;;
                       y <- drawSubtitle host (trim (subtitle fields))
                              (bodyFamily_of state) (pad_of state)
                              (colW_of state) (scale state) y ;;
                       drawAuthor host (trim (author fields))
                         (bodyFamily_of state)
                         (inject_Z (canvas_width canvas))
                         (inject_Z (canvas_height canvas)) (pad_of state)
                         (scale state) ;;
                       drawLogo host state (inject_Z (canvas_width canvas))
                         (inject_Z (canvas_height canvas)) (scale state) ;;
                       restore)).
        { repeat first
            [ apply grows_bind; [| intro]
            | apply grows_with_props | apply grows_drawTitle1
            | apply grows_drawTitle2 | apply grows_drawSubtitle
            | apply grows_drawAuthor | apply grows_drawLogo
            | apply grows_restore ]. }
        destruct (G _ _ _ Hrun) as (l & Hl). unfold appended in Hl.
        rewrite Hl, E0. unfold background_calls.
        rewrite <- app_assoc. cbn [app]. eexists. reflexivity.
      * injection Hrun as _ <-. apply drawBackground_thrown in E0.
        rewrite E0. eexists. reflexivity.
    + intros ->. exact (render_sequence host state fields canvas c c' Hgood Hrun).
Qed.

Lemma render_guard_witness :
  renderToContext Demo.host Demo.state_with_images Demo.full_cover
                  (mkCanvas 0 400) new_context
  = (Returned tt, new_context)
  /\ exists (l1 l2 l3 l4 : list Call) (d : DrawState),
       calls (snd (renderToContext Demo.host Demo.state_with_images
                                   Demo.full_cover Demo.canvas new_context))
       = (background_calls Demo.state_with_images "#336699" 250 400
                           initial_props
          ++ l1 ++ l2 ++ l3 ++ l4
          ++ logo_calls Demo.state_with_images 250 400 d
          ++ [Restore])%list
       /\ drawn_text l1 = "Perl" /\ drawn_text l2 = "Taster"
       /\ drawn_text l3 = "Second Edition" /\ drawn_text l4 = "Dave Cross".
Proof.
  split.
  - apply (proj1 (render_guard Demo.host Demo.state_with_images
                               Demo.full_cover (mkCanvas 0 400) new_context)).
    left. cbn. lia.
  - destruct (proj2 (render_guard Demo.host Demo.state_with_images
                                  Demo.full_cover Demo.canvas new_context))
      with (o := @Returned unit tt)
           (c' := snd (renderToContext Demo.host Demo.state_with_images
                                       Demo.full_cover Demo.canvas
                                       new_context))
      as [_ H].
    + cbn. repeat split; first [lia | reflexivity].
    + vm_compute. reflexivity.
    + destruct (H eq_refl)
        as (l1 & l2 & l3 & l4 & d & Hcalls & [_ D1] & [_ D2] & [_ D3]
            & [_ D4] & _).
      exists l1, l2, l3, l4, d.
      split; [exact Hcalls |]. repeat split; assumption.
Defined.

(* ------------------------------------------------------------------ *)
(** ** The fit solver in binary64 arithmetic *)

(** A double other than zero is a whole multiple of its unit in the last
    place, and conversely. *)
Lemma is_double_grid (q : Q) :
  ~ q == 0 ->
  (is_double q <-> exists m : Z, q == inject_Z m * pow2 (ulp_exp q)).
Proof.
  intro NZ. unfold is_double. rewrite (round64_nonzero q NZ).
  pose proof (pow2_pos (ulp_exp q)) as P.
  split.
  - intro E. exists (rne (q / pow2 (ulp_exp q))). symmetry. exact E.
  - intros [m E].
    assert (F : q / pow2 (ulp_exp q) == inject_Z m).
    { rewrite E at 1. field. lra. }
    rewrite (rne_comp _ _ F), rne_Z. symmetry. exact E.
Qed.

(** Below [2^54] a double stays a double when an even whole number is
    taken off it, as long as the magnitude does not grow. *)
Lemma sub_even_exact (M : Q) (t : Z) :
  is_double M -> Qabs M < pow2 54 ->
  Qabs (M - inject_Z (2 * t)) <= Qabs M ->
  is_double (M - inject_Z (2 * t)).
Proof.
  intros D B L.
  set (x := M - inject_Z (2 * t)) in *.
  destruct (Qeq_dec x 0) as [Z0 | NZ].
  { unfold is_double. rewrite (round64_zero x Z0). symmetry. exact Z0. }
  assert (NZM : ~ M == 0).
  { intro E. rewrite E in L. change (Qabs 0) with 0 in L.
    pose proof (Qabs_gt0 x NZ). lra. }
  apply (is_double_grid x NZ).
  apply (is_double_grid M NZM) in D. destruct D as [m E].
  assert (UM : (ulp_exp M <= 1)%Z).
  { unfold ulp_exp. destruct (ilog2_spec M NZM) as [Lo _].
    assert (ilog2 M < 54)%Z by (apply pow2_lt_inv; lra). lia. }
  assert (UX : (ulp_exp x <= ulp_exp M)%Z).
  { unfold ulp_exp. pose proof (ilog2_mono x M NZ L). lia. }
  assert (Ex : x == inject_Z m * pow2 (ulp_exp M) - 2 * inject_Z t).
  { unfold x. rewrite <- E, inject_Z_mult. reflexivity. }
  revert Ex UX UM. generalize (ulp_exp x) (ulp_exp M). intros ux uM Ex UX UM.
  exists (m * 2 ^ (uM - ux) - t * 2 ^ (1 - ux))%Z.
  pose proof (pow2_pos ux) as P.
  rewrite Ex. unfold Z.sub at 1.
  rewrite inject_Z_plus, inject_Z_opp, !inject_Z_mult.
  rewrite <- !pow2_Z by lia.
  rewrite !pow2_sub. change (pow2 1) with 2.
  field. lra.
Qed.

(** Between two numbers the magnitude is at most that of one of them. *)
Lemma Qabs_between (a b x : Q) :
  a <= x -> x <= b -> Qabs x <= Qabs a \/ Qabs x <= Qabs b.
Proof.
  intros L U. destruct (Qlt_le_dec x 0) as [N | P].
  - left. rewrite (Qabs_neg x) by lra. rewrite (Qabs_neg a) by lra. lra.
  - right. rewrite (Qabs_pos x) by lra. rewrite (Qabs_pos b) by lra. lra.
Qed.

Lemma Qabs_below (x : Q) (k : Z) :
  - pow2 k < x -> x < pow2 k -> Qabs x < pow2 k.
Proof. intros L U. apply Qabs_case; intros; lra. Qed.

Lemma steps_down64_succ (j : nat) (s : Q) :
  steps_down64 (S j) s = steps_down64 j (fsub s 2).
Proof. unfold steps_down64. rewrite Nat.iter_succ_r. reflexivity. Qed.

(** When the maximum size lies a whole number of steps of 2 above the
    minimum size, both doubles within the range of the whole doubles, the
    loop walks down that ladder exactly. *)
Lemma steps_down64_ladder (minSize maxSize : Q) (j : nat) :
  is_double minSize -> is_double maxSize ->
  - inject_Z (2 ^ 53) <= minSize -> maxSize <= inject_Z (2 ^ 53) ->
  maxSize == minSize + 2 * inject_Z (Z.of_nat j) ->
  forall i : nat,
    (i <= j)%nat ->
    steps_down64 i maxSize == maxSize - 2 * inject_Z (Z.of_nat i).
Proof.
  intros Dmin Dmax Bmin Bmax E.
  assert (P54 : inject_Z (2 ^ 53) < pow2 54) by (vm_compute; reflexivity).
  assert (J : 0 <= inject_Z (Z.of_nat j)).
  { change 0 with (inject_Z 0). rewrite <- Zle_Qle. lia. }
  assert (Amax : Qabs maxSize < pow2 54) by (apply Qabs_below; lra).
  assert (Amin : Qabs minSize < pow2 54) by (apply Qabs_below; lra).
  assert (Rung : forall i : nat,
             (i <= j)%nat ->
             is_double (maxSize - 2 * inject_Z (Z.of_nat i))).
  { intros i Hi.
    assert (I : 0 <= inject_Z (Z.of_nat i) <= inject_Z (Z.of_nat j)).
    { split; [change 0 with (inject_Z 0) |]; rewrite <- Zle_Qle; lia. }
    destruct (Qabs_between minSize maxSize
                (maxSize - 2 * inject_Z (Z.of_nat i))) as [A | A];
      [lra | lra | |].
    - assert (X : maxSize - 2 * inject_Z (Z.of_nat i)
                  == minSize - inject_Z (2 * (Z.of_nat i - Z.of_nat j))).
      { rewrite E, inject_Z_mult. unfold Z.sub.
        rewrite inject_Z_plus, inject_Z_opp. change (inject_Z 2) with 2.
        ring. }
      unfold is_double. rewrite (round64_comp _ _ X), X.
      apply sub_even_exact; [exact Dmin | exact Amin |].
      rewrite <- X. exact A.
    - assert (X : maxSize - 2 * inject_Z (Z.of_nat i)
                  == maxSize - inject_Z (2 * Z.of_nat i)).
      { rewrite inject_Z_mult. change (inject_Z 2) with 2. ring. }
      unfold is_double. rewrite (round64_comp _ _ X), X.
      apply sub_even_exact; [exact Dmax | exact Amax |].
      rewrite <- X. exact A. }
  induction i as [| i IH]; intro Hi.
  - cbn. change (inject_Z 0) with 0. ring.
  - cbn [steps_down64 Nat.iter]. fold (steps_down64 i maxSize).
    unfold fsub.
    assert (X : steps_down64 i maxSize - 2
                == maxSize - 2 * inject_Z (Z.of_nat (S i))).
    { rewrite IH by lia. rewrite Nat2Z.inj_succ. unfold Z.succ.
      rewrite inject_Z_plus. change (inject_Z 1) with 1. ring. }
    rewrite (round64_comp _ _ X). apply Rung. exact Hi.
Qed.

Section FitSolver64.

Variable host : Host.

Lemma measureWithTracking64_run (text : string) (letter : Q) (c : Ctx) :
  measureWithTrackingForContext64 host text letter c
  = (Returned (tracked_width64 host (font (props c)) text letter),
     record_call (MeasureText text (font (props c))) c).
Proof.
  unfold measureWithTrackingForContext64, tracked_width64.
  destruct (falsy letter); reflexivity.
Qed.

(** One turn of the loop. *)
Lemma fit_loop64_turn (fuel : nat) (text : string) (maxWidth minSize : Q)
    (family weight : string) (letter size0 w : Q) (c : Ctx) :
  Qgtb w maxWidth && Qgtb size0 minSize = true ->
  fit_loop64 host (S fuel) text maxWidth minSize family weight letter size0 w c
  = fit_loop64 host fuel text maxWidth minSize family weight letter
      (fsub size0 2)
      (tracked_width64 host (mkFont weight (fsub size0 2) family) text letter)
      (record_call
         (MeasureText text (mkFont weight (fsub size0 2) family))
         (mkCtx (upd_font (mkFont weight (fsub size0 2) family) (props c))
                (saved c) (calls c))).
Proof.
  intro E. cbn [fit_loop64]. rewrite E. cbv zeta.
  unfold bind at 1. cbn [set_font with_props].
  rewrite measureWithTracking64_run. reflexivity.
Qed.

Lemma fit_loop64_exit (fuel : nat) (text : string) (maxWidth minSize : Q)
    (family weight : string) (letter size0 w : Q) (c : Ctx) :
  Qgtb w maxWidth && Qgtb size0 minSize = false ->
  fit_loop64 host fuel text maxWidth minSize family weight letter size0 w c
  = Some (Returned (mkFitResult size0 w), c).
Proof. intro E. destruct fuel; cbn [fit_loop64]; rewrite E; reflexivity. Qed.

(** What a run of the loop establishes when the sizes are within the
    range of the whole doubles: it returns after [k] turns, [k] at most
    [n], each turn having lowered the size by more than 1; every size
    before the last was above the minimum size with the text too wide;
    on exit the loop condition is false. *)
Lemma fit_loop64_spec (text : string) (maxWidth minSize : Q)
    (family weight : string) (letter : Q) :
  - inject_Z (2 ^ 53) + 1 <= minSize ->
  forall (n : nat) (size0 w : Q) (c : Ctx),
    size0 <= inject_Z (2 ^ 53) ->
    size0 - minSize <= inject_Z (Z.of_nat n) ->
    font (props c) = mkFont weight size0 family ->
    w = tracked_width64 host (mkFont weight size0 family) text letter ->
    exists (r : FitResult) (c' : Ctx) (k : nat) (l : list Call),
      (forall fuel : nat,
          (k <= fuel)%nat ->
          fit_loop64 host fuel text maxWidth minSize family weight letter
                     size0 w c
          = Some (Returned r, c'))
      /\ (k <= n)%nat
      /\ size r = steps_down64 k size0
      /\ size r <= size0 - inject_Z (Z.of_nat k)
      /\ calls c' = (calls c ++ l)%list
      /\ List.length l = k
      /\ Forall (fun x => is_measure x = true) l
      /\ saved c' = saved c
      /\ props c' = upd_font (mkFont weight (size r) family) (props c)
      /\ width r = tracked_width64 host (mkFont weight (size r) family) text
                                   letter
      /\ Qgtb (width r) maxWidth && Qgtb (size r) minSize = false
      /\ (forall j : nat,
             (j < k)%nat ->
             minSize < steps_down64 j size0
             /\ maxWidth
                < tracked_width64 host
                    (mkFont weight (steps_down64 j size0) family) text letter).
Proof.
  intro Bmin.
  induction n as [| n IH]; intros size0 w c Bmax Hn Hf Hw;
    destruct (Qgtb w maxWidth && Qgtb size0 minSize) eqn:E.
  - apply andb_prop in E. destruct E as [_ E]. apply Qgtb_true in E.
    change (inject_Z (Z.of_nat 0)) with 0 in Hn. lra.
  - exists (mkFitResult size0 w), c, 0%nat, []. cbn [size width].
    split; [intros fuel _; apply fit_loop64_exit; exact E |].
    split; [lia |]. split; [reflexivity |].
    split; [change (inject_Z (Z.of_nat 0)) with 0; lra |].
    split; [rewrite app_nil_r; reflexivity |].
    split; [reflexivity |]. split; [constructor |]. split; [reflexivity |].
    split; [rewrite <- Hf; destruct c as [[? ? ? ? ?] ? ?]; reflexivity |].
    split; [exact Hw |]. split; [exact E |].
    intros j Hj. lia.
  - pose proof E as E'. apply andb_prop in E'. destruct E' as [E1 E2].
    apply Qgtb_true in E1. apply Qgtb_true in E2.
    assert (D : fsub size0 2 < size0 - 1) by (apply fsub2_decreases; lra).
    set (s1 := fsub size0 2) in *.
    set (c1 := record_call (MeasureText text (mkFont weight s1 family))
                 (mkCtx (upd_font (mkFont weight s1 family) (props c))
                        (saved c) (calls c))).
    destruct (IH s1 (tracked_width64 host (mkFont weight s1 family) text letter)
                 c1)
      as (r & c' & k & l & Hrun & Hk & Hsz & Hdown & Hcalls & Hlen & Hall
          & Hsaved & Hprops & Hwidth & Hexit & Hprev);
      [lra | | reflexivity | reflexivity |].
    { rewrite Nat2Z.inj_succ in Hn. unfold Z.succ in Hn.
      rewrite inject_Z_plus in Hn. change (inject_Z 1) with 1 in Hn. lra. }
    exists r, c', (S k), (MeasureText text (mkFont weight s1 family) :: l).
    split.
    { intros fuel Hfuel. destruct fuel as [| fuel]; [lia |].
      rewrite (fit_loop64_turn fuel _ _ _ _ _ _ _ _ _ E).
      apply Hrun. lia. }
    split; [lia |].
    split; [rewrite steps_down64_succ; exact Hsz |].
    split.
    { rewrite Nat2Z.inj_succ. unfold Z.succ. rewrite inject_Z_plus.
      change (inject_Z 1) with 1. lra. }
    split.
    { rewrite Hcalls. unfold c1, record_call. cbn [calls].
      rewrite <- app_assoc. reflexivity. }
    split; [cbn [List.length]; rewrite Hlen; reflexivity |].
    split; [constructor; [reflexivity | exact Hall] |].
    split; [rewrite Hsaved; reflexivity |].
    split; [rewrite Hprops; reflexivity |].
    split; [exact Hwidth |]. split; [exact Hexit |].
    intros j Hj. destruct j as [| j].
    + cbn. rewrite <- Hw. split; assumption.
    + rewrite steps_down64_succ. apply Hprev. lia.
  - exists (mkFitResult size0 w), c, 0%nat, []. cbn [size width].
    split; [intros fuel _; apply fit_loop64_exit; exact E |].
    split; [lia |]. split; [reflexivity |].
    split; [change (inject_Z (Z.of_nat 0)) with 0; lra |].
    split; [rewrite app_nil_r; reflexivity |].
    split; [reflexivity |]. split; [constructor |]. split; [reflexivity |].
    split; [rewrite <- Hf; destruct c as [[? ? ? ? ?] ? ?]; reflexivity |].
    split; [exact Hw |]. split; [exact E |].
    intros j Hj. lia.
Qed.

(** The number of turns that is enough for a call. *)
Definition fit_turns64 (a : FitArgs) : nat :=
  Z.to_nat (Qceiling (fit_maxSize a - minSize_of a)).

(** What [fitTextForContext64] does on an input within the range of the
    whole doubles. *)
Lemma fitTextForContext64_spec (a : FitArgs) (c : Ctx) :
  - inject_Z (2 ^ 53) + 1 <= minSize_of a ->
  fit_maxSize a <= inject_Z (2 ^ 53) ->
  exists (r : FitResult) (c' : Ctx) (k : nat) (l : list Call),
    (forall fuel : nat,
        (k <= fuel)%nat ->
        fitTextForContext64 host fuel a c = Some (Returned r, c'))
    /\ (k <= fit_turns64 a)%nat
    /\ size r = steps_down64 k (fit_maxSize a)
    /\ size r <= fit_maxSize a - inject_Z (Z.of_nat k)
    /\ calls c'
       = (calls c
          ++ MeasureText (fit_text a) (font_at a (fit_maxSize a)) :: l)%list
    /\ List.length l = k
    /\ Forall (fun x => is_measure x = true) l
    /\ saved c' = saved c
    /\ props c' = upd_font (font_at a (size r)) (props c)
    /\ width r
       = tracked_width64 host (font_at a (size r)) (fit_text a) (letter_of a)
    /\ Qgtb (width r) (fit_maxWidth a) && Qgtb (size r) (minSize_of a) = false
    /\ (forall j : nat,
           (j < k)%nat ->
           minSize_of a < steps_down64 j (fit_maxSize a)
           /\ fit_maxWidth a
              < tracked_width64 host (font_at a (steps_down64 j (fit_maxSize a)))
                                (fit_text a) (letter_of a)).
Proof.
  intros Bmin Bmax.
  unfold fitTextForContext64, font_at.
  fold (minSize_of a) (weight_of a) (letter_of a).
  set (f0 := mkFont (weight_of a) (fit_maxSize a) (fit_family a)).
  set (c1 := mkCtx (upd_font f0 (props c)) (saved c) (calls c)).
  set (c2 := record_call (MeasureText (fit_text a) f0) c1).
  destruct (fit_loop64_spec (fit_text a) (fit_maxWidth a) (minSize_of a)
              (fit_family a) (weight_of a) (letter_of a) Bmin
              (fit_turns64 a) (fit_maxSize a)
              (tracked_width64 host f0 (fit_text a) (letter_of a)) c2)
    as (r & c' & k & l & Hrun & Hk & Hsz & Hdown & Hcalls & Hlen & Hall
        & Hsaved & Hprops & Hwidth & Hexit & Hprev);
    [exact Bmax | | reflexivity | reflexivity |].
  { unfold fit_turns64.
    pose proof (Qle_ceiling (fit_maxSize a - minSize_of a)) as U.
    destruct (Z_le_gt_dec 0 (Qceiling (fit_maxSize a - minSize_of a)))
      as [P | N].
    - rewrite Z2Nat.id by exact P. exact U.
    - assert (X : inject_Z (Qceiling (fit_maxSize a - minSize_of a)) <= 0).
      { change 0 with (inject_Z 0). rewrite <- Zle_Qle. lia. }
      replace (Z.to_nat (Qceiling (fit_maxSize a - minSize_of a))) with 0%nat
        by lia.
      change (inject_Z (Z.of_nat 0)) with 0. lra. }
  exists r, c', k, l.
  split.
  { intros fuel Hfuel. unfold bind at 1. cbn [set_font with_props]. fold c1.
    rewrite measureWithTracking64_run. exact (Hrun fuel Hfuel). }
  split; [exact Hk |]. split; [exact Hsz |]. split; [exact Hdown |].
  split.
  { rewrite Hcalls. unfold c2, c1, record_call. cbn [calls].
    rewrite <- app_assoc. reflexivity. }
  split; [exact Hlen |]. split; [exact Hall |]. split; [exact Hsaved |].
  split; [rewrite Hprops; reflexivity |].
  split; [exact Hwidth |]. split; [exact Hexit |]. exact Hprev.
Qed.

End FitSolver64.

(** From a double of at least 1 and at most [2^53] the step is exact. *)
Lemma fsub2_exact (s : Q) :
  is_double s -> 1 <= s -> s <= inject_Z (2 ^ 53) ->
  fsub s 2 == s - 2 /\ is_double (fsub s 2).
Proof.
  intros D L U.
  assert (P54 : inject_Z (2 ^ 53) < pow2 54) by (vm_compute; reflexivity).
  assert (X : is_double (s - inject_Z (2 * 1))).
  { apply sub_even_exact; [exact D | apply Qabs_below; lra |].
    change (inject_Z (2 * 1)) with 2. rewrite (Qabs_pos s) by lra.
    apply Qabs_case; intros; lra. }
  change (inject_Z (2 * 1)) with 2 in X. unfold is_double in X.
  assert (E : fsub s 2 == s - 2) by exact X.
  split; [exact E |]. unfold is_double.
  rewrite (round64_comp _ _ E). rewrite E. exact X.
Qed.

(** While every size the loop has gone through was at least 1, the sizes
    are exactly [s, s - 2, s - 4, ...]. *)
Lemma steps_down64_exact (s : Q) (k : nat) :
  is_double s -> s <= inject_Z (2 ^ 53) ->
  (forall j : nat, (j < k)%nat -> 1 <= steps_down64 j s) ->
  forall j : nat,
    (j <= k)%nat ->
    steps_down64 j s == s - 2 * inject_Z (Z.of_nat j)
    /\ is_double (steps_down64 j s).
Proof.
  intros D U Habove.
  induction j as [| j IH]; intro Hj.
  - split; [cbn; change (inject_Z 0) with 0; ring | exact D].
  - destruct IH as [E Dj]; [lia |].
    pose proof (Habove j Hj) as L.
    assert (Uj : steps_down64 j s <= inject_Z (2 ^ 53)).
    { rewrite E. pose proof (Zle_0_nat j) as P. rewrite Zle_Qle in P.
      change (inject_Z 0) with 0 in P. lra. }
    destruct (fsub2_exact (steps_down64 j s) Dj L Uj) as [X Y].
    change (steps_down64 (S j) s) with (fsub (steps_down64 j s) 2).
    split; [| exact Y].
    rewrite X, E, Nat2Z.inj_succ. unfold Z.succ. rewrite inject_Z_plus.
    change (inject_Z 1) with 1. ring.
Qed.

(** A text that never fits, asked for at [2^55] pixels. *)
Definition absorbed_call : FitArgs :=
  mkFitArgs "W" 100 (inject_Z (2 ^ 55)) (Some 24) "TrueNo-Black" None None.

Lemma absorbed_loop (fuel : nat) :
  forall c : Ctx,
    fit_loop64 Demo.host fuel "W" 100 24 "TrueNo-Black" "900" 0
      (inject_Z (2 ^ 55))
      (tracked_width64 Demo.host
         (mkFont "900" (inject_Z (2 ^ 55)) "TrueNo-Black") "W" 0)
      c
    = None.
Proof.
  induction fuel as [| fuel IH]; intro c.
  - reflexivity.
  - rewrite fit_loop64_turn by (vm_compute; reflexivity).
    replace (fsub (inject_Z (2 ^ 55)) 2) with (inject_Z (2 ^ 55))
      by (vm_compute; reflexivity).
    apply IH.
Qed.

(** C9, as the specification states it, fails: from [2^55] the binary64
    subtraction [size - 2] gives [2^55] again, so on a text that never
    fits the loop does not end, whatever the number of turns it is
    allowed. *)
Lemma fit_absorbed_never_returns :
  fsub (inject_Z (2 ^ 55)) 2 == inject_Z (2 ^ 55)
  /\ ~ (exists (fuel : nat) (out : Outcome FitResult * Ctx),
           fitTextForContext64 Demo.host fuel absorbed_call new_context
           = Some out).
Proof.
  split; [vm_compute; reflexivity |].
  intros (fuel & out & H).
  unfold fitTextForContext64, absorbed_call in H.
  cbn [fit_minSize fit_weight fit_letter fit_maxSize fit_family fit_text
       fit_maxWidth default] in H.
  unfold bind at 1 in H. cbn [set_font with_props] in H.
  rewrite measureWithTracking64_run in H. cbn [props font record_call] in H.
  rewrite absorbed_loop in H. discriminate H.
Qed.

(** C9 (amended).  While the sizes are within the range of the whole
    doubles, [maxSize] at most [2^53] and [minSize] above [-2^53], the fit
    loop terminates: the solver returns, having issued measurement calls
    only, one before the loop and one per turn; every turn lowers the
    size by more than 1, so the number [k] of turns is below
    [maxSize - minSize + 1], and it is 0 when [maxSize <= minSize]; on
    return the text fits or the size has reached the floor.  When
    [minSize] is at least 1 every turn lowers the size by exactly 2 and
    [k] is below [(maxSize - minSize) / 2 + 1].  At the floor the width
    may exceed [maxWidth]: [Demo.never_fits] is such an input. *)
Theorem fit_terminates :
  (forall (host : Host) (a : FitArgs) (c : Ctx),
      - inject_Z (2 ^ 53) + 1 <= minSize_of a ->
      fit_maxSize a <= inject_Z (2 ^ 53) ->
      exists (r : FitResult) (c' : Ctx) (k : nat) (l : list Call),
        (forall fuel : nat,
            (k <= fuel)%nat ->
            fitTextForContext64 host fuel a c = Some (Returned r, c'))
        /\ calls c' = (calls c ++ l)%list
        /\ Forall (fun x => is_measure x = true) l
        /\ List.length l = S k
        /\ (fit_maxSize a <= minSize_of a -> k = 0%nat)
        /\ (k = 0%nat
            \/ inject_Z (Z.of_nat k) < fit_maxSize a - minSize_of a + 1)
        /\ size r = steps_down64 k (fit_maxSize a)
        /\ size r <= fit_maxSize a - inject_Z (Z.of_nat k)
        /\ (is_double (fit_maxSize a) -> 1 <= minSize_of a ->
            size r == fit_maxSize a - 2 * inject_Z (Z.of_nat k)
            /\ (k = 0%nat
                \/ inject_Z (Z.of_nat k)
                   < (fit_maxSize a - minSize_of a) / 2 + 1))
        /\ (width r <= fit_maxWidth a \/ size r <= minSize_of a))
  /\ (exists (r : FitResult) (c' : Ctx),
         fitTextForContext64 Demo.host 3 Demo.never_fits new_context
         = Some (Returned r, c')
         /\ size r <= minSize_of Demo.never_fits
         /\ fit_maxWidth Demo.never_fits < width r).
Proof.
  split.
  - intros host a c Bmin Bmax.
    destruct (fitTextForContext64_spec host a c Bmin Bmax)
      as (r & c' & k & l & Hrun & Hk & Hsz & Hdown & Hcalls & Hlen & Hall
          & Hsaved & Hprops & Hwidth & Hexit & Hprev).
    exists r, c', k,
      (MeasureText (fit_text a) (font_at a (fit_maxSize a)) :: l).
    split; [exact Hrun |]. split; [exact Hcalls |].
    split; [constructor; [reflexivity | exact Hall] |].
    split; [cbn [List.length]; rewrite Hlen; reflexivity |].
    unfold fit_turns64 in Hk.
    set (x := fit_maxSize a - minSize_of a) in *.
    split.
    { intro L. assert (N : x <= 0) by (unfold x; lra).
      apply Qceiling_resp_le in N. change (Qceiling 0) with 0%Z in N. lia. }
    split.
    { destruct k as [| k']; [left; reflexivity | right].
      pose proof (Qceiling_lt x) as U. rewrite inject_Z_pred in U.
      assert (B : (Z.of_nat (S k') <= Qceiling x)%Z) by lia.
      rewrite Zle_Qle in B. lra. }
    split; [exact Hsz |]. split; [exact Hdown |].
    split.
    { intros D L.
      assert (Habove : forall j : nat,
                 (j < k)%nat -> 1 <= steps_down64 j (fit_maxSize a)).
      { intros j Hj. destruct (Hprev j Hj) as [A _]. lra. }
      pose proof (steps_down64_exact (fit_maxSize a) k D Bmax Habove)
        as Exact.
      split; [rewrite Hsz; apply (Exact k (le_n k)) |].
      destruct k as [| k']; [left; reflexivity | right].
      destruct (Hprev k') as [A _]; [lia |].
      destruct (Exact k') as [E _]; [lia |].
      rewrite E in A. rewrite Nat2Z.inj_succ. unfold Z.succ.
      rewrite inject_Z_plus. change (inject_Z 1) with 1.
      assert (G : (fit_maxSize a - minSize_of a) / 2
                  == (fit_maxSize a - minSize_of a) * (1 # 2)) by field.
      unfold x in G. fold x in G. rewrite G. unfold x. lra. }
    apply andb_false_iff in Hexit. destruct Hexit as [E | E];
      apply Qgtb_false in E; [left | right]; exact E.
  - eexists. eexists. split; [vm_compute; reflexivity |].
    split; vm_compute; [discriminate | reflexivity].
Qed.

Lemma fit_terminates_witness :
  exists (r : FitResult) (c' : Ctx) (l : list Call),
    fitTextForContext64 Demo.host 0 Demo.title1_small new_context
    = Some (Returned r, c')
    /\ calls c' = l /\ List.length l = 1%nat.
Proof.
  destruct (proj1 fit_terminates Demo.host Demo.title1_small new_context)
    as (r & c' & k & l & Hrun & Hcalls & _ & Hlen & Hk & _).
  - vm_compute. discriminate.
  - vm_compute. discriminate.
  - assert (K : k = 0%nat) by (apply Hk; vm_compute; discriminate).
    subst k. exists r, c', l.
    split; [apply Hrun; lia |]. split; [exact Hcalls | exact Hlen].
Defined.

(** C1 (amended).  While the sizes are within the range of the whole
    doubles the solver returns; the size it returns is never above
    [maxSize]; it is exactly [maxSize] whenever the tracked width measured
    at [maxSize] fits within [maxWidth]; and it is never below [minSize]
    when [maxSize] lies a whole number of steps of 2 above [minSize].
    [fitText] is the same code on the live context. *)
Theorem fit_size_bounds (host : Host) (a : FitArgs) (c : Ctx) :
  - inject_Z (2 ^ 53) + 1 <= minSize_of a ->
  fit_maxSize a <= inject_Z (2 ^ 53) ->
  exists (r : FitResult) (c' : Ctx) (k : nat),
    (forall fuel : nat,
        (k <= fuel)%nat ->
        fitTextForContext64 host fuel a c = Some (Returned r, c')
        /\ fitText64 host fuel a c = Some (Returned r, c'))
    /\ size r <= fit_maxSize a
    /\ (tracked_width64 host (font_at a (fit_maxSize a)) (fit_text a)
                        (letter_of a) <= fit_maxWidth a ->
        size r = fit_maxSize a)
    /\ (forall j : nat,
           is_double (minSize_of a) -> is_double (fit_maxSize a) ->
           fit_maxSize a == minSize_of a + 2 * inject_Z (Z.of_nat j) ->
           minSize_of a <= size r).
Proof.
  intros Bmin Bmax.
  destruct (fitTextForContext64_spec host a c Bmin Bmax)
    as (r & c' & k & l & Hrun & Hk & Hsz & Hdown & Hcalls & Hlen & Hall
        & Hsaved & Hprops & Hwidth & Hexit & Hprev).
  exists r, c', k.
  split; [intros fuel Hfuel; split; apply Hrun; exact Hfuel |].
  split.
  { pose proof (Zle_0_nat k) as P. rewrite Zle_Qle in P.
    change (inject_Z 0) with 0 in P. lra. }
  split.
  { intro F. destruct k as [| k']; [exact Hsz |].
    destruct (Hprev 0%nat) as [_ W]; [lia |]. cbn in W. lra. }
  intros j Dmin Dmax E.
  assert (Bmin' : - inject_Z (2 ^ 53) <= minSize_of a) by lra.
  pose proof (steps_down64_ladder (minSize_of a) (fit_maxSize a) j Dmin Dmax
                Bmin' Bmax E) as Ladder.
  destruct (le_lt_dec k j) as [Le | Gt].
  - rewrite Hsz, (Ladder k Le), E.
    assert (I : inject_Z (Z.of_nat k) <= inject_Z (Z.of_nat j))
      by (rewrite <- Zle_Qle; lia).
    lra.
  - destruct (Hprev j Gt) as [Above _].
    rewrite (Ladder j (le_n j)), E in Above. lra.
Qed.

Lemma fit_size_bounds_witness :
  exists (r : FitResult) (c' : Ctx) (k : nat),
    fitTextForContext64 Demo.host k Demo.fits_at_max new_context
    = Some (Returned r, c')
    /\ size r = 260 /\ 24 <= size r.
Proof.
  destruct (fit_size_bounds Demo.host Demo.fits_at_max new_context)
    as (r & c' & k & Hrun & _ & Hfit & Hfloor).
  - vm_compute. discriminate.
  - vm_compute. discriminate.
  - exists r, c', k.
    split; [exact (proj1 (Hrun k (le_n k))) |].
    split; [apply Hfit; vm_compute; discriminate |].
    apply (Hfloor 118%nat); vm_compute; reflexivity.
Defined.

(** X1.  While the sizes are within the range of the whole doubles, the
    size [fitTextForContext] returns is the first one in the sequence
    [maxSize, maxSize - 2, maxSize - 4, ...], each subtraction in binary64,
    at which the text fits or the floor is reached: every size before it
    in the sequence was above [minSize] and left the text wider than
    [maxWidth].  The width it returns is the tracked width at the
    returned size. *)
Theorem fit_first_fit (host : Host) (a : FitArgs) (c : Ctx) :
  - inject_Z (2 ^ 53) + 1 <= minSize_of a ->
  fit_maxSize a <= inject_Z (2 ^ 53) ->
  exists (r : FitResult) (c' : Ctx) (k : nat),
    (forall fuel : nat,
        (k <= fuel)%nat ->
        fitTextForContext64 host fuel a c = Some (Returned r, c'))
    /\ size r = steps_down64 k (fit_maxSize a)
    /\ width r
       = tracked_width64 host (font_at a (size r)) (fit_text a) (letter_of a)
    /\ (forall j : nat,
           (j < k)%nat ->
           fit_maxWidth a
           < tracked_width64 host (font_at a (steps_down64 j (fit_maxSize a)))
                             (fit_text a) (letter_of a)
           /\ minSize_of a < steps_down64 j (fit_maxSize a))
    /\ (width r <= fit_maxWidth a \/ size r <= minSize_of a).
Proof.
  intros Bmin Bmax.
  destruct (fitTextForContext64_spec host a c Bmin Bmax)
    as (r & c' & k & l & Hrun & _ & Hsz & _ & _ & _ & _ & _ & _ & Hwidth
        & Hexit & Hprev).
  exists r, c', k.
  split; [exact Hrun |]. split; [exact Hsz |]. split; [exact Hwidth |].
  split.
  - intros j Hj. destruct (Hprev j Hj) as [A B]. split; assumption.
  - apply andb_false_iff in Hexit. destruct Hexit as [E | E];
      apply Qgtb_false in E; [left | right]; exact E.
Qed.

Lemma fit_first_fit_witness :
  exists (r : FitResult) (c' : Ctx) (k : nat),
    fitTextForContext64 Demo.host k Demo.never_fits new_context
    = Some (Returned r, c')
    /\ size r = steps_down64 k 30
    /\ (width r <= 100 \/ size r <= 24).
Proof.
  destruct (fit_first_fit Demo.host Demo.never_fits new_context)
    as (r & c' & k & Hrun & Hsz & _ & _ & Hexit).
  - vm_compute. discriminate.
  - vm_compute. discriminate.
  - exists r, c', k. split; [apply Hrun; lia |].
    split; [exact Hsz | exact Hexit].
Defined.

(** On [Demo.never_fits] the sequence is 30, 28, 26, 24: three turns. *)
Example fit_first_fit_never_fits :
  exists c' : Ctx,
    fitTextForContext64 Demo.host 3 Demo.never_fits new_context
    = Some (Returned (mkFitResult 24 480), c')
    /\ fitTextForContext64 Demo.host 2 Demo.never_fits new_context = None
    /\ steps_down64 3 30 == 24.
Proof.
  eexists. split; [vm_compute; reflexivity |].
  split; vm_compute; reflexivity.
Qed.

(** At the scale 280/1600 the cap of title line 2 is 137: [260 * scale]
    is rounded to 45.5 and its triple is 136.5, where the exact triple of
    the scale lies just below 136.5. *)
Example title2_cap_at_a_tie :
  title2_cap (mkRenderState None None "TrueNo-Black" "TrueNo-Regular"
                            1600 2560 (fdiv 280 1600))
  = 137
  /\ Math_round (260 * fdiv 280 1600 * 3) = 136%Z.
Proof. split; vm_compute; reflexivity. Qed.
